(** * unity-alerts: incident notifications over a Discord webhook

    A shallow embedding of the two generations of the alert job:
    - [Earlier]: [main.go], which remembers what it sent in a state file;
    - [Later]: the second program, which uses the [discord_message_id]
      column, attaches a camera frame and knows a third source.

    Layout: Go's [encoding/json] decoding as far as the builders use it,
    the data types shared by both programs, the world the job runs in
    (store, camera directory, webhook, clock), then one module per
    generation, then the theorems. *)

From Stdlib Require Import ZArith String Ascii List Bool Lia DecimalString DecimalPos.
From stdpp Require Import base option gmap strings list.

Local Open Scope string_scope.
Set Warnings "-register-all".

(* ================================================================== *)
(** * Bytes and decimal numbers *)

Definition byte_code (c : ascii) : N := N_of_ascii c.
Definition byte_of (n : N) : ascii := ascii_of_N n.

Definition is_space (c : ascii) : bool :=
  let n := byte_code c in
  (n =? 32)%N || (n =? 9)%N || (n =? 10)%N || (n =? 13)%N.

Definition is_digit (c : ascii) : bool :=
  let n := byte_code c in (48 <=? n)%N && (n <=? 57)%N.

Definition is_char (c : ascii) (n : N) : bool := (byte_code c =? n)%N.

(** The double quote, byte 34. *)
Definition dquote : ascii := byte_of 34.

(** Writes a JSON text with apostrophes where the JSON has double quotes:
    [dq "{'a':1}"] is the seven bytes of the JSON object with key a. *)
Fixpoint dq (s : string) : string :=
  match s with
  | EmptyString => EmptyString
  | String c r => String (if is_char c 39 then dquote else c) (dq r)
  end.

(** [strconv.Itoa]. *)
Definition itoa (z : Z) : string := NilZero.string_of_int (Z.to_int z).

Fixpoint digits_value (acc : Z) (s : string) : option Z :=
  match s with
  | EmptyString => Some acc
  | String c r =>
      if is_digit c
      then digits_value (10 * acc + Z.of_N (byte_code c - 48)) r
      else None
  end.

(** [strconv.ParseInt(s, 10, 64)]: an optional sign, at least one digit,
    nothing else, and the value in the range of int64. *)
Definition parseInt64 (s : string) : option Z :=
  let signed :=
    match s with
    | String c r =>
        if is_char c 45 then (true, r)
        else if is_char c 43 then (false, r)
        else (false, s)
    | EmptyString => (false, s)
    end in
  match snd signed with
  | EmptyString => None
  | ds =>
      match digits_value 0 ds with
      | Some n =>
          let v := if fst signed then (- n)%Z else n in
          if ((- 2 ^ 63 <=? v) && (v <=? 2 ^ 63 - 1))%Z then Some v else None
      | None => None
      end
  end.

Fixpoint strip_prefix (p s : string) : option string :=
  match p with
  | EmptyString => Some s
  | String a p' =>
      match s with
      | String b s' => if Ascii.eqb a b then strip_prefix p' s' else None
      | EmptyString => None
      end
  end.

(** [strings.HasPrefix]. *)
Definition HasPrefix (s p : string) : bool :=
  match strip_prefix p s with Some _ => true | None => false end.

(** [strings.Join]. *)
Fixpoint Join (l : list string) (sep : string) : string :=
  match l with
  | [] => EmptyString
  | [x] => x
  | x :: r => x ++ sep ++ Join r sep
  end.

(** Substring test, for titles that carry a text between decorations. *)
Fixpoint Contains (s sub : string) : bool :=
  HasPrefix s sub ||
  match s with
  | EmptyString => false
  | String _ r => Contains r sub
  end.

(* ================================================================== *)
(** * JSON texts, as [encoding/json] reads them *)

Module Json.

(** A number keeps its literal: the decoder converts it only when it
    knows the Go type it is stored into. *)
Inductive json : Type :=
| JNull
| JBool (b : bool)
| JNumber (lit : string)
| JString (s : string)
| JArray (items : list json)
| JObject (members : list (string * json)).

Fixpoint skip_space (s : string) : string :=
  match s with
  | String c r => if is_space c then skip_space r else s
  | EmptyString => s
  end.

(** ** Strings *)

Definition hex_value (c : ascii) : option N :=
  let n := byte_code c in
  if (48 <=? n)%N && (n <=? 57)%N then Some (n - 48)%N
  else if (97 <=? n)%N && (n <=? 102)%N then Some (n - 87)%N
  else if (65 <=? n)%N && (n <=? 70)%N then Some (n - 55)%N
  else None.

(** [getu4] on the four bytes after a backslash-u. *)
Definition getu4 (a b c d : ascii) : option N :=
  match hex_value a, hex_value b, hex_value c, hex_value d with
  | Some x, Some y, Some z, Some w => Some (((x * 16 + y) * 16 + z) * 16 + w)%N
  | _, _, _, _ => None
  end.

Definition bytes_of (l : list N) : string :=
  fold_right (fun n acc => String (byte_of n) acc) EmptyString l.

(** [utf8.EncodeRune]; a surrogate or a value past U+10FFFF is written
    as U+FFFD. *)
Definition encodeRune (r : N) : string :=
  if (r <? 128)%N then bytes_of [r]
  else if (r <? 2048)%N then bytes_of [192 + r / 64; 128 + r mod 64]%N
  else if ((55296 <=? r) && (r <=? 57343))%N || (1114111 <? r)%N
  then bytes_of [239; 191; 189]%N
  else if (r <? 65536)%N
  then bytes_of [224 + r / 4096; 128 + (r / 64) mod 64; 128 + r mod 64]%N
  else bytes_of [240 + r / 262144; 128 + (r / 4096) mod 64;
                 128 + (r / 64) mod 64; 128 + r mod 64]%N.

Definition replacementChar : string := encodeRune 65533.

Definition is_high_surrogate (r : N) : bool := ((55296 <=? r) && (r <=? 56319))%N.
Definition is_low_surrogate (r : N) : bool := ((56320 <=? r) && (r <=? 57343))%N.
Definition is_surrogate (r : N) : bool := ((55296 <=? r) && (r <=? 57343))%N.

(** [utf16.DecodeRune] on a valid pair. *)
Definition combine_surrogates (hi lo : N) : N :=
  ((hi - 55296) * 1024 + (lo - 56320) + 65536)%N.

Definition in_range (lo hi : N) (c : ascii) : bool :=
  let n := byte_code c in ((lo <=? n) && (n <=? hi))%N.

(** The number of bytes (2, 3 or 4) of the well-formed UTF-8 sequence that
    starts with the byte [c] at the head of [String c r], or 0 when
    [utf8.DecodeRune] answers RuneError with width 1. [c] is 128 or more. *)
Definition utf8_width (c : ascii) (r : string) : nat :=
  let n := byte_code c in
  let cont := in_range 128 191 in
  match r with
  | String b1 r1 =>
      if ((194 <=? n) && (n <=? 223))%N then (if cont b1 then 2 else 0)
      else
        match r1 with
        | String b2 r2 =>
            let second3 :=
              if (n =? 224)%N then in_range 160 191 b1
              else if (n =? 237)%N then in_range 128 159 b1
              else if ((225 <=? n) && (n <=? 239))%N then cont b1
              else false in
            if second3 then (if cont b2 then 3 else 0)
            else
              match r2 with
              | String b3 _ =>
                  let second4 :=
                    if (n =? 240)%N then in_range 144 191 b1
                    else if (n =? 244)%N then in_range 128 143 b1
                    else if ((241 <=? n) && (n <=? 243))%N then cont b1
                    else false in
                  if second4 && cont b2 && cont b3 then 4 else 0
              | EmptyString => 0
              end
        | EmptyString => 0
        end
  | EmptyString => 0
  end.

(** The body of a string literal, after its opening quote: the decoded
    bytes and the text after the closing quote. The scanner refuses
    control bytes and unknown escapes; [unquote] decodes the escapes,
    pairs surrogates and coerces what is not UTF-8 to U+FFFD. *)
Fixpoint parse_string_body (s : string) : option (string * string) :=
  let keep (pre : string) (k : option (string * string)) :=
    match k with
    | Some (body, rest) => Some (pre ++ body, rest)
    | None => None
    end in
  let one (c : ascii) := String c EmptyString in
  match s with
  | EmptyString => None
  | String c r =>
      if is_char c 34 then Some (EmptyString, r)
      else if is_char c 92 then
        match r with
        | EmptyString => None
        | String e r1 =>
            if is_char e 34 then keep (one dquote) (parse_string_body r1)
            else if is_char e 92 then keep (one e) (parse_string_body r1)
            else if is_char e 47 then keep (one e) (parse_string_body r1)
            else if is_char e 98 then keep (bytes_of [8%N]) (parse_string_body r1)
            else if is_char e 102 then keep (bytes_of [12%N]) (parse_string_body r1)
            else if is_char e 110 then keep (bytes_of [10%N]) (parse_string_body r1)
            else if is_char e 114 then keep (bytes_of [13%N]) (parse_string_body r1)
            else if is_char e 116 then keep (bytes_of [9%N]) (parse_string_body r1)
            else if is_char e 117 then
              match r1 with
              | String h1 (String h2 (String h3 (String h4 r2))) =>
                  match getu4 h1 h2 h3 h4 with
                  | None => None
                  | Some u =>
                      if is_surrogate u then
                        match r2 with
                        | String b (String v (String l1 (String l2
                            (String l3 (String l4 r3))))) =>
                            match getu4 l1 l2 l3 l4 with
                            | Some lo =>
                                if is_char b 92 && is_char v 117 &&
                                   is_high_surrogate u && is_low_surrogate lo
                                then keep (encodeRune (combine_surrogates u lo))
                                          (parse_string_body r3)
                                else keep replacementChar (parse_string_body r2)
                            | None => keep replacementChar (parse_string_body r2)
                            end
                        | _ => keep replacementChar (parse_string_body r2)
                        end
                      else keep (encodeRune u) (parse_string_body r2)
                  end
              | _ => None
              end
            else None
        end
      else if (byte_code c <? 32)%N then None
      else if (byte_code c <? 128)%N then keep (one c) (parse_string_body r)
      else
        match utf8_width c r, r with
        | 2%nat, String b1 r1 =>
            keep (String c (one b1)) (parse_string_body r1)
        | 3%nat, String b1 (String b2 r2) =>
            keep (String c (String b1 (one b2))) (parse_string_body r2)
        | 4%nat, String b1 (String b2 (String b3 r3)) =>
            keep (String c (String b1 (String b2 (one b3)))) (parse_string_body r3)
        | _, _ => keep replacementChar (parse_string_body r)
        end
  end.

(** ** Numbers *)

Fixpoint scan_digits (s : string) : string * string :=
  match s with
  | String c r =>
      if is_digit c then let (ds, rest) := scan_digits r in (String c ds, rest)
      else (EmptyString, s)
  | EmptyString => (EmptyString, s)
  end.

(** The literal of a number and the text after it:
    an optional minus, 0 or a digit string not starting with 0, an optional
    fraction, an optional exponent. *)
Definition parse_number (s : string) : option (string * string) :=
  let (sign, s1) :=
    match s with
    | String c r => if is_char c 45 then (String c EmptyString, r) else (EmptyString, s)
    | EmptyString => (EmptyString, s)
    end in
  match s1 with
  | EmptyString => None
  | String c r =>
      if negb (is_digit c) then None
      else
        let (int_part, s2) :=
          if is_char c 48 then (String c EmptyString, r)
          else let (ds, rest) := scan_digits r in (String c ds, rest) in
        let frac :=
          match s2 with
          | String d r2 =>
              if is_char d 46 then
                let (ds, rest) := scan_digits r2 in
                match ds with
                | EmptyString => None
                | _ => Some (String d ds, rest)
                end
              else Some (EmptyString, s2)
          | EmptyString => Some (EmptyString, s2)
          end in
        match frac with
        | None => None
        | Some (frac_part, s3) =>
            let expo :=
              match s3 with
              | String e r3 =>
                  if is_char e 101 || is_char e 69 then
                    let (esign, s4) :=
                      match r3 with
                      | String g r4 =>
                          if is_char g 43 || is_char g 45
                          then (String g EmptyString, r4)
                          else (EmptyString, r3)
                      | EmptyString => (EmptyString, r3)
                      end in
                    let (ds, rest) := scan_digits s4 in
                    match ds with
                    | EmptyString => None
                    | _ => Some (String e (esign ++ ds), rest)
                    end
                  else Some (EmptyString, s3)
              | EmptyString => Some (EmptyString, s3)
              end in
            match expo with
            | None => None
            | Some (exp_part, s5) =>
                Some (sign ++ int_part ++ frac_part ++ exp_part, s5)
            end
        end
  end.

(** ** Values *)

(** The scanner refuses a text nested deeper than this. *)
Definition maxNestingDepth : N := 10000.

(** One value at the head of the text, after optional white space, and the
    text after it. [depth] counts the objects and arrays open around it.
    The fuel bounds the recursion; [parse] gives enough of it. *)
Fixpoint parse_value (fuel : nat) (depth : N) (s : string) : option (json * string) :=
  match fuel with
  | O => None
  | S fuel' =>
      match skip_space s with
      | EmptyString => None
      | String c r =>
          if is_char c 123 then
            if (maxNestingDepth <? depth + 1)%N then None
            else
              match skip_space r with
              | EmptyString => None
              | String c1 r1 =>
                  if is_char c1 125 then Some (JObject [], r1)
                  else
                    match parse_members fuel' (depth + 1) (String c1 r1) with
                    | Some (kvs, rest) => Some (JObject kvs, rest)
                    | None => None
                    end
              end
          else if is_char c 91 then
            if (maxNestingDepth <? depth + 1)%N then None
            else
              match skip_space r with
              | EmptyString => None
              | String c1 r1 =>
                  if is_char c1 93 then Some (JArray [], r1)
                  else
                    match parse_elements fuel' (depth + 1) (String c1 r1) with
                    | Some (vs, rest) => Some (JArray vs, rest)
                    | None => None
                    end
              end
          else if is_char c 34 then
            match parse_string_body r with
            | Some (body, rest) => Some (JString body, rest)
            | None => None
            end
          else if is_char c 116 then
            match strip_prefix "rue" r with
            | Some rest => Some (JBool true, rest)
            | None => None
            end
          else if is_char c 102 then
            match strip_prefix "alse" r with
            | Some rest => Some (JBool false, rest)
            | None => None
            end
          else if is_char c 110 then
            match strip_prefix "ull" r with
            | Some rest => Some (JNull, rest)
            | None => None
            end
          else
            match parse_number (String c r) with
            | Some (lit, rest) => Some (JNumber lit, rest)
            | None => None
            end
      end
  end
with parse_members (fuel : nat) (depth : N) (s : string)
  : option (list (string * json) * string) :=
  match fuel with
  | O => None
  | S fuel' =>
      match skip_space s with
      | EmptyString => None
      | String c r =>
          if negb (is_char c 34) then None
          else
            match parse_string_body r with
            | None => None
            | Some (key, r1) =>
                match skip_space r1 with
                | EmptyString => None
                | String c2 r2 =>
                    if negb (is_char c2 58) then None
                    else
                      match parse_value fuel' depth r2 with
                      | None => None
                      | Some (v, r3) =>
                          match skip_space r3 with
                          | EmptyString => None
                          | String c4 r4 =>
                              if is_char c4 125 then Some ([(key, v)], r4)
                              else if is_char c4 44 then
                                match parse_members fuel' depth r4 with
                                | Some (kvs, rest) => Some ((key, v) :: kvs, rest)
                                | None => None
                                end
                              else None
                          end
                      end
                end
            end
      end
  end
with parse_elements (fuel : nat) (depth : N) (s : string)
  : option (list json * string) :=
  match fuel with
  | O => None
  | S fuel' =>
      match parse_value fuel' depth s with
      | None => None
      | Some (v, r1) =>
          match skip_space r1 with
          | EmptyString => None
          | String c r2 =>
              if is_char c 93 then Some ([v], r2)
              else if is_char c 44 then
                match parse_elements fuel' depth r2 with
                | Some (vs, rest) => Some (v :: vs, rest)
                | None => None
                end
              else None
          end
      end
  end.

(** A whole text: one value, white space around it, nothing else.
    [None] is the decoder's syntax error. *)
Definition parse (data : string) : option json :=
  match parse_value (2 * String.length data + 2) 0 data with
  | Some (v, rest) =>
      match skip_space rest with
      | EmptyString => Some v
      | String _ _ => None
      end
  | None => None
  end.

(** ** Storing a value into a Go variable

    A store gives the variable afterwards and whether the decoder saved
    an error: a value of the wrong kind leaves the variable as it was,
    is remembered as an UnmarshalTypeError, and decoding goes on. *)

Definition store_string (v : json) (old : string) : string * bool :=
  match v with
  | JString s => (s, false)
  | JNull => (old, false)
  | _ => (old, true)
  end.

Definition store_int (v : json) (old : Z) : Z * bool :=
  match v with
  | JNumber lit =>
      match parseInt64 lit with
      | Some n => (n, false)
      | None => (old, true)
      end
  | JNull => (old, false)
  | _ => (old, true)
  end.

(** A field of a struct: its JSON name (the tag) and how a value is
    stored into it. *)
Record field (T : Type) : Type := Field {
  field_name : string;
  field_store : json -> T -> T * bool
}.
Arguments Field {T} _ _.
Arguments field_name {T} _.
Arguments field_store {T} _ _ _.

(** The decoder's case folding of a key: ASCII letters to upper case,
    and the two letters outside ASCII whose fold is an ASCII letter,
    U+017F (long s) and U+212A (Kelvin sign). Other bytes are kept: they
    never fold into the ASCII names the structs of this program have. *)
Fixpoint foldName (s : string) : string :=
  match s with
  | EmptyString => EmptyString
  | String c r =>
      let n := byte_code c in
      if ((97 <=? n) && (n <=? 122))%N then String (byte_of (n - 32)) (foldName r)
      else
        match r with
        | String c1 r1 =>
            if (n =? 197)%N && is_char c1 191 then String (byte_of 83) (foldName r1)
            else
              match r1 with
              | String c2 r2 =>
                  if (n =? 226)%N && is_char c1 132 && is_char c2 170
                  then String (byte_of 75) (foldName r2)
                  else String c (foldName r)
              | EmptyString => String c (foldName r)
              end
        | EmptyString => String c (foldName r)
        end
  end.

(** The field a key names: the one with exactly that name, else the
    first one equal to it under case folding. *)
Definition find_field {T} (fields : list (field T)) (key : string) : option (field T) :=
  match find (fun f => String.eqb (field_name f) key) fields with
  | Some f => Some f
  | None => find (fun f => String.eqb (foldName (field_name f)) (foldName key)) fields
  end.

Definition store_member {T} (fields : list (field T))
    (acc : T * bool) (kv : string * json) : T * bool :=
  match find_field fields (fst kv) with
  | Some f =>
      let (x, e) := field_store f (snd kv) (fst acc) in (x, snd acc || e)
  | None => acc
  end.

(** A value into a struct: the members of an object in their order (a
    repeated key is stored again), null is a no-op, anything else is a
    type error that stores nothing. *)
Definition store_struct {T} (fields : list (field T)) (v : json) (x : T) : T * bool :=
  match v with
  | JObject kvs => fold_left (store_member fields) kvs (x, false)
  | JNull => (x, false)
  | _ => (x, true)
  end.

(** A value into a pointer to a struct: null makes the pointer nil; for
    anything else the decoder allocates the struct before it looks at the
    kind of the value, so the pointer is not nil afterwards even when
    the value is not an object. *)
Definition store_ptr {T} (fields : list (field T)) (zero : T)
    (v : json) (p : option T) : option T * bool :=
  match v with
  | JNull => (None, false)
  | _ => let (x, e) := store_struct fields v (default zero p) in (Some x, e)
  end.

(** A value into a [map[string]json.RawMessage]: each member of an
    object is kept undecoded under its key, the last one of a repeated
    key wins; null leaves the map nil and is no error. A RawMessage is
    held here as the value it spells, which is what decoding it again
    gives; its bytes are the four bytes null exactly when it is [JNull]. *)
Definition store_map (v : json) : gmap string json * bool :=
  match v with
  | JObject kvs => (fold_left (fun m kv => <[fst kv := snd kv]> m) kvs ∅, false)
  | JNull => (∅, false)
  | _ => (∅, true)
  end.

Definition is_null (v : json) : bool :=
  match v with JNull => true | _ => false end.

(** [json.Unmarshal(data, &x)] for a struct [x]: a text that is not JSON
    is an error and stores nothing. *)
Definition Unmarshal {T} (fields : list (field T)) (data : string) (x : T) : T * bool :=
  match parse data with
  | Some v => store_struct fields v x
  | None => (x, true)
  end.

(** [json.Unmarshal(data, &m)] for a nil [map[string]json.RawMessage]. *)
Definition UnmarshalMap (data : string) : gmap string json * bool :=
  match parse data with
  | Some v => store_map v
  | None => (∅, true)
  end.

End Json.

(* ================================================================== *)
(** * Paths *)

(** The elements of a path: the texts between its separators. *)
Fixpoint splitPath (s : string) : list string :=
  match s with
  | EmptyString => [EmptyString]
  | String c r =>
      if is_char c 47 then EmptyString :: splitPath r
      else
        match splitPath r with
        | e :: es => String c e :: es
        | [] => [String c EmptyString]
        end
  end.

(** One element met by [filepath.Clean], with the elements kept so far,
    the last one first: an empty element and a dot are dropped; two
    dots take the element before them away, are kept when there is
    none to take and the path is not rooted, and are dropped at the
    root. *)
Definition cleanStep (rooted : bool) (kept : list string) (e : string) : list string :=
  if String.eqb e EmptyString || String.eqb e "." then kept
  else if String.eqb e ".." then
    match kept with
    | top :: below => if String.eqb top ".." then e :: kept else below
    | [] => if rooted then [] else [e]
    end
  else e :: kept.

(** [filepath.Clean] where the separator is the slash. *)
Definition Clean (path : string) : string :=
  match path with
  | EmptyString => "."
  | String c _ =>
      let rooted := is_char c 47 in
      let body := Join (rev (fold_left (cleanStep rooted) (splitPath path) [])) "/" in
      if rooted then "/" ++ body
      else match body with EmptyString => "." | _ => body end
  end.

(** [filepath.Join] of two elements: the first element that is not
    empty and what follows it, with a separator between, cleaned. *)
Definition filepathJoin (a b : string) : string :=
  match a, b with
  | EmptyString, EmptyString => EmptyString
  | EmptyString, _ => Clean b
  | _, _ => Clean (a ++ "/" ++ b)
  end.
Arguments Clean : simpl never.
Arguments filepathJoin : simpl never.

(* ================================================================== *)
(** * Types of both programs *)

(** What the programs take from the Go runtime without computing it here:
    64-bit floats and instants, and how they are printed. *)
Class Platform : Type := {
  float64 : Type;
  Time : Type;
  (** [t.Format(time.RFC3339)] *)
  formatRFC3339 : Time -> string;
  (** [t.In(loc).Format(...)] with loc America/New_York and the layout
      of the Reported field *)
  formatReported : Time -> string;
  (** the verb [%.6f] *)
  format6 : float64 -> string;
  (** [t.Format] with the layout 20060102150405 *)
  formatStamp : Time -> string;
  (** [t.UTC()] *)
  UTC : Time -> Time;
  (** the zero value of [time.Time] *)
  zeroTime : Time;
  (** [os.TempDir()] *)
  TempDir : string
}.

Inductive Result (A : Type) : Type :=
| Ok (a : A)
| Err (msg : string).
Arguments Ok {A} _.
Arguments Err {A} _.

Definition is_ok {A} (r : Result A) : bool :=
  match r with Ok _ => true | Err _ => false end.

Record Camera : Type := { Name : string; ImageURL : string }.

(** What the job reads of an [http.Response]: the code and the status
    line, as 404 and [404 Not Found]. *)
Record Response : Type := { StatusCode : Z; Status : string }.

Record EmbedThumbnail : Type := { ThumbnailURL : string }.
Record EmbedImage : Type := { ImageURL_ : string }.
Record EmbedField : Type := { FName : string; FValue : string; Inline : bool }.
Record EmbedFooter : Type := { Text : string }.

(** [UnifiedIncident]; a [sql.NullFloat64] or [sql.NullString] is an
    option, [None] for the value that is not Valid. *)
Record UnifiedIncident `{Platform} : Type := {
  ID : Z;
  Source : string;
  SourceID : string;
  EventType : string;
  Address : string;
  Latitude : option float64;
  Longitude : option float64;
  Timestamp : Time;
  Details : string;
  DiscordMessageID : option string
}.

(** The anonymous structs the details are decoded into. *)
Record NcdotDetails : Type := {
  Reason : string; Road : string; Location : string; Severity : Z
}.
Record RweccDetails : Type := { Problem : string; Jurisdiction : string }.
Record ArcGisDetails : Type := {
  CaseNumber : string; CrimeDescription : string; Agency : string
}.
Record WeatherDetails : Type := {
  Temperature : Z; WindSpeed : string; ShortForecast : string; Icon : string
}.

Definition zeroNcdot : NcdotDetails :=
  {| Reason := EmptyString; Road := EmptyString; Location := EmptyString; Severity := 0 |}.
Definition zeroRwecc : RweccDetails :=
  {| Problem := EmptyString; Jurisdiction := EmptyString |}.
Definition zeroArcGis : ArcGisDetails :=
  {| CaseNumber := EmptyString; CrimeDescription := EmptyString; Agency := EmptyString |}.
Definition zeroWeather : WeatherDetails :=
  {| Temperature := 0; WindSpeed := EmptyString; ShortForecast := EmptyString;
     Icon := EmptyString |}.

Import Json.

Definition into {T A} (store : json -> A -> A * bool) (get : T -> A) (set : T -> A -> T)
    (v : json) (x : T) : T * bool :=
  let (a, e) := store v (get x) in (set x a, e).

Definition ncdotFields : list (field NcdotDetails) :=
  [ Field "reason" (into store_string Reason (fun x a =>
      {| Reason := a; Road := Road x; Location := Location x; Severity := Severity x |}));
    Field "road" (into store_string Road (fun x a =>
      {| Reason := Reason x; Road := a; Location := Location x; Severity := Severity x |}));
    Field "location" (into store_string Location (fun x a =>
      {| Reason := Reason x; Road := Road x; Location := a; Severity := Severity x |}));
    Field "severity" (into store_int Severity (fun x a =>
      {| Reason := Reason x; Road := Road x; Location := Location x; Severity := a |})) ].

Definition rweccFields : list (field RweccDetails) :=
  [ Field "problem" (into store_string Problem (fun x a =>
      {| Problem := a; Jurisdiction := Jurisdiction x |}));
    Field "jurisdiction" (into store_string Jurisdiction (fun x a =>
      {| Problem := Problem x; Jurisdiction := a |})) ].

Definition arcGisFields : list (field ArcGisDetails) :=
  [ Field "case_number" (into store_string CaseNumber (fun x a =>
      {| CaseNumber := a; CrimeDescription := CrimeDescription x; Agency := Agency x |}));
    Field "crime_description" (into store_string CrimeDescription (fun x a =>
      {| CaseNumber := CaseNumber x; CrimeDescription := a; Agency := Agency x |}));
    Field "agency" (into store_string Agency (fun x a =>
      {| CaseNumber := CaseNumber x; CrimeDescription := CrimeDescription x; Agency := a |})) ].

Definition weatherFields : list (field WeatherDetails) :=
  [ Field "temperature" (into store_int Temperature (fun x a =>
      {| Temperature := a; WindSpeed := WindSpeed x;
         ShortForecast := ShortForecast x; Icon := Icon x |}));
    Field "windSpeed" (into store_string WindSpeed (fun x a =>
      {| Temperature := Temperature x; WindSpeed := a;
         ShortForecast := ShortForecast x; Icon := Icon x |}));
    Field "shortForecast" (into store_string ShortForecast (fun x a =>
      {| Temperature := Temperature x; WindSpeed := WindSpeed x;
         ShortForecast := a; Icon := Icon x |}));
    Field "icon" (into store_string Icon (fun x a =>
      {| Temperature := Temperature x; WindSpeed := WindSpeed x;
         ShortForecast := ShortForecast x; Icon := a |})) ].

(** The severity colours of an NC DOT alert. *)
Definition severityColor (severity : Z) : Z :=
  if (severity =? 1)%Z then 3066993
  else if (severity =? 2)%Z then 16776960
  else if (severity =? 3)%Z then 15158332
  else 2105893.

Definition nl : string := String (byte_of 10) EmptyString.

(** [fmt.Sprintf] of the weather line. *)
Definition weatherValue (w : WeatherDetails) : string :=
  ShortForecast w ++ nl ++ "Temp: " ++ itoa (Temperature w) ++ "°F" ++ nl
  ++ "Wind: " ++ WindSpeed w.

(** [fmt.Sprintf] of one camera as a markdown link. *)
Definition cameraLink (cam : Camera) : string :=
  "[" ++ Name cam ++ "](" ++ ImageURL cam ++ ")".

(** [fmt.Sprintf] of the static map address. *)
Definition staticMapURL `{Platform} (zoom size marker : string)
    (lat lon : float64) (mapsAPIKey : string) : string :=
  "https://maps.googleapis.com/maps/api/staticmap?center=" ++ format6 lat ++ ","
  ++ format6 lon ++ "&zoom=" ++ zoom ++ "&size=" ++ size ++ "&markers=color:"
  ++ marker ++ "%7C" ++ format6 lat ++ "," ++ format6 lon ++ "&key=" ++ mapsAPIKey.

(* ================================================================== *)
(** * The world the job runs in *)

(** The statements the job executes on the store. *)
Inductive Stmt : Type :=
| SetMessageID (id : Z) (messageID : string)
| ClearMessageID (id : Z)
| InsertCapture (incidentID : Z) (cameraName filePath : string).

(** A row of [unified_incidents]: the columns of an incident and its
    status, which the ingester writes. Every column holds a value of
    the type the programs scan it into, so [rows.Scan] does not fail on
    a row and no turn of a loop is skipped for that. *)
Record Row `{Platform} : Type := { incident : UnifiedIncident; status : string }.

Definition with_message_id `{Platform} (r : Row) (m : option string) : Row :=
  let i := incident r in
  {| incident :=
       {| ID := ID i; Source := Source i; SourceID := SourceID i;
          EventType := EventType i; Address := Address i;
          Latitude := Latitude i; Longitude := Longitude i;
          Timestamp := Timestamp i; Details := Details i;
          DiscordMessageID := m |};
     status := status r |}.

(** What a statement that succeeds does to the incidents table. *)
Definition apply_stmt `{Platform} (s : Stmt) (rows : list Row) : list Row :=
  match s with
  | SetMessageID id m =>
      map (fun r => if (ID (incident r) =? id)%Z then with_message_id r (Some m) else r) rows
  | ClearMessageID id =>
      map (fun r => if (ID (incident r) =? id)%Z then with_message_id r None else r) rows
  | InsertCapture _ _ _ => rows
  end.

(** A state monad over the world. *)
Definition M (W A : Type) : Type := W -> A * W.
Definition ret {W A} (a : A) : M W A := fun w => (a, w).
Definition bind {W A B} (m : M W A) (k : A -> M W B) : M W B :=
  fun w => let r := m w in k (fst r) (snd r).

Notation "'let*' x ':=' m 'in' k" := (bind m (fun x => k))
  (at level 10, x name, m at level 99, k at level 200, only parsing).
Notation "m ;;; k" := (bind m (fun _ => k))
  (at level 100, k at level 200, only parsing, right associativity).

Section World.
Context `{Platform} {Payload : Type}.

(** What the job did to the outside, oldest first, each call with its
    answer. A log line is recorded by the text of its format; an error
    carries its message. [ESend] closes one call of [sendDiscordAlert]
    and [EEdit] is one call of [updateDiscordAlert], each for the
    incident with that id. *)
Inductive Event : Type :=
| ELog (line : string)
| EFindCameras (lat lon : float64) (limit : Z) (r : Result (list Camera))
| EHttpGet (url : string) (r : Result Response)
| ECreate (path : string) (r : Result unit)
| ECopy (path : string) (r : Result unit)
| ERemove (path : string)
| EPost (url : string) (payload : Payload) (attachmentPath : string) (r : Result string)
| ESend (incidentID : Z) (r : Result string)
| EEdit (incidentID : Z) (url : string) (payload : Payload) (r : Result unit)
| EExec (stmt : Stmt) (r : Result unit)
| ESaveState (sentIDs : gmap Z bool) (r : Result unit)
| ESleep.

(** The collaborators: each answers a request knowing all that went
    before. *)
Record Env : Type := {
  (** the cameras in the order of [geom <-> point] *)
  cameras_by_distance : list Event -> float64 -> float64 -> Result (list Camera);
  (** [http.Get]: the response, or the error of the transport *)
  http_get : list Event -> string -> Result Response;
  create_file : list Event -> string -> Result unit;
  copy_body : list Event -> string -> Result unit;
  (** the webhook, from building the request to decoding the answer *)
  post_webhook : list Event -> string -> Payload -> string -> Result string;
  patch_webhook : list Event -> string -> Payload -> Result unit;
  (** [db.Exec] *)
  exec_stmt : list Event -> Stmt -> Result unit;
  (** [os.ReadFile] of the state file: [Ok None] when it does not exist *)
  read_state : list Event -> Result (option string);
  (** [os.WriteFile] of the state file *)
  write_state : list Event -> gmap Z bool -> Result unit;
  (** [time.Now()] *)
  clock : list Event -> Time;
  (** [db.Query]: whether the store answers the SELECT with this text *)
  query_rows : list Event -> string -> Result unit
}.

Record World : Type := { store : list Row; trace : list Event }.

Definition emit (e : Event) : M World unit :=
  fun w => (tt, {| store := store w; trace := trace w ++ [e] |}).

Definition log (line : string) : M World unit := emit (ELog line).

(** Asks a collaborator and records the call with its answer. *)
Definition call {A} (oracle : list Event -> A) (ev : A -> Event) : M World A :=
  fun w =>
    let a := oracle (trace w) in
    (a, {| store := store w; trace := trace w ++ [ev a] |}).

Definition now (env : Env) : M World Time :=
  fun w => (clock env (trace w), w).

(** [db.Exec]: the table changes when the store accepts the statement. *)
Definition exec (env : Env) (s : Stmt) : M World (Result unit) :=
  fun w =>
    let r := exec_stmt env (trace w) s in
    (r, {| store := if is_ok r then apply_stmt s (store w) else store w;
           trace := trace w ++ [EExec s r] |}).

Definition query {A} (q : list Row -> A) : M World A :=
  fun w => (q (store w), w).

(** [db.Query] as far as it can fail: the store is asked for the rows
    of a SELECT and answers or refuses. *)
Definition asks (env : Env) (sql : string) : M World (Result unit) :=
  fun w => (query_rows env (trace w) sql, w).

(** Running [m] from [w] gives [a], appends [evs] to the trace and
    leaves the table as [st]. *)
Definition runs {A} (m : M World A) (w : World) (a : A) (evs : list Event)
    (st : list Row) : Prop :=
  m w = (a, {| store := st; trace := (trace w ++ evs)%list |}).

(** [m] runs from [w], and [Q] holds of what it gives. *)
Definition post {A} (m : M World A) (w : World)
    (Q : A -> list Event -> list Row -> Prop) : Prop :=
  exists a evs st, runs m w a evs st /\ Q a evs st.

(** [findNearbyCameras]: the nearest [limit] cameras. *)
Definition findNearbyCameras (env : Env) (lat lon : float64) (limit : Z)
    : M World (Result (list Camera)) :=
  call (fun tr =>
          match cameras_by_distance env tr lat lon with
          | Ok cams => Ok (take (Z.to_nat limit) cams)
          | Err e => Err ("error querying for nearby cameras: " ++ e)
          end)
       (EFindCameras lat lon limit).

End World.

Arguments Event {_} _.
Arguments Env {_} _.
Arguments World {_} _.

Definition nonempty (s : string) : bool := negb (String.eqb s EmptyString).

Definition is_Some_b {A} (o : option A) : bool :=
  match o with Some _ => true | None => false end.

(** What the job is configured with. *)
Record Config : Type := {
  webhookURL : string;
  mapsAPIKey : string;
  (** the variable NOTIFY_DISCORD; it exists in the later program only *)
  notifyDiscord : string
}.

(** How a run ends: [log.Fatal], a panic of the runtime, or the two
    counters it logs. *)
Inductive Outcome : Type :=
| Fatal (msg : string)
| Completed (newIncidentsFound clearedIncidentsUpdated : Z)
| Panicked (msg : string).

(* ================================================================== *)
(** * Reading payloads and traces *)

(** The value of the first field with the given name. *)
Definition fieldValue (name : string) (fields : list EmbedField) : option string :=
  FValue <$> find (fun f => String.eqb (FName f) name) fields.

Definition hasField (name : string) (fields : list EmbedField) : bool :=
  is_Some_b (fieldValue name fields).

(** The first four fields of an NC DOT alert. *)
Definition ncdotBaseFields (d : NcdotDetails) : list EmbedField :=
  [ {| FName := "Reason"; FValue := Reason d; Inline := false |};
    {| FName := "Road"; FValue := Road d; Inline := false |};
    {| FName := "Location"; FValue := Location d; Inline := false |};
    {| FName := "Severity"; FValue := itoa (Severity d); Inline := false |} ].

Definition weatherFieldsOf (w : option WeatherDetails) : list EmbedField :=
  match w with
  | Some x => [ {| FName := "Weather Conditions"; FValue := weatherValue x; Inline := false |} ]
  | None => []
  end.

(** The field of the later program that links the cameras after the
    nearest one. *)
Definition otherCamerasField (cams : list Camera) : list EmbedField :=
  if (1 <? length cams)%nat then
    [ {| FName := "Other Live Cameras";
         FValue := Join (map cameraLink (drop 1 cams)) nl; Inline := false |} ]
  else [].

(** The field of the earlier program that links all the cameras. *)
Definition nearbyCamerasField (cams : list Camera) : list EmbedField :=
  if (0 <? length cams)%nat then
    [ {| FName := "Nearby Cameras";
         FValue := Join (map cameraLink cams) nl; Inline := false |} ]
  else [].

Section Reading.
Context `{Platform} {Payload : Type}.

(** The calls of [sendDiscordAlert] in a trace: the incident ids. *)
Definition sendIDs (tr : list (Event Payload)) : list Z :=
  omap (fun e => match e with ESend id _ => Some id | _ => None end) tr.

(** The calls of [updateDiscordAlert] in a trace. *)
Definition editIDs (tr : list (Event Payload)) : list Z :=
  omap (fun e => match e with EEdit id _ _ _ => Some id | _ => None end) tr.

(** The payloads posted to the webhook, each with its attachment. *)
Definition posts (tr : list (Event Payload)) : list (Payload * string) :=
  omap (fun e => match e with EPost _ p a _ => Some (p, a) | _ => None end) tr.

(** The requests to the camera directory: the point and the limit. *)
Definition cameraRequests (tr : list (Event Payload)) : list (float64 * float64 * Z) :=
  omap (fun e => match e with EFindCameras lat lon n _ => Some (lat, lon, n) | _ => None end) tr.

(** The camera frames asked for, by address. *)
Definition frameRequests (tr : list (Event Payload)) : list string :=
  omap (fun e => match e with EHttpGet url _ => Some url | _ => None end) tr.

(** What a turn of a loop may do besides sending or editing: anything
    but close a send, edit a message or write a message id. *)
Definition inner (e : Event Payload) : Prop :=
  match e with
  | ESend _ _ | EEdit _ _ _ _ => False
  | EExec (SetMessageID _ _) _ | EExec (ClearMessageID _) _ => False
  | _ => True
  end.

(** The message id the store holds for the incident [id]: [None] when
    no row has the id, [Some None] for NULL. *)
Definition messageIDOf (rows : list Row) (id : Z) : option (option string) :=
  (fun r => DiscordMessageID (incident r))
    <$> find (fun r => (ID (incident r) =? id)%Z) rows.

Definition rowID (r : Row) : Z := ID (incident r).

(** The cameras the directory gives for the incident when it is asked
    after the trace [tr]: at most three, none without both coordinates
    or without an answer. *)
Definition camerasFound (env : Env Payload) (i : UnifiedIncident)
    (tr : list (Event Payload)) : list Camera :=
  match Latitude i, Longitude i with
  | Some lat, Some lon =>
      match cameras_by_distance env tr lat lon with
      | Ok cams => take 3 cams
      | Err _ => []
      end
  | _, _ => []
  end.

(** The one request a send makes to the directory, when the incident
    has both coordinates. *)
Definition requestFor (i : UnifiedIncident) : list (float64 * float64 * Z) :=
  match Latitude i, Longitude i with
  | Some lat, Some lon => [(lat, lon, 3%Z)]
  | _, _ => []
  end.

(** ** Summaries of the two loops

    One turn of the first loop that sends for the incident [id]: what
    the send does aside, the closing of the send, and after an answer,
    which is the answer of a post to the webhook, the one statement
    that writes the message id. *)
Definition notifiedOne (id : Z) (st : list Row) (evs : list (Event Payload))
    (st' : list Row) : Prop :=
  exists evs0 r tail,
    evs = (evs0 ++ ESend id r :: tail)%list /\ Forall inner evs0 /\
    match r with
    | Err _ => Forall inner tail /\ st' = st
    | Ok m =>
        (exists url p a, In (EPost url p a (Ok m)) evs0)
        /\ exists x rest,
             tail = EExec (SetMessageID id m) x :: rest /\ Forall inner rest
             /\ st' = if is_ok x then apply_stmt (SetMessageID id m) st else st
    end.

(** The first loop over the incidents with the ids [ids], and what
    follows it aside. *)
Inductive notifiedAll : list Z -> list Row -> list (Event Payload) -> list Row -> Prop :=
| notified_nil st evs : Forall inner evs -> notifiedAll [] st evs st
| notified_cons id ids st evs st1 evs' st2 :
    notifiedOne id st evs st1 ->
    notifiedAll ids st1 evs' st2 ->
    notifiedAll (id :: ids) st (evs ++ evs')%list st2.

(** One turn of the second loop, for the row [X] of the second query,
    after the trace [tr]: the edit carries the payload [mk X t] for the
    instant [t] the clock shows when the edit is made, and after an
    answer the one statement that clears the message id follows. *)
Definition editedOne (env : Env Payload) (mk : UnifiedIncident -> Time -> Payload)
    (hook : string) (X : UnifiedIncident) (tr : list (Event Payload))
    (st : list Row) (evs : list (Event Payload)) (st' : list Row) : Prop :=
  exists evs0 tail,
    let url := hook ++ "/messages/" ++ default EmptyString (DiscordMessageID X) in
    let p := mk X (clock env (tr ++ evs0)%list) in
    let r := patch_webhook env (tr ++ evs0)%list url p in
    evs = (evs0 ++ EEdit (ID X) url p r :: tail)%list /\ Forall inner evs0 /\
    match r with
    | Err _ => Forall inner tail /\ st' = st
    | Ok _ =>
        exists x rest,
          tail = EExec (ClearMessageID (ID X)) x :: rest /\ Forall inner rest
          /\ st' = if is_ok x then apply_stmt (ClearMessageID (ID X)) st else st
    end.

Inductive editedAll (env : Env Payload) (mk : UnifiedIncident -> Time -> Payload)
    (hook : string)
  : list UnifiedIncident -> list (Event Payload) -> list Row
    -> list (Event Payload) -> list Row -> Prop :=
| edited_nil tr st evs : Forall inner evs -> editedAll env mk hook [] tr st evs st
| edited_cons X rows tr st evs st1 evs' st2 :
    editedOne env mk hook X tr st evs st1 ->
    editedAll env mk hook rows (tr ++ evs)%list st1 evs' st2 ->
    editedAll env mk hook (X :: rows) tr st (evs ++ evs')%list st2.

(** Every edit among the events [evs] that follow the trace [tr] is
    the edit of one of the rows [rows]: its address names the message
    of the row, its payload is [mk] of the row at the instant the clock
    shows just before it, and its answer is the webhook's. *)
Fixpoint editsFrom (env : Env Payload) (mk : UnifiedIncident -> Time -> Payload)
    (hook : string) (rows : list UnifiedIncident)
    (tr evs : list (Event Payload)) : Prop :=
  match evs with
  | [] => True
  | e :: rest =>
      match e with
      | EEdit id url p r =>
          exists X,
            In X rows /\ id = ID X
            /\ url = hook ++ "/messages/" ++ default EmptyString (DiscordMessageID X)
            /\ p = mk X (clock env tr)
            /\ r = patch_webhook env tr url p
      | _ => True
      end
      /\ editsFrom env mk hook rows (tr ++ [e])%list rest
  end.

(** Among the events [evs] that follow the trace [tr], an edit the
    webhook accepted is followed at once by the statement that clears
    the message id of its incident, with the answer the store gives to
    it then. *)
Fixpoint clearsFollow (env : Env Payload) (tr evs : list (Event Payload)) : Prop :=
  match evs with
  | [] => True
  | e :: rest =>
      match e with
      | EEdit id _ _ (Ok _) =>
          exists rest',
            rest = EExec (ClearMessageID id)
                         (exec_stmt env (tr ++ [e])%list (ClearMessageID id)) :: rest'
      | _ => True
      end
      /\ clearsFollow env (tr ++ [e])%list rest
  end.

(** ** More readings of a trace *)

(** The sends that returned a message id: the incident and the id. *)
Definition delivered (tr : list (Event Payload)) : list (Z * string) :=
  omap (fun e => match e with ESend id (Ok m) => Some (id, m) | _ => None end) tr.

(** The edits the webhook accepted. *)
Definition accepted (tr : list (Event Payload)) : list Z :=
  omap (fun e => match e with EEdit id _ _ (Ok _) => Some id | _ => None end) tr.

(** The pauses after an incident that was processed. *)
Definition sleeps (tr : list (Event Payload)) : list unit :=
  omap (fun e => match e with ESleep => Some tt | _ => None end) tr.

(** The files that were created, and the files that were removed. *)
Definition filesCreated (tr : list (Event Payload)) : list string :=
  omap (fun e => match e with ECreate path (Ok _) => Some path | _ => None end) tr.

Definition filesRemoved (tr : list (Event Payload)) : list string :=
  omap (fun e => match e with ERemove path => Some path | _ => None end) tr.

(** The statements sent to the store, each with its answer. *)
Definition statements (tr : list (Event Payload)) : list (Stmt * Result unit) :=
  omap (fun e => match e with EExec s r => Some (s, r) | _ => None end) tr.

(** The writes of the state file, each with its answer. *)
Definition saves (tr : list (Event Payload)) : list (gmap Z bool * Result unit) :=
  omap (fun e => match e with ESaveState m r => Some (m, r) | _ => None end) tr.

(** The lines logged. *)
Definition logLines (tr : list (Event Payload)) : list string :=
  omap (fun e => match e with ELog l => Some l | _ => None end) tr.

End Reading.

(* ================================================================== *)
(** * The later program *)

Module Later.

Record DiscordEmbed : Type := {
  Title : string;
  Color : Z;
  Fields : list EmbedField;
  Footer : EmbedFooter;
  ETimestamp : string;
  Thumbnail : EmbedThumbnail;
  Image : EmbedImage
}.

Record DiscordWebhookPayload : Type := {
  Username : string;
  AvatarURL : string;
  Embeds : list DiscordEmbed
}.

Definition with_thumbnail (e : DiscordEmbed) (url : string) : DiscordEmbed :=
  {| Title := Title e; Color := Color e; Fields := Fields e; Footer := Footer e;
     ETimestamp := ETimestamp e; Thumbnail := {| ThumbnailURL := url |};
     Image := Image e |}.

Definition with_image (e : DiscordEmbed) (url : string) : DiscordEmbed :=
  {| Title := Title e; Color := Color e; Fields := Fields e; Footer := Footer e;
     ETimestamp := ETimestamp e; Thumbnail := Thumbnail e;
     Image := {| ImageURL_ := url |} |}.

Definition fallbackLog (source : string) : string :=
  "INFO: Could not parse as new format, falling back to old format for "
  ++ source ++ " incident.".

(** The decoding both [buildNcdotPayload] and [buildRweccPayload] open
    with, for the struct with the fields [fields]: the incident fields,
    the weather pointer and the lines logged. The new shape is tried
    first; the old one only when the details are no map. *)
Definition decodeDetails {T} (fields : list (field T)) (zero : T) (source : string)
    (details : string) : T * option WeatherDetails * list string :=
  let detailsMap := UnmarshalMap details in
  if negb (snd detailsMap) then
    (match fst detailsMap !! "raw_incident" with
     | Some rawJSON => fst (store_struct fields rawJSON zero)
     | None => zero
     end,
     match fst detailsMap !! "weather" with
     | Some weatherJSON =>
         if negb (is_null weatherJSON)
         then fst (store_ptr weatherFields zeroWeather weatherJSON None)
         else None
     | None => None
     end,
     [])
  else
    (fst (Unmarshal fields details zero), None, [fallbackLog source]).

(** The decoding [buildArcGisPayload] opens with, after its debug line:
    no weather, and the two failures are logged. *)
Definition decodeArcGisDetails (details : string) : ArcGisDetails * list string :=
  let detailsMap := UnmarshalMap details in
  if negb (snd detailsMap) then
    match fst detailsMap !! "raw_incident" with
    | Some rawJSON =>
        let r := store_struct arcGisFields rawJSON zeroArcGis in
        (fst r,
         if snd r
         then ["ERROR: Failed to unmarshal nested ArcGIS raw_incident: %v"]
         else [])
    | None => (zeroArcGis, [])
    end
  else
    let r := Unmarshal arcGisFields details zeroArcGis in
    (fst r,
     fallbackLog "ArcGIS" ::
     if snd r
     then ["ERROR: Failed to unmarshal ArcGIS details in both new and old formats: %v"]
     else []).

Section Builders.
Context `{Platform}.

(** [buildNcdotPayload]: the payload and the lines it logs. *)
Definition buildNcdotPayload (mapsAPIKey : string) (incident : UnifiedIncident)
    (nearbyCameras : list Camera) (attachmentName : string)
    : DiscordWebhookPayload * list string :=
  let decoded := decodeDetails ncdotFields zeroNcdot "NCDOT" (Details incident) in
  let rawIncident := fst (fst decoded) in
  let weatherDetails := snd (fst decoded) in
  let logs := snd decoded in
  let color := severityColor (Severity rawIncident) in
  let fields :=
    [ {| FName := "Reason"; FValue := Reason rawIncident; Inline := false |};
      {| FName := "Road"; FValue := Road rawIncident; Inline := false |};
      {| FName := "Location"; FValue := Location rawIncident; Inline := false |};
      {| FName := "Severity"; FValue := itoa (Severity rawIncident); Inline := false |} ] in
  let fields :=
    match weatherDetails with
    | Some w =>
        (fields ++ [ {| FName := "Weather Conditions"; FValue := weatherValue w;
                        Inline := false |} ])%list
    | None => fields
    end in
  let fields :=
    if (1 <? length nearbyCameras)%nat then
      (fields ++ [ {| FName := "Other Live Cameras";
                      FValue := Join (map cameraLink (drop 1 nearbyCameras)) nl;
                      Inline := false |} ])%list
    else fields in
  let embed :=
    {| Title := "🚨 NC DOT - Incident Alert 🚨"; Color := color; Fields := fields;
       Footer := {| Text := "Source: NC DOT API" |};
       ETimestamp := formatRFC3339 (Timestamp incident);
       Thumbnail := {| ThumbnailURL := EmptyString |};
       Image := {| ImageURL_ := EmptyString |} |} in
  let embed :=
    match Latitude incident, Longitude incident with
    | Some lat, Some lon =>
        if nonempty mapsAPIKey
        then with_thumbnail embed (staticMapURL "14" "300x300" "red" lat lon mapsAPIKey)
        else embed
    | _, _ => embed
    end in
  let embed :=
    if nonempty attachmentName
    then with_image embed ("attachment://" ++ attachmentName)
    else embed in
  ({| Username := "Unified Alert Bot"; AvatarURL := EmptyString; Embeds := [embed] |},
   logs).

(** [buildRweccPayload]. *)
Definition buildRweccPayload (mapsAPIKey : string) (incident : UnifiedIncident)
    (nearbyCameras : list Camera) (attachmentName : string)
    : DiscordWebhookPayload * list string :=
  let decoded := decodeDetails rweccFields zeroRwecc "RWECC" (Details incident) in
  let rawIncident := fst (fst decoded) in
  let weatherDetails := snd (fst decoded) in
  let logs := snd decoded in
  let fields :=
    [ {| FName := "Address"; FValue := Address incident; Inline := false |};
      {| FName := "Jurisdiction"; FValue := Jurisdiction rawIncident; Inline := false |} ] in
  let fields :=
    match weatherDetails with
    | Some w =>
        (fields ++ [ {| FName := "Weather Conditions"; FValue := weatherValue w;
                        Inline := false |} ])%list
    | None => fields
    end in
  let fields :=
    if (1 <? length nearbyCameras)%nat then
      (fields ++ [ {| FName := "Other Live Cameras";
                      FValue := Join (map cameraLink (drop 1 nearbyCameras)) nl;
                      Inline := false |} ])%list
    else fields in
  let embed :=
    {| Title := "🔵 " ++ Problem rawIncident ++ " 🔵"; Color := 3447003;
       Fields := fields;
       Footer := {| Text := "Source: Raleigh-Wake ECC" |};
       ETimestamp := formatRFC3339 (Timestamp incident);
       Thumbnail := {| ThumbnailURL := EmptyString |};
       Image := {| ImageURL_ := EmptyString |} |} in
  let embed :=
    match Latitude incident, Longitude incident with
    | Some lat, Some lon =>
        if nonempty mapsAPIKey
        then with_thumbnail embed (staticMapURL "14" "300x300" "red" lat lon mapsAPIKey)
        else embed
    | _, _ => embed
    end in
  let embed :=
    if nonempty attachmentName
    then with_image embed ("attachment://" ++ attachmentName)
    else embed in
  ({| Username := "Unified Alert Bot"; AvatarURL := EmptyString; Embeds := [embed] |},
   logs).

(** [buildArcGisPayload]. *)
Definition buildArcGisPayload (mapsAPIKey : string) (incident : UnifiedIncident)
    : DiscordWebhookPayload * list string :=
  let debug := "DEBUG: Raw ArcGIS Details JSON received: %s" in
  let decoded := decodeArcGisDetails (Details incident) in
  let rawIncident := fst decoded in
  let logs := snd decoded in
  let formattedTime := formatReported (Timestamp incident) in
  let fields :=
    [ {| FName := "Address"; FValue := Address incident; Inline := false |};
      {| FName := "Agency"; FValue := Agency rawIncident; Inline := false |} ] in
  let fields :=
    if negb (HasPrefix (CaseNumber rawIncident) "NO_CASE-")
    then (fields ++ [ {| FName := "Case #"; FValue := CaseNumber rawIncident;
                         Inline := false |} ])%list
    else fields in
  let fields :=
    (fields ++ [ {| FName := "Reported"; FValue := formattedTime; Inline := false |} ])%list in
  let embed :=
    {| Title := "🟣 " ++ CrimeDescription rawIncident ++ " 🟣";
       Color := 9807270;
       Fields := fields;
       Footer := {| Text := "Source: Police Incidents Feed" |};
       ETimestamp := formatRFC3339 (Timestamp incident);
       Thumbnail := {| ThumbnailURL := EmptyString |};
       Image := {| ImageURL_ := EmptyString |} |} in
  let embed :=
    match Latitude incident, Longitude incident with
    | Some lat, Some lon =>
        if nonempty mapsAPIKey
        then with_image embed (staticMapURL "15" "600x400" "purple" lat lon mapsAPIKey)
        else embed
    | _, _ => embed
    end in
  ({| Username := "Unified Alert Bot"; AvatarURL := EmptyString; Embeds := [embed] |},
   debug :: logs).

(** The payload [updateDiscordAlert] sends, at the instant [t]. *)
Definition clearedPayload (incident : UnifiedIncident) (t : Time) : DiscordWebhookPayload :=
  let embed :=
    {| Title := "✅ Incident Cleared ✅";
       Color := 3066993;
       Fields :=
         [ {| FName := "Source"; FValue := Source incident; Inline := false |};
           {| FName := "Address"; FValue := Address incident; Inline := false |} ];
       Footer := {| Text := "Incident no longer in active feed" |};
       ETimestamp := formatRFC3339 (UTC t);
       Thumbnail := {| ThumbnailURL := EmptyString |};
       Image := {| ImageURL_ := EmptyString |} |} in
  {| Username := EmptyString; AvatarURL := EmptyString; Embeds := [embed] |}.

End Builders.

Section Driver.
Context `{Platform}.
Variable env : Env DiscordWebhookPayload.
Abbreviation W := (World DiscordWebhookPayload).

(** [captureCameraImage]: the path and the name of the file the frame
    is saved in. *)
Definition captureCameraImage (incidentID : Z) (camera : Camera)
    : M W (Result (string * string)) :=
  log "Capturing image from camera: %s" ;;;
  let* resp := call (fun tr => http_get env tr (ImageURL camera)) (EHttpGet (ImageURL camera)) in
  match resp with
  | Err e => ret (Err ("failed to download image: " ++ e))
  | Ok resp =>
      if negb (StatusCode resp =? 200)%Z
      then ret (Err ("received non-200 status code for image: " ++ Status resp))
      else
        let* t := now env in
        let fileName :=
          "incident_" ++ itoa incidentID ++ "_cam_" ++ formatStamp t ++ ".jpg" in
        let filePath := filepathJoin TempDir fileName in
        let* file := call (fun tr => create_file env tr filePath) (ECreate filePath) in
        match file with
        | Err e => ret (Err ("failed to create temp file: " ++ e))
        | Ok _ =>
            let* copied := call (fun tr => copy_body env tr filePath) (ECopy filePath) in
            match copied with
            | Err e =>
                emit (ERemove filePath) ;;;
                ret (Err ("failed to save image to file: " ++ e))
            | Ok _ =>
                let* logged := exec env (InsertCapture incidentID (Name camera) filePath) in
                (if is_ok logged then ret tt
                 else log "Warning: failed to log camera capture to DB: %v") ;;;
                log "Successfully saved camera frame to %s" ;;;
                ret (Ok (filePath, fileName))
            end
        end
  end.

(** [postMultipartToWebhook]. *)
Definition postMultipartToWebhook (webhookURL : string)
    (payload : DiscordWebhookPayload) (attachmentPath : string) : M W (Result string) :=
  let url := webhookURL ++ "?wait=true" in
  call (fun tr => post_webhook env tr url payload attachmentPath)
       (EPost url payload attachmentPath).

Fixpoint logs (lines : list string) : M W unit :=
  match lines with
  | [] => ret tt
  | l :: r => log l ;;; logs r
  end.

(** The cameras [sendDiscordAlert] starts with: the three nearest to
    the incident, none when a coordinate is missing or the directory
    does not answer. *)
Definition nearbyCamerasOf (incident : UnifiedIncident) : M W (list Camera) :=
  match Latitude incident, Longitude incident with
  | Some lat, Some lon =>
      let* found := findNearbyCameras env lat lon 3 in
      match found with
      | Ok cams => ret cams
      | Err _ => log "Could not fetch nearby cameras: %v" ;;; ret []
      end
  | _, _ => ret []
  end.

(** The frame [sendDiscordAlert] captures next, from the nearest
    camera: the path and the name of the file, both empty when there is
    no camera or the capture fails. *)
Definition attachmentOf (incident : UnifiedIncident) (nearbyCameras : list Camera)
    : M W (string * string) :=
  match nearbyCameras with
  | nearest :: _ =>
      let* captured := captureCameraImage (ID incident) nearest in
      match captured with
      | Ok (path, name) => ret (path, name)
      | Err _ =>
          log "Failed to capture camera image: %v" ;;;
          ret (EmptyString, EmptyString)
      end
  | [] => ret (EmptyString, EmptyString)
  end.

(** [sendDiscordAlert]. The deferred removal of the captured file runs
    when the function returns, on every path after the capture. *)
Definition sendDiscordAlert (webhookURL mapsAPIKey : string)
    (incident : UnifiedIncident) : M W (Result string) :=
  if negb (String.eqb (Source incident) "ArcGIS_Police") then
    let* nearbyCameras := nearbyCamerasOf incident in
    let* attachment := attachmentOf incident nearbyCameras in
    let attachmentPath := fst attachment in
    let attachmentName := snd attachment in
    let* result :=
      (if String.eqb (Source incident) "NCDOT" then
         let built := buildNcdotPayload mapsAPIKey incident nearbyCameras attachmentName in
         logs (snd built) ;;;
         postMultipartToWebhook webhookURL (fst built) attachmentPath
       else if String.eqb (Source incident) "RWECC" then
         let built := buildRweccPayload mapsAPIKey incident nearbyCameras attachmentName in
         logs (snd built) ;;;
         postMultipartToWebhook webhookURL (fst built) attachmentPath
       else ret (Err ("unknown incident source: " ++ Source incident))) in
    (if nonempty attachmentPath then emit (ERemove attachmentPath) else ret tt) ;;;
    ret result
  else
    let built := buildArcGisPayload mapsAPIKey incident in
    logs (snd built) ;;;
    postMultipartToWebhook webhookURL (fst built) EmptyString.

(** [updateDiscordAlert]. *)
Definition updateDiscordAlert (webhookURL messageID : string)
    (incident : UnifiedIncident) : M W (Result unit) :=
  let* t := now env in
  let payload := clearedPayload incident t in
  let updateURL := webhookURL ++ "/messages/" ++ messageID in
  call (fun tr => patch_webhook env tr updateURL payload) (EEdit (ID incident) updateURL payload).

(** The rows of the first query, as [rows.Scan] fills the struct: the
    message id is not among the columns read. *)
Definition queryNew (rows : list Row) : list UnifiedIncident :=
  map (fun r =>
         let i := incident r in
         {| ID := ID i; Source := Source i; SourceID := SourceID i;
            EventType := EventType i; Address := Address i;
            Latitude := Latitude i; Longitude := Longitude i;
            Timestamp := Timestamp i; Details := Details i;
            DiscordMessageID := None |})
      (List.filter (fun r => String.eqb (status r) "active"
                             && negb (is_Some_b (DiscordMessageID (incident r))))
                   rows).

(** The rows of the second query: id, source, address and message id. *)
Definition queryCleared (rows : list Row) : list UnifiedIncident :=
  map (fun r =>
         let i := incident r in
         {| ID := ID i; Source := Source i; SourceID := EmptyString;
            EventType := EmptyString; Address := Address i;
            Latitude := None; Longitude := None;
            Timestamp := zeroTime; Details := EmptyString;
            DiscordMessageID := DiscordMessageID i |})
      (List.filter (fun r => String.eqb (status r) "cleared"
                             && is_Some_b (DiscordMessageID (incident r)))
                   rows).

(** One turn of the first loop of [main]; [true] when the incident is
    counted as processed. *)
Definition notifyStep (cfg : Config) (i : UnifiedIncident) : M W bool :=
  log "Found new unified incident from %s (ID: %s)." ;;;
  if String.eqb (notifyDiscord cfg) "0" then
    log "--- DEBUG MODE: NOTIFY_DISCORD=0 ---" ;;;
    (match Json.parse (Details i) with
     | None => log "Error formatting JSON for debug: %v"
     | Some _ => log "prettyJSON"
     end) ;;;
    ret false
  else
    log "Sending alert to Discord..." ;;;
    let* sent := sendDiscordAlert (webhookURL cfg) (mapsAPIKey cfg) i in
    emit (ESend (ID i) sent) ;;;
    match sent with
    | Err _ => log "Error sending Discord alert: %v" ;;; ret false
    | Ok messageID =>
        let* saved := exec env (SetMessageID (ID i) messageID) in
        (if is_ok saved then ret tt else log "Error saving discord_message_id: %v") ;;;
        emit ESleep ;;;
        ret true
    end.

Fixpoint notifyLoop (cfg : Config) (rows : list UnifiedIncident)
    (newIncidentsFound : Z) : M W Z :=
  match rows with
  | [] => ret newIncidentsFound
  | i :: rest =>
      let* counted := notifyStep cfg i in
      notifyLoop cfg rest (if counted then newIncidentsFound + 1 else newIncidentsFound)%Z
  end.

(** One turn of the second loop of [main]. *)
Definition clearStep (cfg : Config) (i : UnifiedIncident) : M W bool :=
  log "Found cleared incident from %s (ID: %d). Updating message." ;;;
  let* edited := updateDiscordAlert (webhookURL cfg) (default EmptyString (DiscordMessageID i)) i in
  match edited with
  | Err _ => log "Error updating Discord alert: %v" ;;; ret false
  | Ok _ =>
      let* saved := exec env (ClearMessageID (ID i)) in
      (if is_ok saved then ret tt else log "Error nullifying discord_message_id: %v") ;;;
      emit ESleep ;;;
      ret true
  end.

Fixpoint clearLoop (cfg : Config) (rows : list UnifiedIncident)
    (clearedIncidentsUpdated : Z) : M W Z :=
  match rows with
  | [] => ret clearedIncidentsUpdated
  | i :: rest =>
      let* counted := clearStep cfg i in
      clearLoop cfg rest
        (if counted then clearedIncidentsUpdated + 1 else clearedIncidentsUpdated)%Z
  end.

(** Step 1 of [main]: the query, then the loop over its rows. *)
Definition pass1 (cfg : Config) : M W Z :=
  let* rows := query queryNew in
  let* n := notifyLoop cfg rows 0 in
  log "Processed %d new alerts." ;;;
  ret n.

(** Step 2 of [main]. *)
Definition pass2 (cfg : Config) : M W Z :=
  let* rows := query queryCleared in
  let* n := clearLoop cfg rows 0 in
  log "Processed %d cleared alerts." ;;;
  ret n.

(** [main], from the moment the store is open, in a run in which the
    store answers both SELECTs. *)
Definition main (cfg : Config) : M W Outcome :=
  log "Using state file: %s" ;;;
  if negb (nonempty (webhookURL cfg)) then ret (Fatal "Error: DISCORD_HOOK must be set")
  else
    let* n := pass1 cfg in
    let* c := pass2 cfg in
    log "Run complete." ;;;
    ret (Completed n c).

(** The texts of the two SELECTs. *)
Definition selectNew : string :=
  "SELECT id, source, source_id, event_type, address, latitude, longitude, timestamp, details FROM unified_incidents WHERE status = 'active' AND discord_message_id IS NULL".
Definition selectCleared : string :=
  "SELECT id, source, address, discord_message_id FROM unified_incidents WHERE status = 'cleared' AND discord_message_id IS NOT NULL".

(** [main], from the moment the store is open, with each SELECT as a
    call the store may refuse: [log.Fatalf] ends the run then. *)
Definition run (cfg : Config) : M W Outcome :=
  log "Using state file: %s" ;;;
  if negb (nonempty (webhookURL cfg)) then ret (Fatal "Error: DISCORD_HOOK must be set")
  else
    let* rows := asks env selectNew in
    match rows with
    | Err e => ret (Fatal ("Error querying for new incidents: " ++ e))
    | Ok _ =>
        let* n := pass1 cfg in
        let* clearedRows := asks env selectCleared in
        match clearedRows with
        | Err e => ret (Fatal ("Error querying for cleared incidents: " ++ e))
        | Ok _ =>
            let* c := pass2 cfg in
            log "Run complete." ;;;
            ret (Completed n c)
        end
    end.

End Driver.

(** ** What a send worked with *)

Section Sent.
Context `{Platform}.
Variable env : Env DiscordWebhookPayload.
Implicit Types (w : World DiscordWebhookPayload).
Implicit Types (evs : list (Event DiscordWebhookPayload)).

(** What every step before the post has in common: the table is as
    before, and nothing is posted, sent, edited or written to it. *)
Definition aside w evs (st : list Row) : Prop :=
  st = store w /\ Forall inner evs /\ posts evs = [].

(** The path and the name of the frame captured for the first of the
    cameras [cams] when the capture runs in the world [w]. *)
Definition frameCaptured (i : UnifiedIncident) (cams : list Camera) w : string * string :=
  match cams with
  | nearest :: _ =>
      match fst (captureCameraImage env (ID i) nearest w) with
      | Ok pn => pn
      | Err _ => (EmptyString, EmptyString)
      end
  | [] => (EmptyString, EmptyString)
  end.

(** The frame [sendDiscordAlert] works with when it is run from [w]:
    the capture runs after the directory was asked. *)
Definition frameUsed (i : UnifiedIncident) w : string * string :=
  frameCaptured i (camerasFound env i (trace w)) (snd (nearbyCamerasOf env i w)).

(** What one call of [sendDiscordAlert] from [w] gives. *)
Definition sendOutcome (url key : string) (i : UnifiedIncident) w
    (r : Result string) evs (st : list Row) : Prop :=
  st = store w /\ Forall inner evs /\
  if String.eqb (Source i) "ArcGIS_Police" then
    cameraRequests evs = [] /\ frameRequests evs = []
    /\ posts evs = [(fst (buildArcGisPayload key i), EmptyString)]
    /\ In (EPost (url ++ "?wait=true") (fst (buildArcGisPayload key i)) EmptyString r) evs
  else
    let cams := camerasFound env i (trace w) in
    let att := frameUsed i w in
    cameraRequests evs = requestFor i
    /\ frameRequests evs = map ImageURL (take 1 cams)
    /\ if String.eqb (Source i) "NCDOT" then
         posts evs = [(fst (buildNcdotPayload key i cams (snd att)), fst att)]
         /\ In (EPost (url ++ "?wait=true")
                  (fst (buildNcdotPayload key i cams (snd att))) (fst att) r) evs
       else if String.eqb (Source i) "RWECC" then
         posts evs = [(fst (buildRweccPayload key i cams (snd att)), fst att)]
         /\ In (EPost (url ++ "?wait=true")
                  (fst (buildRweccPayload key i cams (snd att))) (fst att) r) evs
       else
         posts evs = [] /\ r = Err ("unknown incident source: " ++ Source i).

End Sent.

End Later.

(* ================================================================== *)
(** * The earlier program *)

Module Earlier.

Record DiscordEmbed : Type := {
  Title : string;
  Color : Z;
  Fields : list EmbedField;
  Footer : EmbedFooter;
  ETimestamp : string;
  Thumbnail : EmbedThumbnail
}.

Record DiscordWebhookPayload : Type := {
  Username : string;
  AvatarURL : string;
  Embeds : list DiscordEmbed
}.

Definition with_thumbnail (e : DiscordEmbed) (url : string) : DiscordEmbed :=
  {| Title := Title e; Color := Color e; Fields := Fields e; Footer := Footer e;
     ETimestamp := ETimestamp e; Thumbnail := {| ThumbnailURL := url |} |}.

(** The titles, with the bytes the source has around their text. *)
Definition ncdotTitle : string := "ðŸš¨ NC DOT - New Vehicle Crash ðŸš¨".
Definition rweccTitle (problem : string) : string := "ðŸ”µ " ++ problem ++ " ðŸ”µ".
Definition clearedTitle : string := "âœ… Incident Cleared âœ…".

(** What a state file holds, decoded into a [map[int]bool]; [None] when
    the decoder reports an error. A key is read with [strconv.ParseInt];
    a null value stores [false]. The text null sets the map to nil,
    which holds nothing; [nilState] tells that map from an empty one. *)
Definition decodeSentIDs (data : string) : option (gmap Z bool) :=
  match Json.parse data with
  | Some (JObject kvs) =>
      fold_left
        (fun acc kv =>
           match acc, parseInt64 (fst kv), snd kv with
           | Some m, Some k, JBool b => Some (<[k := b]> m)
           | Some m, Some k, JNull => Some (<[k := false]> m)
           | _, _, _ => None
           end)
        kvs (Some ∅)
  | Some JNull => Some ∅
  | _ => None
  end.

(** Whether the text leaves the map nil: [json.Unmarshal] of null into
    a map sets it to nil and reports no error. *)
Definition nilState (data : string) : bool :=
  match Json.parse data with
  | Some JNull => true
  | _ => false
  end.

(** The entries of a map in the order [encoding/json] writes them: by
    the decimal texts of their keys, compared as bytes. *)
Fixpoint insertEntry (kv : Z * bool) (l : list (Z * bool)) : list (Z * bool) :=
  match l with
  | [] => [kv]
  | x :: r =>
      if String.leb (itoa (fst kv)) (itoa (fst x)) then kv :: l
      else x :: insertEntry kv r
  end.

Definition sortedEntries (m : gmap Z bool) : list (Z * bool) :=
  foldr insertEntry [] (map_to_list m).

(** One line of the indented text: the key between quotes after two
    spaces, a colon, a space and the value. *)
Definition encodeEntry (kv : Z * bool) : string :=
  "  " ++ String dquote (itoa (fst kv)) ++ String dquote ": "
  ++ (if snd kv then "true" else "false").

(** What [json.MarshalIndent(sentIDs, "", "  ")] gives [saveSentIncidents]
    to write: two braces for an empty map, otherwise one line for every
    entry between the braces, the lines separated by a comma. *)
Definition encodeSentIDs (m : gmap Z bool) : string :=
  match sortedEntries m with
  | [] => "{}"
  | l => "{" ++ nl ++ Join (map encodeEntry l) ("," ++ nl) ++ nl ++ "}"
  end.

Section Driver.
Context `{Platform}.
Variable env : Env DiscordWebhookPayload.
Abbreviation W := (World DiscordWebhookPayload).

(** [loadSentIncidents]. *)
Definition loadSentIncidents : M W (Result (gmap Z bool)) :=
  fun w =>
    match read_state env (trace w) with
    | Ok None => ret (Ok ∅) w
    | Err e => ret (Err e) w
    | Ok (Some data) =>
        if (String.length data =? 0)%nat then ret (Ok ∅) w
        else
          match decodeSentIDs data with
          | Some sentIDs => ret (Ok sentIDs) w
          | None =>
              (log "WARNING: Could not parse %s. File may be corrupt. Starting fresh. Error: %v" ;;;
               ret (Ok ∅)) w
          end
    end.

(** [saveSentIncidents]. *)
Definition saveSentIncidents (sentIDs : gmap Z bool) : M W (Result unit) :=
  call (fun tr => write_state env tr sentIDs) (ESaveState sentIDs).

(** [postToWebhook]. *)
Definition postToWebhook (webhookURL : string) (payload : DiscordWebhookPayload)
    : M W (Result string) :=
  let url := webhookURL ++ "?wait=true" in
  call (fun tr => post_webhook env tr url payload EmptyString)
       (EPost url payload EmptyString).

(** The enrichment step of both alerts: the fields with the Nearby
    Cameras field after them when the directory has an answer. *)
Definition enrich (incident : UnifiedIncident) (fields : list EmbedField)
    : M W (list EmbedField) :=
  match Latitude incident, Longitude incident with
  | Some lat, Some lon =>
      let* found := findNearbyCameras env lat lon 3 in
      match found with
      | Err _ => log "Could not fetch nearby cameras: %v" ;;; ret fields
      | Ok nearbyCameras =>
          if (0 <? length nearbyCameras)%nat then
            ret (fields ++ [ {| FName := "Nearby Cameras";
                                FValue := Join (map cameraLink nearbyCameras) nl;
                                Inline := false |} ])%list
          else ret fields
      end
  | _, _ => ret fields
  end.

Definition thumbnailed (mapsAPIKey : string) (incident : UnifiedIncident)
    (embed : DiscordEmbed) : DiscordEmbed :=
  match Latitude incident, Longitude incident with
  | Some lat, Some lon =>
      if nonempty mapsAPIKey
      then with_thumbnail embed (staticMapURL "14" "300x300" "red" lat lon mapsAPIKey)
      else embed
  | _, _ => embed
  end.

(** [sendNcdotAlert]. The error of details that do not decode is
    written up to its colon: the message of the decoder, which the
    program puts after it, is not produced here. *)
Definition sendNcdotAlert (webhookURL mapsAPIKey : string)
    (incident : UnifiedIncident) : M W (Result string) :=
  let decoded := Unmarshal ncdotFields (Details incident) zeroNcdot in
  if snd decoded then ret (Err "error unmarshalling NCDOT details")
  else
    let ncdotDetails := fst decoded in
    let color := severityColor (Severity ncdotDetails) in
    let fields :=
      [ {| FName := "Reason"; FValue := Reason ncdotDetails; Inline := false |};
        {| FName := "Road"; FValue := Road ncdotDetails; Inline := false |};
        {| FName := "Location"; FValue := Location ncdotDetails; Inline := false |};
        {| FName := "Severity"; FValue := itoa (Severity ncdotDetails);
           Inline := false |} ] in
    let* fields := enrich incident fields in
    let embed :=
      {| Title := ncdotTitle; Color := color; Fields := fields;
         Footer := {| Text := "Source: NC DOT API" |};
         ETimestamp := formatRFC3339 (Timestamp incident);
         Thumbnail := {| ThumbnailURL := EmptyString |} |} in
    let embed := thumbnailed mapsAPIKey incident embed in
    postToWebhook webhookURL
      {| Username := "Unified Alert Bot"; AvatarURL := EmptyString; Embeds := [embed] |}.

(** [sendRweccAlert]. The error is written as in [sendNcdotAlert]. *)
Definition sendRweccAlert (webhookURL mapsAPIKey : string)
    (incident : UnifiedIncident) : M W (Result string) :=
  let decoded := Unmarshal rweccFields (Details incident) zeroRwecc in
  if snd decoded then ret (Err "error unmarshalling RWECC details")
  else
    let rweccDetails := fst decoded in
    let fields :=
      [ {| FName := "Address"; FValue := Address incident; Inline := false |};
        {| FName := "Jurisdiction"; FValue := Jurisdiction rweccDetails;
           Inline := false |} ] in
    let* fields := enrich incident fields in
    let embed :=
      {| Title := rweccTitle (Problem rweccDetails); Color := 3447003;
         Fields := fields;
         Footer := {| Text := "Source: Raleigh-Wake ECC" |};
         ETimestamp := formatRFC3339 (Timestamp incident);
         Thumbnail := {| ThumbnailURL := EmptyString |} |} in
    let embed := thumbnailed mapsAPIKey incident embed in
    postToWebhook webhookURL
      {| Username := "Unified Alert Bot"; AvatarURL := EmptyString; Embeds := [embed] |}.

(** [sendDiscordAlert]. *)
Definition sendDiscordAlert (webhookURL mapsAPIKey : string)
    (incident : UnifiedIncident) : M W (Result string) :=
  if String.eqb (Source incident) "NCDOT" then
    sendNcdotAlert webhookURL mapsAPIKey incident
  else if String.eqb (Source incident) "RWECC" then
    sendRweccAlert webhookURL mapsAPIKey incident
  else ret (Err ("unknown incident source: " ++ Source incident)).

(** The payload [updateDiscordAlert] sends, at the instant [t]. *)
Definition clearedPayload (incident : UnifiedIncident) (t : Time) : DiscordWebhookPayload :=
  let embed :=
    {| Title := clearedTitle; Color := 3066993;
       Fields :=
         [ {| FName := "Source"; FValue := Source incident; Inline := false |};
           {| FName := "Address"; FValue := Address incident; Inline := false |} ];
       Footer := {| Text := "Incident no longer in active feed" |};
       ETimestamp := formatRFC3339 (UTC t);
       Thumbnail := {| ThumbnailURL := EmptyString |} |} in
  {| Username := EmptyString; AvatarURL := EmptyString; Embeds := [embed] |}.

(** [updateDiscordAlert]. *)
Definition updateDiscordAlert (webhookURL messageID : string)
    (incident : UnifiedIncident) : M W (Result unit) :=
  let* t := now env in
  let payload := clearedPayload incident t in
  let updateURL := webhookURL ++ "/messages/" ++ messageID in
  call (fun tr => patch_webhook env tr updateURL payload) (EEdit (ID incident) updateURL payload).

(** The rows of the first query: every active incident. *)
Definition queryActive (rows : list Row) : list UnifiedIncident :=
  map (fun r =>
         let i := incident r in
         {| ID := ID i; Source := Source i; SourceID := SourceID i;
            EventType := EventType i; Address := Address i;
            Latitude := Latitude i; Longitude := Longitude i;
            Timestamp := Timestamp i; Details := Details i;
            DiscordMessageID := None |})
      (List.filter (fun r => String.eqb (status r) "active") rows).

Definition queryCleared (rows : list Row) : list UnifiedIncident :=
  map (fun r =>
         let i := incident r in
         {| ID := ID i; Source := Source i; SourceID := EmptyString;
            EventType := EmptyString; Address := Address i;
            Latitude := None; Longitude := None;
            Timestamp := zeroTime; Details := EmptyString;
            DiscordMessageID := DiscordMessageID i |})
      (List.filter (fun r => String.eqb (status r) "cleared"
                             && is_Some_b (DiscordMessageID (incident r)))
                   rows).

(** [sentIDs[id]]: a key that is absent reads as [false]. *)
Definition sent (sentIDs : gmap Z bool) (id : Z) : bool :=
  default false (sentIDs !! id).

(** One turn of the first loop of [main]: the sent-state set afterwards
    and whether the incident is counted. *)
Definition notifyStep (cfg : Config) (sentIDs : gmap Z bool) (i : UnifiedIncident)
    : M W (gmap Z bool * bool) :=
  if negb (sent sentIDs (ID i)) then
    log "Found new unified incident from %s (ID: %s). Sending alert." ;;;
    let* answer := sendDiscordAlert (webhookURL cfg) (mapsAPIKey cfg) i in
    emit (ESend (ID i) answer) ;;;
    match answer with
    | Err _ => log "Error sending Discord alert: %v" ;;; ret (sentIDs, false)
    | Ok messageID =>
        let* saved := exec env (SetMessageID (ID i) messageID) in
        (if is_ok saved then ret tt else log "Error saving discord_message_id: %v") ;;;
        emit ESleep ;;;
        ret (<[ID i := true]> sentIDs, true)
    end
  else ret (sentIDs, false).

Fixpoint notifyLoop (cfg : Config) (rows : list UnifiedIncident)
    (sentIDs : gmap Z bool) (newIncidentsFound : Z) : M W (gmap Z bool * Z) :=
  match rows with
  | [] => ret (sentIDs, newIncidentsFound)
  | i :: rest =>
      let* r := notifyStep cfg sentIDs i in
      notifyLoop cfg rest (fst r)
        (if snd r then newIncidentsFound + 1 else newIncidentsFound)%Z
  end.

(** The first loop when the sent-state set is the nil map: every key
    reads as [false], and the assignment [sentIDs[i.ID] = true] after
    the first send that is delivered panics, which ends the run. Gives
    whether it did. *)
Fixpoint notifyLoopNil (cfg : Config) (rows : list UnifiedIncident) : M W bool :=
  match rows with
  | [] => ret false
  | i :: rest =>
      log "Found new unified incident from %s (ID: %s). Sending alert." ;;;
      let* answer := sendDiscordAlert (webhookURL cfg) (mapsAPIKey cfg) i in
      emit (ESend (ID i) answer) ;;;
      match answer with
      | Err _ => log "Error sending Discord alert: %v" ;;; notifyLoopNil cfg rest
      | Ok messageID =>
          let* saved := exec env (SetMessageID (ID i) messageID) in
          (if is_ok saved then ret tt else log "Error saving discord_message_id: %v") ;;;
          ret true
      end
  end.

Definition clearStep (cfg : Config) (i : UnifiedIncident) : M W bool :=
  log "Found cleared incident from %s (ID: %d). Updating message." ;;;
  let* edited :=
    updateDiscordAlert (webhookURL cfg) (default EmptyString (DiscordMessageID i)) i in
  match edited with
  | Err _ => log "Error updating Discord alert: %v" ;;; ret false
  | Ok _ =>
      let* saved := exec env (ClearMessageID (ID i)) in
      (if is_ok saved then ret tt else log "Error nullifying discord_message_id: %v") ;;;
      emit ESleep ;;;
      ret true
  end.

Fixpoint clearLoop (cfg : Config) (rows : list UnifiedIncident)
    (clearedIncidentsUpdated : Z) : M W Z :=
  match rows with
  | [] => ret clearedIncidentsUpdated
  | i :: rest =>
      let* counted := clearStep cfg i in
      clearLoop cfg rest
        (if counted then clearedIncidentsUpdated + 1 else clearedIncidentsUpdated)%Z
  end.

(** Step 1 of [main] with the sent-state set it loaded: the loop, then
    the state file is written when something was sent. *)
Definition pass1 (cfg : Config) (sentIDs : gmap Z bool) : M W (gmap Z bool * Z) :=
  let* rows := query queryActive in
  let* r := notifyLoop cfg rows sentIDs 0 in
  (if (0 <? snd r)%Z then
     let* saved := saveSentIncidents (fst r) in
     if is_ok saved then ret tt else log "Error saving sent incidents file: %s"
   else ret tt) ;;;
  log "Processed %d new alerts." ;;;
  ret r.

Definition pass2 (cfg : Config) : M W Z :=
  let* rows := query queryCleared in
  let* n := clearLoop cfg rows 0 in
  log "Processed %d cleared alerts." ;;;
  ret n.

(** [main], from the moment the store is open, in a run in which the
    store answers both SELECTs and the state file does not leave the
    map nil. *)
Definition main (cfg : Config) : M W Outcome :=
  if negb (nonempty (webhookURL cfg)) then ret (Fatal "Error: DISCORD_HOOK must be set")
  else
    let* loaded := loadSentIncidents in
    match loaded with
    | Err e => ret (Fatal ("Error loading sent incidents: " ++ e))
    | Ok sentIDs =>
        let* r := pass1 cfg sentIDs in
        let* c := pass2 cfg in
        log "Run complete." ;;;
        ret (Completed (snd r) c)
    end.

(** The texts of the two SELECTs. *)
Definition selectActive : string :=
  "SELECT id, source, source_id, event_type, address, latitude, longitude, timestamp, details FROM unified_incidents WHERE status = 'active'".
Definition selectCleared : string :=
  "SELECT id, source, address, discord_message_id FROM unified_incidents WHERE status = 'cleared' AND discord_message_id IS NOT NULL".

(** Whether [loadSentIncidents] returns the nil map: the file is there,
    is not empty and holds the text null, which [json.Unmarshal] stores
    by setting the map to nil. *)
Definition loadsNil : M W bool :=
  fun w =>
    (match read_state env (trace w) with
     | Ok (Some data) => negb (String.length data =? 0)%nat && nilState data
     | _ => false
     end, w).

(** Step 2 of [main] and its end, with the SELECT as a call the store
    may refuse; [n] is the count of step 1. *)
Definition secondPass (cfg : Config) (n : Z) : M W Outcome :=
  let* clearedRows := asks env selectCleared in
  match clearedRows with
  | Err e => ret (Fatal ("Error querying for cleared incidents: " ++ e))
  | Ok _ =>
      let* c := pass2 cfg in
      log "Run complete." ;;;
      ret (Completed n c)
  end.

(** [main] after the state file was loaded. With the nil map the first
    loop runs until a send is delivered: the assignment that follows
    the UPDATE panics. When none is, the count is 0 and nothing is
    saved. *)
Definition fromState (cfg : Config) (sentIDs : gmap Z bool) (isNil : bool)
    : M W Outcome :=
  let* rows := asks env selectActive in
  match rows with
  | Err e => ret (Fatal ("Error querying for new incidents: " ++ e))
  | Ok _ =>
      if isNil then
        let* rows := query queryActive in
        let* panicked := notifyLoopNil cfg rows in
        if panicked then ret (Panicked "assignment to entry in nil map")
        else log "Processed %d new alerts." ;;; secondPass cfg 0
      else
        let* r := pass1 cfg sentIDs in
        secondPass cfg (snd r)
  end.

(** [main], from the moment the store is open, with each SELECT as a
    call the store may refuse and with the nil map a state file may
    leave. *)
Definition run (cfg : Config) : M W Outcome :=
  if negb (nonempty (webhookURL cfg)) then ret (Fatal "Error: DISCORD_HOOK must be set")
  else
    let* isNil := loadsNil in
    let* loaded := loadSentIncidents in
    match loaded with
    | Err e => ret (Fatal ("Error loading sent incidents: " ++ e))
    | Ok sentIDs => fromState cfg sentIDs isNil
    end.

End Driver.

(** ** What a send worked with *)

Section Sent.
Context `{Platform}.
Variable env : Env DiscordWebhookPayload.
Implicit Types (w : World DiscordWebhookPayload).
Implicit Types (evs : list (Event DiscordWebhookPayload)).

(** The incidents of the first query that are not in the sent-state
    set. *)
Definition unsentOf (sentIDs : gmap Z bool) (rows : list UnifiedIncident)
    : list UnifiedIncident :=
  List.filter (fun i => negb (sent sentIDs (ID i))) rows.

(** The one post of an alert whose details decoded: the payload has
    one embed with the given title and colour, and its fields are
    [fields] and then the Nearby Cameras field. *)
Definition posted (url : string) (i : UnifiedIncident) w
    (title : string) (color : Z) (fields : list EmbedField)
    (r : Result string) evs : Prop :=
  cameraRequests evs = requestFor i
  /\ exists p e,
       posts evs = [(p, EmptyString)]
       /\ In (EPost (url ++ "?wait=true") p EmptyString r) evs
       /\ Embeds p = [e]
       /\ Title e = title /\ Color e = color
       /\ Fields e = (fields ++ nearbyCamerasField (camerasFound env i (trace w)))%list.

(** What one call of [sendDiscordAlert] from [w] gives. *)
Definition sendOutcome (url key : string) (i : UnifiedIncident) w
    (r : Result string) evs (st : list Row) : Prop :=
  st = store w /\ Forall inner evs /\
  if String.eqb (Source i) "NCDOT" then
    let decoded := Unmarshal ncdotFields (Details i) zeroNcdot in
    if snd decoded then evs = [] /\ r = Err "error unmarshalling NCDOT details"
    else posted url i w ncdotTitle (severityColor (Severity (fst decoded)))
           (ncdotBaseFields (fst decoded)) r evs
  else if String.eqb (Source i) "RWECC" then
    let decoded := Unmarshal rweccFields (Details i) zeroRwecc in
    if snd decoded then evs = [] /\ r = Err "error unmarshalling RWECC details"
    else posted url i w (rweccTitle (Problem (fst decoded))) 3447003
           [ {| FName := "Address"; FValue := Address i; Inline := false |};
             {| FName := "Jurisdiction"; FValue := Jurisdiction (fst decoded);
                Inline := false |} ] r evs
  else evs = [] /\ r = Err ("unknown incident source: " ++ Source i).

End Sent.

End Earlier.

(* ================================================================== *)
(** * A platform and a world to run the programs in *)

Definition samplePlatform : Platform :=
  {| float64 := Z; Time := Z;
     formatRFC3339 := fun t => "2025-01-01T00:00:0" ++ itoa t ++ "Z";
     formatReported := fun _ => "Wed, Jan 1, 12:00 AM";
     format6 := fun x => itoa x ++ ".000000";
     formatStamp := fun t => "2025010100000" ++ itoa t;
     UTC := fun t => t;
     zeroTime := 0%Z;
     TempDir := "/tmp" |}.

Definition sampleIncident (id : Z) (source details : string) (at_ : option Z)
    : @UnifiedIncident samplePlatform :=
  @Build_UnifiedIncident samplePlatform id source ("src-" ++ itoa id) "event"
    "100 Main St" at_ at_ 1%Z details None.

Definition sampleRow (i : @UnifiedIncident samplePlatform) (st : string)
    (m : option string) : @Row samplePlatform :=
  @with_message_id samplePlatform (@Build_Row samplePlatform i st) m.

Definition sampleCameras : list Camera :=
  [ {| Name := "cam-1"; ImageURL := "http://cams/1.jpg" |};
    {| Name := "cam-2"; ImageURL := "http://cams/2.jpg" |};
    {| Name := "cam-3"; ImageURL := "http://cams/3.jpg" |};
    {| Name := "cam-4"; ImageURL := "http://cams/4.jpg" |} ].

(** Collaborators that always answer: the webhook names a message after
    the number of events before the post; [ok] decides whether the
    webhook and the store accept. *)
Definition sampleEnv {P} (webhook_ok store_ok : bool) : @Env samplePlatform P :=
  @Build_Env samplePlatform P
    (fun _ _ _ => Ok sampleCameras)
    (fun _ _ => Ok {| StatusCode := 200; Status := "200 OK" |})
    (fun _ _ => Ok tt)
    (fun _ _ => Ok tt)
    (fun tr _ _ _ =>
       if webhook_ok then Ok ("msg-" ++ itoa (Z.of_nat (length tr)))
       else Err "discord returned non-2xx status")
    (fun _ _ _ =>
       if webhook_ok then Ok tt else Err "discord returned non-2xx status on update")
    (fun _ _ => if store_ok then Ok tt else Err "connection lost")
    (fun _ => Ok None)
    (fun _ _ => Ok tt)
    (fun _ => 2%Z)
    (fun _ _ => Ok tt).

(** The same collaborators with a state file that holds [file], and
    with a store that refuses every SELECT when [select_ok] is not set. *)
Definition sampleEnvWith {P} (file : option string) (select_ok : bool)
    : @Env samplePlatform P :=
  let env := @sampleEnv P true true in
  @Build_Env samplePlatform P
    (cameras_by_distance env) (http_get env) (create_file env) (copy_body env)
    (post_webhook env) (patch_webhook env) (exec_stmt env)
    (fun _ => Ok file) (write_state env) (clock env)
    (fun _ _ => if select_ok then Ok tt else Err "connection refused").

Definition sampleConfig (notify : string) : Config :=
  {| webhookURL := "https://discord.test/hook"; mapsAPIKey := EmptyString;
     notifyDiscord := notify |}.

(** The details of the examples. *)
Definition ncdotNewShape : string :=
  dq "{'raw_incident':{'reason':'Crash','road':'I-40','location':'Exit 12','severity':2},'weather':null}".
Definition rweccLegacy : string :=
  dq "{'problem':'Water main break','jurisdiction':'Raleigh'}".
Definition arcGisNoCase : string :=
  dq "{'raw_incident':{'case_number':'NO_CASE-123','crime_description':'Larceny','agency':'RPD'}}".

(* ================================================================== *)
(* ================================================================== *)

Local Open Scope list_scope.
Import Json.

(* ================================================================== *)
(** * Running in the world *)

Section WorldFacts.
Context `{Platform} {Payload : Type}.
Implicit Types (w : World Payload) (e : Event Payload) (tr evs : list (Event Payload)).
Abbreviation M' := (M (World Payload)).

Lemma post_ret {A} (a : A) w (Q : A -> list (Event Payload) -> list Row -> Prop) :
  Q a [] (store w) -> post (ret a) w Q.
Proof.
  intros HQ. exists a, [], (store w). split; [|exact HQ].
  unfold runs, ret. rewrite app_nil_r. now destruct w.
Qed.

Lemma post_bind {A B} (m : M' A) (k : A -> M' B) w
    (Q : B -> list (Event Payload) -> list Row -> Prop) :
  post m w (fun a evs st =>
    post (k a) {| store := st; trace := trace w ++ evs |}
      (fun b evs' st' => Q b (evs ++ evs') st')) ->
  post (bind m k) w Q.
Proof.
  intros (a & evs & st & Hm & b & evs' & st' & Hk & HQ).
  exists b, (evs ++ evs'), st'. split; [|exact HQ].
  unfold runs, bind in *. rewrite Hm. simpl in *. rewrite Hk.
  now rewrite app_assoc.
Qed.

Lemma post_weaken {A} (m : M' A) w
    (Q Q' : A -> list (Event Payload) -> list Row -> Prop) :
  post m w Q -> (forall a evs st, Q a evs st -> Q' a evs st) -> post m w Q'.
Proof. intros (a & evs & st & Hm & HQ) Himp. exists a, evs, st. auto. Qed.

Lemma post_emit e w (Q : unit -> list (Event Payload) -> list Row -> Prop) :
  Q tt [e] (store w) -> post (emit e) w Q.
Proof. intros HQ. exists tt, [e], (store w). split; [reflexivity|exact HQ]. Qed.

Lemma post_log line w (Q : unit -> list (Event Payload) -> list Row -> Prop) :
  Q tt [ELog line] (store w) -> post (log line) w Q.
Proof. apply post_emit. Qed.

Lemma post_call {A} (oracle : list (Event Payload) -> A) (ev : A -> Event Payload) w
    (Q : A -> list (Event Payload) -> list Row -> Prop) :
  Q (oracle (trace w)) [ev (oracle (trace w))] (store w) -> post (call oracle ev) w Q.
Proof. intros HQ. eexists _, _, _. split; [reflexivity|exact HQ]. Qed.

Lemma post_now (env : Env Payload) w
    (Q : Time -> list (Event Payload) -> list Row -> Prop) :
  Q (clock env (trace w)) [] (store w) -> post (now env) w Q.
Proof.
  intros HQ. eexists _, _, _. split; [|exact HQ].
  unfold runs, now. rewrite app_nil_r. now destruct w.
Qed.

Lemma post_exec (env : Env Payload) (s : Stmt) w
    (Q : Result unit -> list (Event Payload) -> list Row -> Prop) :
  Q (exec_stmt env (trace w) s) [EExec s (exec_stmt env (trace w) s)]
    (if is_ok (exec_stmt env (trace w) s) then apply_stmt s (store w) else store w) ->
  post (exec env s) w Q.
Proof. intros HQ. eexists _, _, _. split; [reflexivity|exact HQ]. Qed.

Lemma post_query {A} (q : list Row -> A) w
    (Q : A -> list (Event Payload) -> list Row -> Prop) :
  Q (q (store w)) [] (store w) -> post (query q) w Q.
Proof.
  intros HQ. eexists _, _, _. split; [|exact HQ].
  unfold runs, query. rewrite app_nil_r. now destruct w.
Qed.

(** What [post] says about the pair a run returns. *)
Lemma post_elim {A} (m : M' A) w (Q : A -> list (Event Payload) -> list Row -> Prop) :
  post m w Q ->
  exists evs,
    trace (snd (m w)) = trace w ++ evs /\ Q (fst (m w)) evs (store (snd (m w))).
Proof.
  intros (a & evs & st & Hm & HQ). unfold runs in Hm. rewrite Hm. simpl. eauto.
Qed.

Lemma post_findNearbyCameras (env : Env Payload) (lat lon : float64) (limit : Z) w
    (Q : Result (list Camera) -> list (Event Payload) -> list Row -> Prop) :
  (forall r,
      r = match cameras_by_distance env (trace w) lat lon with
          | Ok cams => Ok (take (Z.to_nat limit) cams)
          | Err e => Err ("error querying for nearby cameras: " ++ e)%string
          end ->
      Q r [EFindCameras lat lon limit r] (store w)) ->
  post (findNearbyCameras env lat lon limit) w Q.
Proof. intros HQ. apply post_call. now apply HQ. Qed.

End WorldFacts.

Section ReadingFacts.
Context `{Platform} {Payload : Type}.
Implicit Types (tr evs : list (Event Payload)).

Lemma sendIDs_app tr evs : sendIDs (tr ++ evs) = sendIDs tr ++ sendIDs evs.
Proof. apply omap_app. Qed.
Lemma editIDs_app tr evs : editIDs (tr ++ evs) = editIDs tr ++ editIDs evs.
Proof. apply omap_app. Qed.
Lemma posts_app tr evs : posts (tr ++ evs) = posts tr ++ posts evs.
Proof. apply omap_app. Qed.
Lemma cameraRequests_app tr evs :
  cameraRequests (tr ++ evs) = cameraRequests tr ++ cameraRequests evs.
Proof. apply omap_app. Qed.
Lemma frameRequests_app tr evs :
  frameRequests (tr ++ evs) = frameRequests tr ++ frameRequests evs.
Proof. apply omap_app. Qed.

Lemma inner_sendIDs evs : Forall inner evs -> sendIDs evs = [].
Proof.
  induction 1 as [|e evs He _ IH]; [reflexivity|].
  destruct e; simpl in *; try contradiction; exact IH.
Qed.

Lemma inner_editIDs evs : Forall inner evs -> editIDs evs = [].
Proof.
  induction 1 as [|e evs He _ IH]; [reflexivity|].
  destruct e; simpl in *; try contradiction; exact IH.
Qed.

Lemma inner_logs (lines : list string) : Forall inner (map (@ELog _ Payload) lines).
Proof. induction lines; constructor; simpl; auto. Qed.

Lemma posts_logs (lines : list string) : posts (map (@ELog _ Payload) lines) = [].
Proof. induction lines; simpl; auto. Qed.
Lemma cameraRequests_logs (lines : list string) :
  cameraRequests (map (@ELog _ Payload) lines) = [].
Proof. induction lines; simpl; auto. Qed.
Lemma frameRequests_logs (lines : list string) :
  frameRequests (map (@ELog _ Payload) lines) = [].
Proof. induction lines; simpl; auto. Qed.

End ReadingFacts.

(* ================================================================== *)
(** * What the decoding does *)

Section DecodingFacts.

(** A key no member has is not in the map the members are stored in. *)
Lemma store_members_miss (kvs : list (string * json)) (k : string)
    (m0 : gmap string json) :
  (forall kv, In kv kvs -> fst kv <> k) ->
  fold_left (fun m kv => <[fst kv := snd kv]> m) kvs m0 !! k = m0 !! k.
Proof.
  revert m0. induction kvs as [|kv kvs IH]; intros m0 Hk; simpl.
  - reflexivity.
  - rewrite IH.
    + apply lookup_insert_ne. apply Hk. now left.
    + intros kv' Hin. apply Hk. now right.
Qed.


Lemma UnmarshalMap_object (details : string) (members : list (string * json)) :
  parse details = Some (JObject members) ->
  UnmarshalMap details =
    (fold_left (fun m kv => <[fst kv := snd kv]> m) members ∅, false).
Proof. unfold UnmarshalMap. now intros ->. Qed.

Lemma UnmarshalMap_error (details : string) :
  snd (UnmarshalMap details) = true ->
  forall members, parse details <> Some (JObject members).
Proof.
  intros E members Hp. rewrite (UnmarshalMap_object _ _ Hp) in E. discriminate.
Qed.


Lemma decodeDetails_logs {T} (fields : list (field T)) (zero : T)
    (source details : string) :
  snd (Later.decodeDetails fields zero source details)
  = if snd (UnmarshalMap details) then [Later.fallbackLog source] else [].
Proof.
  unfold Later.decodeDetails. now destruct (snd (UnmarshalMap details)).
Qed.

Lemma decodeDetails_no_raw {T} (fields : list (field T)) (zero : T)
    (source details : string) (members : list (string * json)) :
  parse details = Some (JObject members) ->
  (forall kv, In kv members -> fst kv <> "raw_incident") ->
  fst (fst (Later.decodeDetails fields zero source details)) = zero.
Proof.
  intros Hp Hk. unfold Later.decodeDetails.
  rewrite (UnmarshalMap_object _ _ Hp). simpl.
  now rewrite (store_members_miss _ _ _ Hk), lookup_empty.
Qed.

End DecodingFacts.

(* ================================================================== *)
(** * What the builders of the later program return *)

Section BuilderFacts.
Context `{Platform}.

Lemma buildNcdotPayload_spec (key : string) (incident : UnifiedIncident)
    (cams : list Camera) (att : string) :
  let d := Later.decodeDetails ncdotFields zeroNcdot "NCDOT" (Details incident) in
  exists e,
    fst (Later.buildNcdotPayload key incident cams att)
    = {| Later.Username := "Unified Alert Bot"; Later.AvatarURL := EmptyString;
         Later.Embeds := [e] |}
    /\ Later.Title e = "🚨 NC DOT - Incident Alert 🚨"
    /\ Later.Color e = severityColor (Severity (fst (fst d)))
    /\ Later.Fields e
       = (ncdotBaseFields (fst (fst d)) ++ weatherFieldsOf (snd (fst d))
          ++ otherCamerasField cams)%list
    /\ ImageURL_ (Later.Image e)
       = (if nonempty att then ("attachment://" ++ att)%string else EmptyString)
    /\ snd (Later.buildNcdotPayload key incident cams att) = snd d.
Proof.
  intros d. unfold Later.buildNcdotPayload. fold d.
  eexists. split; [reflexivity|].
  unfold otherCamerasField, weatherFieldsOf, ncdotBaseFields.
  destruct (snd (fst d)); destruct (1 <? length cams)%nat;
    destruct (nonempty att); destruct (Latitude incident);
    destruct (Longitude incident); destruct (nonempty key); simpl;
    repeat split; reflexivity.
Qed.

Lemma buildRweccPayload_spec (key : string) (incident : UnifiedIncident)
    (cams : list Camera) (att : string) :
  let d := Later.decodeDetails rweccFields zeroRwecc "RWECC" (Details incident) in
  exists e,
    fst (Later.buildRweccPayload key incident cams att)
    = {| Later.Username := "Unified Alert Bot"; Later.AvatarURL := EmptyString;
         Later.Embeds := [e] |}
    /\ Later.Title e = ("🔵 " ++ Problem (fst (fst d)) ++ " 🔵")%string
    /\ Later.Color e = 3447003%Z
    /\ Later.Fields e
       = ([ {| FName := "Address"; FValue := Address incident; Inline := false |};
            {| FName := "Jurisdiction"; FValue := Jurisdiction (fst (fst d));
               Inline := false |} ]
          ++ weatherFieldsOf (snd (fst d)) ++ otherCamerasField cams)%list
    /\ ImageURL_ (Later.Image e)
       = (if nonempty att then ("attachment://" ++ att)%string else EmptyString)
    /\ snd (Later.buildRweccPayload key incident cams att) = snd d.
Proof.
  intros d. unfold Later.buildRweccPayload. fold d.
  eexists. split; [reflexivity|].
  unfold otherCamerasField, weatherFieldsOf.
  destruct (snd (fst d)); destruct (1 <? length cams)%nat;
    destruct (nonempty att); destruct (Latitude incident);
    destruct (Longitude incident); destruct (nonempty key); simpl;
    repeat split; reflexivity.
Qed.

Lemma buildArcGisPayload_spec (key : string) (incident : UnifiedIncident) :
  let raw := fst (Later.decodeArcGisDetails (Details incident)) in
  exists e,
    fst (Later.buildArcGisPayload key incident)
    = {| Later.Username := "Unified Alert Bot"; Later.AvatarURL := EmptyString;
         Later.Embeds := [e] |}
    /\ Later.Title e = ("🟣 " ++ CrimeDescription raw ++ " 🟣")%string
    /\ Later.Color e = 9807270%Z
    /\ Later.Fields e
       = ([ {| FName := "Address"; FValue := Address incident; Inline := false |};
            {| FName := "Agency"; FValue := Agency raw; Inline := false |} ]
          ++ (if HasPrefix (CaseNumber raw) "NO_CASE-" then []
              else [ {| FName := "Case #"; FValue := CaseNumber raw; Inline := false |} ])
          ++ [ {| FName := "Reported"; FValue := formatReported (Timestamp incident);
                  Inline := false |} ])%list.
Proof.
  intros raw. unfold Later.buildArcGisPayload. fold raw.
  eexists. split; [reflexivity|].
  destruct (HasPrefix (CaseNumber raw) "NO_CASE-");
    destruct (Latitude incident); destruct (Longitude incident);
    destruct (nonempty key); simpl; repeat split; reflexivity.
Qed.

End BuilderFacts.

(* ================================================================== *)
(** * The builders on the documents of the specification *)

Section BuilderClaims.
Context `{Platform}.


Lemma decode_rweccLegacy :
  Later.decodeDetails rweccFields zeroRwecc "RWECC" rweccLegacy
  = (zeroRwecc, None, []).
Proof. vm_compute. reflexivity. Qed.

Lemma decode_arcGisNoCase :
  Later.decodeArcGisDetails arcGisNoCase
  = ({| CaseNumber := "NO_CASE-123"; CrimeDescription := "Larceny"; Agency := "RPD" |},
     []).
Proof. vm_compute. reflexivity. Qed.


Lemma hasField_other_cameras (name : string) (fields : list EmbedField)
    (cams : list Camera) :
  name <> "Other Live Cameras" ->
  hasField name (fields ++ otherCamerasField cams) = hasField name fields.
Proof.
  intros Hn. unfold otherCamerasField.
  destruct (1 <? length cams)%nat; [|now rewrite app_nil_r].
  unfold hasField, fieldValue.
  induction fields as [|f fields IH].
  - cbn [app find FName].
    destruct (String.eqb_spec "Other Live Cameras" name); [congruence|reflexivity].
  - cbn [app find]. destruct (String.eqb (FName f) name); [reflexivity|exact IH].
Qed.


(** C5, on the later program. On the old-shape details of the example
    the RWECC builder of the later program takes the new-shape path (the
    document is a map, so nothing is logged and nothing is decoded):
    the title has an empty problem between its decorations and does not
    contain the problem text, the jurisdiction is empty; the colour is
    3447003 and there is no Weather Conditions field. *)
Theorem C5_later_builder_on_legacy_shape
    (key : string) (incident : UnifiedIncident) (cams : list Camera) (att : string) :
  Details incident = rweccLegacy ->
  exists e,
    Later.Embeds (fst (Later.buildRweccPayload key incident cams att)) = [e]
    /\ Later.Title e = "🔵  🔵"
    /\ Contains (Later.Title e) "Water main break" = false
    /\ fieldValue "Jurisdiction" (Later.Fields e) = Some EmptyString
    /\ Later.Color e = 3447003%Z
    /\ hasField "Weather Conditions" (Later.Fields e) = false
    /\ snd (Later.buildRweccPayload key incident cams att) = [].
Proof.
  intros HD.
  destruct (buildRweccPayload_spec key incident cams att)
    as (e & Hp & Ht & Hc & Hf & _ & Hl).
  rewrite HD, decode_rweccLegacy in Ht, Hf, Hl. simpl in Ht, Hf.
  exists e. rewrite Hp, Ht, Hf. simpl.
  split; [reflexivity|]. split; [reflexivity|]. split; [reflexivity|].
  split; [reflexivity|]. split; [exact Hc|]. split; [|exact Hl].
  change (hasField "Weather Conditions"
            ([ {| FName := "Address"; FValue := Address incident; Inline := false |};
               {| FName := "Jurisdiction"; FValue := EmptyString; Inline := false |} ]
             ++ otherCamerasField cams) = false).
  rewrite hasField_other_cameras by discriminate. reflexivity.
Qed.

(** C7. The Case # field of a police incident: left out when the
    decoded case number starts with NO_CASE-, as for NO_CASE-123;
    present with the case number as its value otherwise. *)
Theorem C7_case_number_field (key : string) (incident : UnifiedIncident) :
  let raw := fst (Later.decodeArcGisDetails (Details incident)) in
  exists e,
    Later.Embeds (fst (Later.buildArcGisPayload key incident)) = [e]
    /\ (HasPrefix (CaseNumber raw) "NO_CASE-" = true ->
        hasField "Case #" (Later.Fields e) = false)
    /\ (HasPrefix (CaseNumber raw) "NO_CASE-" = false ->
        fieldValue "Case #" (Later.Fields e) = Some (CaseNumber raw))
    /\ (Details incident = arcGisNoCase ->
        CaseNumber raw = "NO_CASE-123"
        /\ hasField "Case #" (Later.Fields e) = false).
Proof.
  intros raw.
  destruct (buildArcGisPayload_spec key incident) as (e & Hp & _ & _ & Hf).
  fold raw in Hf. exists e. rewrite Hp, Hf. simpl.
  split; [reflexivity|].
  assert (Hyes : HasPrefix (CaseNumber raw) "NO_CASE-" = true ->
                 hasField "Case #"
                   ({| FName := "Address"; FValue := Address incident; Inline := false |}
                    :: {| FName := "Agency"; FValue := Agency raw; Inline := false |}
                    :: ((if HasPrefix (CaseNumber raw) "NO_CASE-" then []
                         else [ {| FName := "Case #"; FValue := CaseNumber raw;
                                   Inline := false |} ])
                        ++ [ {| FName := "Reported";
                                FValue := formatReported (Timestamp incident);
                                Inline := false |} ])) = false).
  { intros ->. reflexivity. }
  split; [exact Hyes|]. split.
  - intros ->. reflexivity.
  - intros HD. assert (Hc : CaseNumber raw = "NO_CASE-123").
    { unfold raw. rewrite HD, decode_arcGisNoCase. reflexivity. }
    split; [exact Hc|]. apply Hyes. rewrite Hc. reflexivity.
Qed.

(** C10. When the details are a JSON object, the NC DOT and RWECC
    builders of the later program log no fallback: they decode the new
    shape. If the object has no raw_incident member every decoded field
    keeps its zero value: empty Reason, Road and Location, severity 0
    with colour 2105893, an empty problem in the title, an empty
    jurisdiction. A builder that logs the fallback was given details
    that are no JSON object. *)
Theorem C10_object_details_take_new_shape
    (key : string) (incident : UnifiedIncident) (cams : list Camera) (att : string)
    (members : list (string * json)) :
  Json.parse (Details incident) = Some (JObject members) ->
  snd (Later.buildNcdotPayload key incident cams att) = []
  /\ snd (Later.buildRweccPayload key incident cams att) = []
  /\ ((forall kv, In kv members -> fst kv <> "raw_incident") ->
      (exists e,
          Later.Embeds (fst (Later.buildNcdotPayload key incident cams att)) = [e]
          /\ fieldValue "Reason" (Later.Fields e) = Some EmptyString
          /\ fieldValue "Road" (Later.Fields e) = Some EmptyString
          /\ fieldValue "Location" (Later.Fields e) = Some EmptyString
          /\ fieldValue "Severity" (Later.Fields e) = Some "0"
          /\ Later.Color e = 2105893%Z)
      /\ (exists e,
             Later.Embeds (fst (Later.buildRweccPayload key incident cams att)) = [e]
             /\ Later.Title e = "🔵  🔵"
             /\ fieldValue "Jurisdiction" (Later.Fields e) = Some EmptyString))
  /\ (forall other : UnifiedIncident,
        (In (Later.fallbackLog "NCDOT")
            (snd (Later.buildNcdotPayload key other cams att))
         \/ In (Later.fallbackLog "RWECC")
               (snd (Later.buildRweccPayload key other cams att))) ->
        forall ms, Json.parse (Details other) <> Some (JObject ms)).
Proof.
  intros Hp.
  destruct (buildNcdotPayload_spec key incident cams att)
    as (en & Hpn & _ & Hcn & Hfn & _ & Hln).
  destruct (buildRweccPayload_spec key incident cams att)
    as (er & Hpr & Htr & _ & Hfr & _ & Hlr).
  rewrite decodeDetails_logs, (UnmarshalMap_object _ _ Hp) in Hln.
  rewrite decodeDetails_logs, (UnmarshalMap_object _ _ Hp) in Hlr.
  split; [exact Hln|]. split; [exact Hlr|]. split.
  - intros Hk.
    rewrite (decodeDetails_no_raw _ _ _ _ _ Hp Hk) in Hcn, Hfn.
    rewrite (decodeDetails_no_raw _ _ _ _ _ Hp Hk) in Htr, Hfr.
    split.
    + exists en. rewrite Hpn, Hfn. simpl. repeat split; try reflexivity. exact Hcn.
    + exists er. rewrite Hpr, Htr, Hfr. simpl. repeat split; reflexivity.
  - intros other Hlog ms Hms.
    destruct (buildNcdotPayload_spec key other cams att) as (_ & _ & _ & _ & _ & _ & Ln).
    destruct (buildRweccPayload_spec key other cams att) as (_ & _ & _ & _ & _ & _ & Lr).
    rewrite decodeDetails_logs, (UnmarshalMap_object _ _ Hms) in Ln.
    rewrite decodeDetails_logs, (UnmarshalMap_object _ _ Hms) in Lr.
    rewrite Ln, Lr in Hlog. destruct Hlog as [[]|[]].
Qed.

End BuilderClaims.


Lemma C5_witness :
  @Details samplePlatform (sampleIncident 2 "RWECC" rweccLegacy None) = rweccLegacy
  /\ exists e,
       Later.Embeds (fst (@Later.buildRweccPayload samplePlatform EmptyString
                            (sampleIncident 2 "RWECC" rweccLegacy None) [] EmptyString))
       = [e]
       /\ Contains (Later.Title e) "Water main break" = false.
Proof.
  split; [reflexivity|].
  destruct (@C5_later_builder_on_legacy_shape samplePlatform EmptyString
              (sampleIncident 2 "RWECC" rweccLegacy None) [] EmptyString eq_refl)
    as (e & He & _ & Hc & _).
  exists e. split; [exact He|exact Hc].
Defined.

Lemma C10_witness :
  Json.parse (@Details samplePlatform (sampleIncident 2 "RWECC" rweccLegacy None))
  = Some (JObject [("problem", JString "Water main break");
                   ("jurisdiction", JString "Raleigh")])
  /\ snd (@Later.buildRweccPayload samplePlatform EmptyString
            (sampleIncident 2 "RWECC" rweccLegacy None) [] EmptyString) = [].
Proof.
  split; [vm_compute; reflexivity|].
  apply (@C10_object_details_take_new_shape samplePlatform EmptyString
           (sampleIncident 2 "RWECC" rweccLegacy None) [] EmptyString
           [("problem", JString "Water main break"); ("jurisdiction", JString "Raleigh")]).
  vm_compute. reflexivity.
Defined.

(* ================================================================== *)
(** * Sending, in the later program *)

Section LaterSend.
Context `{Platform}.
Variable env : Env Later.DiscordWebhookPayload.
Implicit Types (w : World Later.DiscordWebhookPayload).
Implicit Types (evs : list (Event Later.DiscordWebhookPayload)).

Lemma logs_post (lines : list string) w :
  post (Later.logs lines) w (fun _ evs st => st = store w /\ evs = map ELog lines).
Proof.
  revert w. induction lines as [|l lines IH]; intros w.
  - apply post_ret. auto.
  - apply post_bind, post_log.
    eapply post_weaken; [apply IH|]. simpl. intros _ evs st [-> ->]. auto.
Qed.

Lemma captureCameraImage_post (id : Z) (cam : Camera) w :
  post (Later.captureCameraImage env id cam) w (fun _ evs st =>
    Later.aside w evs st /\ cameraRequests evs = [] /\ frameRequests evs = [ImageURL cam]).
Proof.
  unfold post, runs, Later.aside, Later.captureCameraImage, bind, log, call, emit, exec, now, ret.
  cbn.
  destruct (http_get env _ _) as [resp|e]; cbn;
    [|eexists _, _, _; split;
      [rewrite <- ?app_assoc; cbn [app]; reflexivity
      |repeat split; repeat constructor]].
  destruct (StatusCode resp =? 200)%Z; cbn;
    [|eexists _, _, _; split;
      [rewrite <- ?app_assoc; cbn [app]; reflexivity
      |repeat split; repeat constructor]].
  destruct (create_file env _ _) as [[]|e]; cbn;
    [|eexists _, _, _; split;
      [rewrite <- ?app_assoc; cbn [app]; reflexivity
      |repeat split; repeat constructor]].
  destruct (copy_body env _ _) as [[]|e]; cbn;
    [|eexists _, _, _; split;
      [rewrite <- ?app_assoc; cbn [app]; reflexivity
      |repeat split; repeat constructor]].
  destruct (exec_stmt env _ _) as [[]|e]; cbn;
    (eexists _, _, _; split;
      [rewrite <- ?app_assoc; cbn [app]; reflexivity
      |repeat split; repeat constructor]).
Qed.

Lemma nearbyCamerasOf_post (i : UnifiedIncident) w :
  post (Later.nearbyCamerasOf env i) w (fun cams evs st =>
    Later.aside w evs st /\ frameRequests evs = []
    /\ cams = camerasFound env i (trace w)
    /\ cameraRequests evs = requestFor i).
Proof.
  unfold Later.nearbyCamerasOf, camerasFound, requestFor, Later.aside.
  destruct (Latitude i) as [lat|]; [destruct (Longitude i) as [lon|]|];
    try (apply post_ret; repeat split; constructor).
  apply post_bind, post_findNearbyCameras. intros r ->.
  destruct (cameras_by_distance env (trace w) lat lon) as [cams|e].
  - apply post_ret. simpl. repeat split; repeat constructor.
  - apply post_bind, post_log, post_ret. simpl. repeat split; repeat constructor.
Qed.

Lemma attachmentOf_post (i : UnifiedIncident) (cams : list Camera) w :
  post (Later.attachmentOf env i cams) w (fun att evs st =>
    Later.aside w evs st /\ cameraRequests evs = []
    /\ frameRequests evs = map ImageURL (take 1 cams)
    /\ att = Later.frameCaptured env i cams w).
Proof.
  unfold Later.attachmentOf, Later.frameCaptured, Later.aside.
  destruct cams as [|nearest rest].
  - apply post_ret. repeat split; constructor.
  - apply post_bind.
    destruct (captureCameraImage_post (ID i) nearest w)
      as (a & evs & st & Hr & (-> & Hin & Hp) & Hc & Hf).
    exists a, evs, (store w). split; [exact Hr|].
    unfold runs in Hr. rewrite Hr. simpl.
    destruct a as [[path name]|e].
    + apply post_ret. rewrite app_nil_r. repeat split; auto.
    + apply post_bind, post_log, post_ret. simpl.
      rewrite posts_app, cameraRequests_app, frameRequests_app, Hp, Hc, Hf.
      repeat split; auto. apply Forall_app. split; [exact Hin|repeat constructor].
Qed.

Lemma postMultipartToWebhook_post (url : string) (p : Later.DiscordWebhookPayload)
    (att : string) w :
  post (Later.postMultipartToWebhook env url p att) w (fun r evs st =>
    st = store w /\ evs = [EPost (url ++ "?wait=true")%string p att r]).
Proof. unfold Later.postMultipartToWebhook. apply post_call. auto. Qed.

Lemma sendDiscordAlert_post (url key : string) (i : UnifiedIncident) w :
  post (Later.sendDiscordAlert env url key i) w (Later.sendOutcome env url key i w).
Proof.
  unfold Later.sendDiscordAlert, Later.sendOutcome.
  destruct (String.eqb (Source i) "ArcGIS_Police"); simpl negb; cbv iota.
  - apply post_bind.
    eapply post_weaken; [apply logs_post|]. intros _ evs st [-> ->].
    eapply post_weaken; [apply postMultipartToWebhook_post|].
    cbn [store trace]. intros r evs st [-> ->].
    rewrite posts_app, cameraRequests_app, frameRequests_app,
      posts_logs, cameraRequests_logs, frameRequests_logs.
    cbn [app posts cameraRequests frameRequests omap].
    repeat split; auto.
    + apply Forall_app. split; [apply inner_logs|repeat constructor].
    + apply in_or_app. right. now left.
  - apply post_bind.
    destruct (nearbyCamerasOf_post i w)
      as (cams & evs1 & st1 & Hr1 & (-> & Hin1 & Hp1) & Hf1 & -> & Hc1).
    exists (camerasFound env i (trace w)), evs1, (store w). split; [exact Hr1|].
    unfold Later.frameUsed. unfold runs in Hr1. rewrite Hr1. simpl snd.
    set (w1 := {| store := store w; trace := trace w ++ evs1 |}).
    set (cams := camerasFound env i (trace w)).
    apply post_bind.
    eapply post_weaken; [apply attachmentOf_post|].
    intros att evs2 st2 ((-> & Hin2 & Hp2) & Hc2 & Hf2 & ->).
    set (att := Later.frameCaptured env i cams w1).
    apply post_bind.
    assert (Hfin : forall (r : Result string) evs3 tr,
      Forall inner evs3 -> cameraRequests evs3 = [] -> frameRequests evs3 = [] ->
      post (bind (if nonempty att.1 then emit (ERemove att.1) else ret tt)
                 (fun _ => ret r))
        {| store := store w; trace := tr |}
        (fun b evs' st' =>
           b = r /\ st' = store w /\ Forall inner (evs1 ++ evs2 ++ evs3 ++ evs')
           /\ posts (evs1 ++ evs2 ++ evs3 ++ evs') = posts evs3
           /\ cameraRequests (evs1 ++ evs2 ++ evs3 ++ evs') = requestFor i
           /\ frameRequests (evs1 ++ evs2 ++ evs3 ++ evs') = map ImageURL (take 1 cams)
           /\ forall e, In e evs3 -> In e (evs1 ++ evs2 ++ evs3 ++ evs'))).
    { intros r evs3 tr Hin3 Hc3 Hf3. apply post_bind.
      assert (Hany : forall evs4, Forall inner evs4 -> posts evs4 = [] ->
                cameraRequests evs4 = [] -> frameRequests evs4 = [] ->
                post (ret r)
                  {| store := store w; trace := tr ++ evs4 |}
                  (fun b evs' st' =>
                     b = r /\ st' = store w
                     /\ Forall inner (evs1 ++ evs2 ++ evs3 ++ evs4 ++ evs')
                     /\ posts (evs1 ++ evs2 ++ evs3 ++ evs4 ++ evs') = posts evs3
                     /\ cameraRequests (evs1 ++ evs2 ++ evs3 ++ evs4 ++ evs')
                        = requestFor i
                     /\ frameRequests (evs1 ++ evs2 ++ evs3 ++ evs4 ++ evs')
                        = map ImageURL (take 1 cams)
                     /\ forall e, In e evs3 -> In e (evs1 ++ evs2 ++ evs3 ++ evs4 ++ evs'))).
      { intros evs4 Hin4 Hp4 Hc4 Hf4. apply post_ret. rewrite app_nil_r.
        rewrite !posts_app, !cameraRequests_app, !frameRequests_app,
          Hp1, Hp2, Hp4, Hc1, Hc2, Hc3, Hc4, Hf1, Hf2, Hf3, Hf4, !app_nil_r.
        cbn [app]. repeat split; auto.
        - repeat (apply Forall_app; split); auto.
        - intros e He. apply in_or_app. right. apply in_or_app. right.
          apply in_or_app. now left. }
      destruct (nonempty att.1).
      - apply post_emit. apply Hany; repeat constructor.
      - apply post_ret. apply Hany; repeat constructor. }
    destruct (String.eqb (Source i) "NCDOT");
      [|destruct (String.eqb (Source i) "RWECC")].
    + apply post_bind.
      eapply post_weaken; [apply logs_post|]. intros _ evs3 st3 [-> ->].
      eapply post_weaken; [apply postMultipartToWebhook_post|].
      intros r evs4 st4 [-> ->]. cbn [store trace].
      eapply post_weaken;
        [apply (Hfin r
                  (map ELog (snd (Later.buildNcdotPayload key i cams att.2))
                   ++ [EPost (url ++ "?wait=true")%string
                         (fst (Later.buildNcdotPayload key i cams att.2)) att.1 r]) _)|].
      * apply Forall_app. split; [apply inner_logs|repeat constructor].
      * now rewrite cameraRequests_app, cameraRequests_logs.
      * now rewrite frameRequests_app, frameRequests_logs.
      * intros b evs' st' (-> & -> & Hi & Hp & Hc & Hf & Hsub).
        split; [reflexivity|]. split; [exact Hi|]. split; [exact Hc|].
        split; [exact Hf|]. split.
        -- etransitivity; [exact Hp|]. rewrite posts_app, posts_logs. reflexivity.
        -- apply Hsub. apply in_or_app. right. now left.
    + apply post_bind.
      eapply post_weaken; [apply logs_post|]. intros _ evs3 st3 [-> ->].
      eapply post_weaken; [apply postMultipartToWebhook_post|].
      intros r evs4 st4 [-> ->]. cbn [store trace].
      eapply post_weaken;
        [apply (Hfin r
                  (map ELog (snd (Later.buildRweccPayload key i cams att.2))
                   ++ [EPost (url ++ "?wait=true")%string
                         (fst (Later.buildRweccPayload key i cams att.2)) att.1 r]) _)|].
      * apply Forall_app. split; [apply inner_logs|repeat constructor].
      * now rewrite cameraRequests_app, cameraRequests_logs.
      * now rewrite frameRequests_app, frameRequests_logs.
      * intros b evs' st' (-> & -> & Hi & Hp & Hc & Hf & Hsub).
        split; [reflexivity|]. split; [exact Hi|]. split; [exact Hc|].
        split; [exact Hf|]. split.
        -- etransitivity; [exact Hp|]. rewrite posts_app, posts_logs. reflexivity.
        -- apply Hsub. apply in_or_app. right. now left.
    + apply post_ret. cbn [store trace].
      eapply post_weaken; [|].
      * exact (Hfin (Err ("unknown incident source: " ++ Source i)%string) [] _
                 ltac:(constructor) eq_refl eq_refl).
      * intros b evs' st' (-> & -> & Hi & Hp & Hc & Hf & _).
        cbn [app posts omap] in *. repeat split; auto.
Qed.

End LaterSend.

(* ================================================================== *)
(** * The table under the statements *)

Section TableFacts.
Context `{Platform}.
Implicit Types (st : list Row) (r : Row).

Lemma rowID_with_message_id r m : rowID (with_message_id r m) = rowID r.
Proof. reflexivity. Qed.

Lemma apply_stmt_ids (s : Stmt) st : map rowID (apply_stmt s st) = map rowID st.
Proof.
  destruct s as [id m|id|]; simpl; [| |reflexivity];
    rewrite map_map; apply map_ext; intros r;
    destruct (ID (incident r) =? id)%Z; reflexivity.
Qed.

Lemma apply_stmt_status (s : Stmt) st : map status (apply_stmt s st) = map status st.
Proof.
  destruct s as [id m|id|]; simpl; [| |reflexivity];
    rewrite map_map; apply map_ext; intros r;
    destruct (ID (incident r) =? id)%Z; reflexivity.
Qed.

(** A row with another id is not touched, in either direction. *)
Lemma set_other_in (id : Z) (m : string) st r :
  rowID r <> id -> In r (apply_stmt (SetMessageID id m) st) <-> In r st.
Proof.
  intros Hne. simpl. rewrite in_map_iff. split.
  - intros (r0 & E & Hin). destruct (Z.eqb_spec (ID (incident r0)) id) as [Heq|_].
    + subst r. exfalso. apply Hne. exact Heq.
    + now subst.
  - intros Hin. exists r. split; [|exact Hin].
    destruct (Z.eqb_spec (ID (incident r)) id) as [Heq|_]; [contradiction|reflexivity].
Qed.


Lemma clear_other_in (id : Z) st r :
  rowID r <> id -> In r (apply_stmt (ClearMessageID id) st) <-> In r st.
Proof.
  intros Hne. simpl. rewrite in_map_iff. split.
  - intros (r0 & E & Hin). destruct (Z.eqb_spec (ID (incident r0)) id) as [Heq|_].
    + subst r. exfalso. apply Hne. exact Heq.
    + now subst.
  - intros Hin. exists r. split; [|exact Hin].
    destruct (Z.eqb_spec (ID (incident r)) id) as [Heq|_]; [contradiction|reflexivity].
Qed.

(** A clearing statement leaves every message id as it was or NULL. *)
Lemma clear_in (id : Z) st r :
  In r (apply_stmt (ClearMessageID id) st) ->
  (rowID r = id -> DiscordMessageID (incident r) = None)
  /\ exists r0, In r0 st /\ rowID r0 = rowID r
                /\ (DiscordMessageID (incident r) = DiscordMessageID (incident r0)
                    \/ DiscordMessageID (incident r) = None).
Proof.
  simpl. rewrite in_map_iff. intros (r0 & E & Hin).
  destruct (Z.eqb_spec (ID (incident r0)) id) as [Heq|Hne]; subst r.
  - split; [reflexivity|]. exists r0. auto.
  - split; [intros Hid; contradiction|]. exists r0. auto.
Qed.

Lemma messageIDOf_in st (id : Z) (o : option string) :
  NoDup (map rowID st) ->
  (exists r, In r st /\ rowID r = id /\ DiscordMessageID (incident r) = o) ->
  messageIDOf st id = Some o.
Proof.
  unfold messageIDOf. induction st as [|r0 st IH]; intros Hnd (r & Hin & Hid & Ho).
  - destruct Hin.
  - simpl. inversion Hnd as [|? ? Hnotin Hnd']; subst. rewrite list_elem_of_In in Hnotin.
    destruct (Z.eqb_spec (ID (incident r0)) (rowID r)) as [Heq|Hne].
    + destruct Hin as [->|Hin]; [reflexivity|].
      exfalso. apply Hnotin. unfold rowID at 1. rewrite Heq.
      apply in_map. exact Hin.
    + destruct Hin as [->|Hin]; [now contradiction Hne|].
      apply IH; [exact Hnd'|]. exists r. auto.
Qed.

End TableFacts.

(* ================================================================== *)
(** * What the summaries of the loops imply *)

Section LoopFacts.
Context `{Platform} {Payload : Type}.
Implicit Types (st : list Row) (r : Row) (evs tr : list (Event Payload)).

Lemma inner_in evs (e : Event Payload) : Forall inner evs -> In e evs -> inner e.
Proof. rewrite Forall_forall. intros Hf Hin. apply Hf, list_elem_of_In, Hin. Qed.

Lemma notifiedAll_tail ids st evs st' tail :
  notifiedAll ids st evs st' -> Forall inner tail ->
  notifiedAll ids st (evs ++ tail) st'.
Proof.
  induction 1 as [st evs Hin|id ids st evs st1 evs' st2 H1 _ IH]; intros Ht.
  - constructor. apply Forall_app. auto.
  - rewrite <- app_assoc. econstructor; [exact H1|]. apply IH, Ht.
Qed.

(** What one turn holds. *)
Lemma notifiedOne_send id st evs st' id' (a : Result string) :
  notifiedOne id st evs st' -> In (ESend id' a) evs ->
  id' = id /\ match a with
              | Ok m => exists x, In (EExec (SetMessageID id m) x) evs
                                  /\ (x = Ok tt -> st' = apply_stmt (SetMessageID id m) st)
              | Err _ => st' = st
                         /\ forall i m x, ~ In (EExec (SetMessageID i m) x) evs
              end.
Proof.
  intros (evs0 & r & tail & -> & H0 & Hr) Hin.
  apply in_app_or in Hin. destruct Hin as [Hin|[E|Hin]].
  - destruct (inner_in _ _ H0 Hin).
  - inversion E; subst id' a. split; [reflexivity|].
    destruct r as [m|e].
    + destruct Hr as (_ & x & rest & -> & Hrest & ->). exists x. split.
      * apply in_or_app. right. right. now left.
      * intros ->. reflexivity.
    + destruct Hr as [Ht ->]. split; [reflexivity|].
      intros i m x Hex. apply in_app_or in Hex. destruct Hex as [Hex|[Hex|Hex]].
      * destruct (inner_in _ _ H0 Hex).
      * discriminate.
      * destruct (inner_in _ _ Ht Hex).
  - exfalso. destruct r as [m|e].
    + destruct Hr as (_ & x & rest & -> & Hrest & _).
      destruct Hin as [Hin|Hin]; [discriminate|]. destruct (inner_in _ _ Hrest Hin).
    + destruct Hr as [Ht _]. destruct (inner_in _ _ Ht Hin).
Qed.

Lemma notifiedOne_send_unique id st evs st' i1 i2 (a1 a2 : Result string) :
  notifiedOne id st evs st' -> In (ESend i1 a1) evs -> In (ESend i2 a2) evs -> a1 = a2.
Proof.
  intros (evs0 & r & tail & -> & H0 & Hr).
  assert (Hone : forall i a, In (ESend i a) (evs0 ++ ESend id r :: tail) -> a = r).
  { intros i a Hin. apply in_app_or in Hin. destruct Hin as [Hin|[E|Hin]].
    - destruct (inner_in _ _ H0 Hin).
    - now inversion E.
    - exfalso. destruct r as [m|e].
      + destruct Hr as (_ & x & rest & -> & Hrest & _).
        destruct Hin as [Hin|Hin]; [discriminate|]. destruct (inner_in _ _ Hrest Hin).
      + destruct Hr as [Ht _]. destruct (inner_in _ _ Ht Hin). }
  intros H1 H2. rewrite (Hone _ _ H1), (Hone _ _ H2). reflexivity.
Qed.

Lemma notifiedOne_exec id st evs st' i m x :
  notifiedOne id st evs st' -> In (EExec (SetMessageID i m) x) evs ->
  i = id /\ In (ESend id (Ok m)) evs
  /\ st' = (if is_ok x then apply_stmt (SetMessageID id m) st else st).
Proof.
  intros (evs0 & r & tail & -> & H0 & Hr) Hin.
  apply in_app_or in Hin. destruct Hin as [Hin|[E|Hin]].
  - destruct (inner_in _ _ H0 Hin).
  - discriminate.
  - destruct r as [m0|e].
    + destruct Hr as (_ & x0 & rest & -> & Hrest & ->).
      destruct Hin as [E|Hin]; [|destruct (inner_in _ _ Hrest Hin)].
      inversion E; subst. split; [reflexivity|]. split; [|reflexivity].
      apply in_or_app. right. now left.
    + destruct Hr as [Ht _]. destruct (inner_in _ _ Ht Hin).
Qed.

Lemma notifiedOne_sendIDs id st evs st' :
  notifiedOne id st evs st' -> sendIDs evs = [id].
Proof.
  intros (evs0 & r & tail & -> & H0 & Hr).
  rewrite sendIDs_app, (inner_sendIDs _ H0). simpl. f_equal.
  destruct r as [m|e].
  - destruct Hr as (_ & x & rest & -> & Hrest & _). simpl. apply (inner_sendIDs _ Hrest).
  - destruct Hr as [Ht _]. apply (inner_sendIDs _ Ht).
Qed.

(** The store after one turn: as before, or with the one statement
    applied. *)
Lemma notifiedOne_store id st evs st' :
  notifiedOne id st evs st' ->
  st' = st
  \/ exists m, st' = apply_stmt (SetMessageID id m) st
               /\ In (EExec (SetMessageID id m) (Ok tt)) evs.
Proof.
  intros (evs0 & r & tail & -> & H0 & Hr). destruct r as [m|e].
  - destruct Hr as (_ & x & rest & -> & Hrest & ->). destruct x as [[]|e]; simpl.
    + right. exists m. split; [reflexivity|].
      apply in_or_app. right. right. now left.
    + now left.
  - left. apply Hr.
Qed.

Lemma notifiedOne_posted id st evs st' id' (m : string) :
  notifiedOne id st evs st' -> In (ESend id' (Ok m)) evs ->
  exists url p a, In (EPost url p a (Ok m)) evs.
Proof.
  intros (evs0 & r & tail & -> & H0 & Hr) Hin.
  apply in_app_or in Hin. destruct Hin as [Hin|[E|Hin]].
  - destruct (inner_in _ _ H0 Hin).
  - inversion E; subst. destruct Hr as ((url & p & a & Hp) & _).
    exists url, p, a. apply in_or_app. now left.
  - exfalso. destruct r as [m0|e].
    + destruct Hr as (_ & x & rest & -> & Hrest & _).
      destruct Hin as [Hin|Hin]; [discriminate|]. destruct (inner_in _ _ Hrest Hin).
    + destruct Hr as [Ht _]. destruct (inner_in _ _ Ht Hin).
Qed.

(** A message id a send returned is the answer of a post. *)
Lemma notifiedAll_posted ids st evs st' id (m : string) :
  notifiedAll ids st evs st' -> In (ESend id (Ok m)) evs ->
  exists url p a, In (EPost url p a (Ok m)) evs.
Proof.
  induction 1 as [st evs Hin|id0 ids st evs st1 evs' st2 H1 _ IH]; intros Hs.
  - destruct (inner_in _ _ Hin Hs).
  - apply in_app_or in Hs. destruct Hs as [Hs|Hs].
    + destruct (notifiedOne_posted _ _ _ _ _ _ H1 Hs) as (url & p & a & Hp).
      exists url, p, a. apply in_or_app. now left.
    + destruct (IH Hs) as (url & p & a & Hp).
      exists url, p, a. apply in_or_app. now right.
Qed.

Lemma notifiedAll_sendIDs ids st evs st' :
  notifiedAll ids st evs st' -> sendIDs evs = ids.
Proof.
  induction 1 as [st evs Hin|id ids st evs st1 evs' st2 H1 _ IH].
  - apply inner_sendIDs, Hin.
  - rewrite sendIDs_app, (notifiedOne_sendIDs _ _ _ _ H1), IH. reflexivity.
Qed.

Lemma in_sendIDs evs id (a : Result string) : In (ESend id a) evs -> In id (sendIDs evs).
Proof.
  intros Hin. apply list_elem_of_In. apply list_elem_of_omap.
  exists (ESend id a). split; [apply list_elem_of_In, Hin|reflexivity].
Qed.

Lemma notifiedAll_ids ids st evs st' :
  notifiedAll ids st evs st' -> map rowID st' = map rowID st /\ map status st' = map status st.
Proof.
  induction 1 as [st evs Hin|id ids st evs st1 evs' st2 H1 _ [IHi IHs]]; [auto|].
  rewrite IHi, IHs.
  destruct (notifiedOne_store _ _ _ _ H1) as [->|(m & -> & _)]; [auto|].
  split; [apply apply_stmt_ids|apply apply_stmt_status].
Qed.

(** Every statement that writes a message id follows the send that
    returned it, for one of the incidents of the loop. *)
Lemma notifiedAll_exec ids st evs st' i m x :
  notifiedAll ids st evs st' -> In (EExec (SetMessageID i m) x) evs ->
  In i ids /\ In (ESend i (Ok m)) evs.
Proof.
  induction 1 as [st evs Hin|id ids st evs st1 evs' st2 H1 _ IH]; intros Hex.
  - destruct (inner_in _ _ Hin Hex).
  - apply in_app_or in Hex. destruct Hex as [Hex|Hex].
    + destruct (notifiedOne_exec _ _ _ _ _ _ _ H1 Hex) as (-> & Hs & _).
      split; [now left|]. apply in_or_app. now left.
    + destruct (IH Hex) as [Hi Hs]. split; [now right|].
      apply in_or_app. now right.
Qed.

(** A send that returned a message id is followed by the statement. *)
Lemma notifiedAll_issued ids st evs st' i m :
  notifiedAll ids st evs st' -> In (ESend i (Ok m)) evs ->
  exists x, In (EExec (SetMessageID i m) x) evs.
Proof.
  induction 1 as [st evs Hin|id ids st evs st1 evs' st2 H1 _ IH]; intros Hs.
  - destruct (inner_in _ _ Hin Hs).
  - apply in_app_or in Hs. destruct Hs as [Hs|Hs].
    + destruct (notifiedOne_send _ _ _ _ _ _ H1 Hs) as (-> & x & Hx & _).
      exists x. apply in_or_app. now left.
    + destruct (IH Hs) as (x & Hx). exists x. apply in_or_app. now right.
Qed.

(** A row whose id no accepted statement names is the same row before
    and after the loop. *)
Lemma notifiedAll_frame ids st evs st' r :
  notifiedAll ids st evs st' ->
  (forall m, ~ In (EExec (SetMessageID (rowID r) m) (Ok tt)) evs) ->
  In r st <-> In r st'.
Proof.
  induction 1 as [st evs Hin|id ids st evs st1 evs' st2 H1 _ IH]; intros Hno.
  - reflexivity.
  - rewrite <- IH.
    + destruct (notifiedOne_store _ _ _ _ H1) as [->|(m & -> & Hex)]; [reflexivity|].
      symmetry. apply set_other_in. intros Heq.
      apply (Hno m). apply in_or_app. left. unfold rowID in *. now rewrite Heq.
    + intros m Hex. apply (Hno m). apply in_or_app. now right.
Qed.


(** With one turn for each id, a send that failed is followed by no
    statement for its incident. *)
Lemma notifiedAll_failed ids st evs st' i (msg : string) :
  notifiedAll ids st evs st' -> NoDup ids ->
  In (ESend i (Err msg)) evs ->
  forall m x, ~ In (EExec (SetMessageID i m) x) evs.
Proof.
  induction 1 as [st evs Hin|id ids st evs st1 evs' st2 H1 Hrest IH];
    intros Hnd Hs m x Hex.
  - destruct (inner_in _ _ Hin Hs).
  - apply NoDup_cons in Hnd. destruct Hnd as [Hnotin Hnd'].
    rewrite list_elem_of_In in Hnotin.
    apply in_app_or in Hs. apply in_app_or in Hex. destruct Hs as [Hs|Hs].
    + destruct (notifiedOne_send _ _ _ _ _ _ H1 Hs) as (Hi & _ & Hnone).
      destruct Hex as [Hex|Hex]; [exact (Hnone _ _ _ Hex)|].
      apply Hnotin.
      destruct (notifiedAll_exec _ _ _ _ _ _ _ Hrest Hex) as [Hi' _]. congruence.
    + assert (Hi : In i ids).
      { rewrite <- (notifiedAll_sendIDs _ _ _ _ Hrest). apply (in_sendIDs _ _ _ Hs). }
      destruct Hex as [Hex|Hex].
      * destruct (notifiedOne_exec _ _ _ _ _ _ _ H1 Hex) as (Hi' & _).
        apply Hnotin. congruence.
      * exact (IH Hnd' Hs m x Hex).
Qed.

End LoopFacts.
Section EditFacts.
Context `{Platform} {Payload : Type}.
Variable env : Env Payload.
Variable mk : UnifiedIncident -> Time -> Payload.
Variable hook : string.
Implicit Types (st : list Row) (r : Row) (evs tr : list (Event Payload)).
Implicit Types (rows : list UnifiedIncident).

Lemma editsFrom_app rows tr evs evs' :
  editsFrom env mk hook rows tr (evs ++ evs')
  <-> editsFrom env mk hook rows tr evs
      /\ editsFrom env mk hook rows (tr ++ evs) evs'.
Proof.
  revert tr. induction evs as [|e evs IH]; intros tr; simpl.
  - rewrite app_nil_r. tauto.
  - rewrite IH, <- app_assoc. simpl. tauto.
Qed.

Lemma editsFrom_inner rows tr evs :
  Forall inner evs -> editsFrom env mk hook rows tr evs.
Proof.
  intros Hin. revert tr. induction Hin as [|e evs He _ IH]; intros tr; simpl; [exact I|].
  split; [|apply IH]. destruct e; simpl in He; try exact I. contradiction.
Qed.

Lemma editsFrom_more rows X tr evs :
  editsFrom env mk hook rows tr evs -> editsFrom env mk hook (X :: rows) tr evs.
Proof.
  revert tr. induction evs as [|e evs IH]; intros tr; simpl; [auto|].
  intros [He Hrest]. split; [|apply IH, Hrest].
  destruct e; try exact I.
  destruct He as (Y & HY & Hrest'). exists Y. split; [now right|exact Hrest'].
Qed.

Lemma editedOne_editsFrom X tr st evs st' :
  editedOne env mk hook X tr st evs st' -> editsFrom env mk hook [X] tr evs.
Proof.
  intros (evs0 & tail & -> & H0 & Hr). apply editsFrom_app. split.
  - apply editsFrom_inner, H0.
  - simpl. split.
    + exists X. split; [now left|]. repeat split; reflexivity.
    + destruct (patch_webhook env _ _ _) as [u|e].
      * destruct Hr as (x & rest & -> & Hrest & _). simpl.
        split; [exact I|apply editsFrom_inner, Hrest].
      * apply editsFrom_inner, Hr.
Qed.

Lemma editsFrom_weaken rows rows' tr evs :
  (forall X, In X rows -> In X rows') ->
  editsFrom env mk hook rows tr evs -> editsFrom env mk hook rows' tr evs.
Proof.
  intros Hsub. revert tr. induction evs as [|e evs IH]; intros tr; simpl; [auto|].
  intros [He Hrest]. split; [|apply IH, Hrest].
  destruct e; try exact I.
  destruct He as (Y & HY & Hrest'). exists Y. split; [apply Hsub, HY|exact Hrest'].
Qed.

(** Every edit of the loop is the edit of a row of the query, made
    with the payload for the instant of the edit. *)
Lemma editedAll_editsFrom rows tr st evs st' :
  editedAll env mk hook rows tr st evs st' -> editsFrom env mk hook rows tr evs.
Proof.
  induction 1 as [tr st evs Hin|X rows tr st evs st1 evs' st2 H1 _ IH].
  - apply editsFrom_inner, Hin.
  - apply editsFrom_app. split.
    + apply (editsFrom_weaken [X]); [|apply (editedOne_editsFrom _ _ _ _ _ H1)].
      intros Y [->|[]]. now left.
    + apply editsFrom_more, IH.
Qed.

Lemma editedOne_editIDs X tr st evs st' :
  editedOne env mk hook X tr st evs st' -> editIDs evs = [ID X].
Proof.
  intros (evs0 & tail & -> & H0 & Hr).
  rewrite editIDs_app, (inner_editIDs _ H0). simpl. f_equal.
  destruct (patch_webhook env _ _ _) as [u|e].
  - destruct Hr as (x & rest & -> & Hrest & _). simpl. apply (inner_editIDs _ Hrest).
  - apply inner_editIDs, Hr.
Qed.

Lemma editedAll_editIDs rows tr st evs st' :
  editedAll env mk hook rows tr st evs st' -> editIDs evs = map ID rows.
Proof.
  induction 1 as [tr st evs Hin|X rows tr st evs st1 evs' st2 H1 _ IH].
  - apply inner_editIDs, Hin.
  - rewrite editIDs_app, (editedOne_editIDs _ _ _ _ _ H1), IH. reflexivity.
Qed.

Lemma editedAll_tail rows tr st evs st' tail :
  editedAll env mk hook rows tr st evs st' -> Forall inner tail ->
  editedAll env mk hook rows tr st (evs ++ tail) st'.
Proof.
  induction 1 as [tr st evs Hin|X rows tr st evs st1 evs' st2 H1 _ IH]; intros Ht.
  - constructor. apply Forall_app. auto.
  - rewrite <- app_assoc. econstructor; [exact H1|]. apply IH, Ht.
Qed.

(** One turn: an edit that was answered is followed by the clearing
    statement, and the table changes by that statement at most. *)
Lemma editedOne_edit X tr st evs st' id url p (a : Result unit) :
  editedOne env mk hook X tr st evs st' -> In (EEdit id url p a) evs ->
  id = ID X
  /\ (is_ok a = true -> exists x, In (EExec (ClearMessageID id) x) evs).
Proof.
  intros (evs0 & tail & -> & H0 & Hr) Hin.
  apply in_app_or in Hin. destruct Hin as [Hin|[E|Hin]].
  - destruct (inner_in _ _ H0 Hin).
  - inversion E; subst. split; [reflexivity|]. intros Hok.
    destruct (patch_webhook env _ _ _) as [u|e]; [|discriminate].
    destruct Hr as (x & rest & -> & _). exists x.
    apply in_or_app. right. right. now left.
  - exfalso. destruct (patch_webhook env _ _ _) as [u|e].
    + destruct Hr as (x & rest & -> & Hrest & _).
      destruct Hin as [Hin|Hin]; [discriminate|]. destruct (inner_in _ _ Hrest Hin).
    + destruct Hr as [Ht _]. destruct (inner_in _ _ Ht Hin).
Qed.

Lemma editedOne_store X tr st evs st' :
  editedOne env mk hook X tr st evs st' ->
  (st' = st \/ st' = apply_stmt (ClearMessageID (ID X)) st)
  /\ forall id, In (EExec (ClearMessageID id) (Ok tt)) evs ->
                id = ID X /\ st' = apply_stmt (ClearMessageID (ID X)) st.
Proof.
  intros (evs0 & tail & -> & H0 & Hr).
  destruct (patch_webhook env _ _ _) as [u|e].
  - destruct Hr as (x & rest & -> & Hrest & ->). split.
    + destruct (is_ok x); auto.
    + intros id Hin. apply in_app_or in Hin. destruct Hin as [Hin|[E|[E|Hin]]].
      * destruct (inner_in _ _ H0 Hin).
      * discriminate.
      * inversion E; subst. auto.
      * destruct (inner_in _ _ Hrest Hin).
  - destruct Hr as [Ht ->]. split; [auto|].
    intros id Hin. apply in_app_or in Hin. destruct Hin as [Hin|[E|Hin]].
    + destruct (inner_in _ _ H0 Hin).
    + discriminate.
    + destruct (inner_in _ _ Ht Hin).
Qed.

Lemma editedAll_issued rows tr st evs st' id url p (a : Result unit) :
  editedAll env mk hook rows tr st evs st' -> In (EEdit id url p a) evs ->
  is_ok a = true -> exists x, In (EExec (ClearMessageID id) x) evs.
Proof.
  induction 1 as [tr st evs Hin|X rows tr st evs st1 evs' st2 H1 _ IH]; intros He Hok.
  - destruct (inner_in _ _ Hin He).
  - apply in_app_or in He. destruct He as [He|He].
    + destruct (editedOne_edit _ _ _ _ _ _ _ _ _ H1 He) as (_ & Hx).
      destruct (Hx Hok) as (x & Hin). exists x. apply in_or_app. now left.
    + destruct (IH He Hok) as (x & Hin). exists x. apply in_or_app. now right.
Qed.

(** The loop only clears: a message id that is NULL stays NULL. *)
Lemma editedAll_null rows tr st evs st' (id : Z) :
  editedAll env mk hook rows tr st evs st' ->
  (forall r, In r st -> rowID r = id -> DiscordMessageID (incident r) = None) ->
  forall r, In r st' -> rowID r = id -> DiscordMessageID (incident r) = None.
Proof.
  induction 1 as [tr st evs Hin|X rows tr st evs st1 evs' st2 H1 _ IH]; intros Hnull.
  - exact Hnull.
  - apply IH. intros r Hr Hid.
    destruct (editedOne_store _ _ _ _ _ H1) as [[->| ->] _]; [now apply Hnull|].
    destruct (clear_in _ _ _ Hr) as (_ & r0 & Hr0 & Hid0 & [E|E]); [|exact E].
    rewrite E. apply Hnull; [exact Hr0|congruence].
Qed.

(** A clearing statement the store accepted leaves the message id of
    its incident NULL at the end of the loop. *)
Lemma editedAll_cleared rows tr st evs st' (id : Z) :
  editedAll env mk hook rows tr st evs st' ->
  In (EExec (ClearMessageID id) (Ok tt)) evs ->
  forall r, In r st' -> rowID r = id -> DiscordMessageID (incident r) = None.
Proof.
  induction 1 as [tr st evs Hin|X rows tr st evs st1 evs' st2 H1 Hrest IH]; intros Hex.
  - destruct (inner_in _ _ Hin Hex).
  - apply in_app_or in Hex. destruct Hex as [Hex|Hex]; [|exact (IH Hex)].
    destruct (editedOne_store _ _ _ _ _ H1) as [_ Hst].
    destruct (Hst _ Hex) as [-> ->].
    apply (editedAll_null _ _ _ _ _ _ Hrest).
    intros r Hr Hid. apply (clear_in _ _ _ Hr). exact Hid.
Qed.

Lemma editedAll_ids rows tr st evs st' :
  editedAll env mk hook rows tr st evs st' ->
  map rowID st' = map rowID st /\ map status st' = map status st.
Proof.
  induction 1 as [tr st evs Hin|X rows tr st evs st1 evs' st2 H1 _ [IHi IHs]]; [auto|].
  rewrite IHi, IHs.
  destruct (editedOne_store _ _ _ _ _ H1) as [[->| ->] _]; [auto|].
  split; [apply apply_stmt_ids|apply apply_stmt_status].
Qed.

End EditFacts.
(* ================================================================== *)
(** * The loops of the later program *)

Section LaterDriver.
Context `{Platform}.
Variable env : Env Later.DiscordWebhookPayload.
Implicit Types (w : World Later.DiscordWebhookPayload).
Implicit Types (evs : list (Event Later.DiscordWebhookPayload)).

Lemma later_updateDiscordAlert_post (hook messageID : string) (X : UnifiedIncident) w :
  post (Later.updateDiscordAlert env hook messageID X) w (fun r evs st =>
    let url := (hook ++ "/messages/" ++ messageID)%string in
    let p := Later.clearedPayload X (clock env (trace w)) in
    r = patch_webhook env (trace w) url p
    /\ evs = [EEdit (ID X) url p r] /\ st = store w).
Proof.
  unfold Later.updateDiscordAlert. apply post_bind, post_now.
  rewrite app_nil_r. destruct w as [st0 tr0]. cbn [store trace].
  apply post_call. auto.
Qed.

Lemma later_clearStep_post (cfg : Config) (X : UnifiedIncident) w :
  post (Later.clearStep env cfg X) w (fun _ evs st =>
    editedOne env Later.clearedPayload (webhookURL cfg) X (trace w) (store w) evs st).
Proof.
  unfold Later.clearStep. apply post_bind, post_log. apply post_bind.
  eapply post_weaken; [apply later_updateDiscordAlert_post|].
  cbn [store trace]. intros r evs st (Hr & -> & ->).
  unfold editedOne.
  destruct r as [u|e].
  - apply post_bind, post_exec. cbn [store trace]. apply post_bind.
    set (x := exec_stmt env _ _).
    assert (Hfinal : forall tail tr st1,
      Forall inner tail ->
      post (bind (emit ESleep) (fun _ => ret true)) {| store := st1; trace := tr |}
        (fun _ evs' st' =>
           st' = st1 /\ Forall inner (tail ++ evs'))).
    { intros tail tr st1 Ht. apply post_bind, post_emit, post_ret.
      split; [reflexivity|]. apply Forall_app. split; [exact Ht|repeat constructor]. }
    destruct (is_ok x) eqn:Hok.
    + apply post_ret. cbn [store trace].
      eapply post_weaken; [apply (Hfinal [] _ _); constructor|].
      cbn [app]. intros b evs' st' [-> Hin].
      eexists [ELog _], _. cbn zeta. rewrite <- Hr.
      split; [reflexivity|]. split; [repeat constructor|].
      exists x, evs'. rewrite Hok. auto.
    + apply post_log. cbn [store trace].
      eapply post_weaken;
        [apply (Hfinal [ELog "Error nullifying discord_message_id: %v"] _ _);
         repeat constructor|].
      intros b evs' st' [-> Hin].
      eexists [ELog _], _. cbn zeta. rewrite <- Hr.
      split; [reflexivity|]. split; [repeat constructor|].
      eexists x, _. rewrite Hok. split; [reflexivity|]. split; [exact Hin|reflexivity].
  - apply post_bind, post_log, post_ret. cbn [store trace].
    eexists [ELog _], _. cbn zeta. rewrite <- Hr.
    split; [reflexivity|]. split; repeat constructor.
Qed.

Lemma later_clearLoop_post (cfg : Config) (rows : list UnifiedIncident) (n : Z) w :
  post (Later.clearLoop env cfg rows n) w (fun _ evs st =>
    editedAll env Later.clearedPayload (webhookURL cfg) rows (trace w) (store w) evs st).
Proof.
  revert n w. induction rows as [|X rows IH]; intros n w.
  - apply post_ret. constructor. constructor.
  - simpl. apply post_bind.
    eapply post_weaken; [apply later_clearStep_post|].
    intros counted evs st H1.
    eapply post_weaken; [apply IH|].
    cbn [store trace]. intros _ evs' st' Hrest.
    econstructor; [exact H1|exact Hrest].
Qed.

Lemma later_pass2_post (cfg : Config) w :
  post (Later.pass2 env cfg) w (fun _ evs st =>
    editedAll env Later.clearedPayload (webhookURL cfg)
      (Later.queryCleared (store w)) (trace w) (store w) evs st).
Proof.
  unfold Later.pass2. apply post_bind, post_query.
  apply post_bind. rewrite app_nil_r.
  destruct w as [st0 tr0]. cbn [store trace].
  eapply post_weaken; [apply later_clearLoop_post|].
  cbn [store trace]. intros n evs st Hall.
  apply post_bind, post_log, post_ret. cbn [app].
  apply editedAll_tail; [exact Hall|repeat constructor].
Qed.

(** A turn of the first loop when alerts are sent. *)
Lemma later_notifyStep_post (cfg : Config) (i : UnifiedIncident) w :
  notifyDiscord cfg <> "0" ->
  post (Later.notifyStep env cfg i) w (fun _ evs st =>
    notifiedOne (ID i) (store w) evs st).
Proof.
  intros Hon. unfold Later.notifyStep.
  destruct (String.eqb_spec (notifyDiscord cfg) "0") as [E|_]; [contradiction|].
  apply post_bind, post_log. apply post_bind, post_log.
  apply post_bind. cbn [store trace].
  eapply post_weaken; [apply sendDiscordAlert_post|].
  cbn [store trace]. intros r evs st (-> & Hin & Hsrc).
  assert (Hposted : forall m, r = Ok m -> exists url p a, In (EPost url p a (Ok m)) evs).
  { intros m ->. destruct (String.eqb (Source i) "ArcGIS_Police").
    - destruct Hsrc as (_ & _ & _ & Hp). eauto.
    - destruct Hsrc as (_ & _ & Hsrc).
      destruct (String.eqb (Source i) "NCDOT");
        [|destruct (String.eqb (Source i) "RWECC")].
      + destruct Hsrc as [_ Hp]. eauto.
      + destruct Hsrc as [_ Hp]. eauto.
      + destruct Hsrc as [_ E]. discriminate. }
  apply post_bind, post_emit. cbn [store trace].
  destruct r as [m|e].
  - apply post_bind, post_exec. cbn [store trace].
    apply post_bind.
    set (x := exec_stmt env _ _).
    assert (Hfinal : forall tail tr,
      Forall inner tail ->
      post (bind (emit ESleep) (fun _ => ret true))
        {| store := if is_ok x then apply_stmt (SetMessageID (ID i) m) (store w)
                    else store w;
           trace := tr |}
        (fun _ evs' st' =>
           notifiedOne (ID i) (store w)
             ([ELog "Found new unified incident from %s (ID: %s)."]
              ++ [ELog "Sending alert to Discord..."]
              ++ evs ++ [ESend (ID i) (Ok m)]
              ++ [EExec (SetMessageID (ID i) m) x] ++ tail ++ evs') st')).
    { intros tail tr Ht. apply post_bind, post_emit, post_ret.
      exists ([ELog "Found new unified incident from %s (ID: %s)."]
              ++ [ELog "Sending alert to Discord..."] ++ evs), (Ok m),
        ([EExec (SetMessageID (ID i) m) x] ++ tail ++ [ESleep] ++ []).
      split; [now rewrite <- !app_assoc|].
      split; [repeat (apply Forall_app; split); auto; repeat constructor|].
      split.
      { destruct (Hposted m eq_refl) as (url & p & a & Hp). exists url, p, a.
        apply in_or_app. right. apply in_or_app. right. exact Hp. }
      exists x, (tail ++ [ESleep] ++ []). split; [reflexivity|].
      split; [|reflexivity]. apply Forall_app. split; [exact Ht|repeat constructor]. }
    destruct (is_ok x) eqn:Hok.
    + apply post_ret. cbn [store trace].
      eapply post_weaken; [apply (Hfinal [] _); constructor|].
      intros b evs' st' Hn. cbn [app] in *. exact Hn.
    + apply post_log. cbn [store trace].
      eapply post_weaken;
        [apply (Hfinal [ELog "Error saving discord_message_id: %v"] _);
         repeat constructor|].
      intros b evs' st' Hn. cbn [app] in *. exact Hn.
  - apply post_bind, post_log, post_ret. cbn [store].
    exists ([ELog "Found new unified incident from %s (ID: %s)."]
            ++ [ELog "Sending alert to Discord..."] ++ evs), (Err e),
      [ELog "Error sending Discord alert: %v"].
    split; [now rewrite <- !app_assoc|].
    split; [repeat (apply Forall_app; split); auto; repeat constructor|].
    split; [repeat constructor|reflexivity].
Qed.

Lemma later_notifyLoop_post (cfg : Config) (rows : list UnifiedIncident) (n : Z) w :
  notifyDiscord cfg <> "0" ->
  post (Later.notifyLoop env cfg rows n) w (fun _ evs st =>
    notifiedAll (map ID rows) (store w) evs st).
Proof.
  intros Hon. revert n w. induction rows as [|i rows IH]; intros n w.
  - apply post_ret. constructor. constructor.
  - simpl. apply post_bind.
    eapply post_weaken; [apply (later_notifyStep_post _ _ _ Hon)|].
    intros counted evs st H1.
    eapply post_weaken; [apply IH|].
    cbn [store trace]. intros _ evs' st' Hrest.
    econstructor; [exact H1|exact Hrest].
Qed.

Lemma later_pass1_post (cfg : Config) w :
  notifyDiscord cfg <> "0" ->
  post (Later.pass1 env cfg) w (fun _ evs st =>
    notifiedAll (map ID (Later.queryNew (store w))) (store w) evs st).
Proof.
  intros Hon. unfold Later.pass1. apply post_bind, post_query.
  apply post_bind. rewrite app_nil_r.
  destruct w as [st0 tr0]. cbn [store trace].
  eapply post_weaken; [apply (later_notifyLoop_post _ _ _ _ Hon)|].
  cbn [store trace]. intros n evs st Hall.
  apply post_bind, post_log, post_ret. cbn [app].
  apply notifiedAll_tail; [exact Hall|repeat constructor].
Qed.

(** In debug mode a turn only logs. *)
Lemma later_notifyStep_debug (cfg : Config) (i : UnifiedIncident) w :
  notifyDiscord cfg = "0" ->
  post (Later.notifyStep env cfg i) w (fun counted evs st =>
    counted = false /\ st = store w /\ exists lines, evs = map ELog lines).
Proof.
  intros Hoff. unfold Later.notifyStep. rewrite Hoff. cbn [String.eqb Ascii.eqb].
  change (("0" =? "0")%string) with true. cbv iota.
  apply post_bind, post_log. apply post_bind, post_log. apply post_bind.
  destruct (Json.parse (Details i)); apply post_log, post_ret; cbn [store];
    (split; [reflexivity|split; [reflexivity|]]);
    eexists [_; _; _]; reflexivity.
Qed.

End LaterDriver.
(* ================================================================== *)
(** * The queries *)

Section QueryFacts.
Context `{Platform}.
Implicit Types (st : list Row) (r : Row).

Lemma NoDup_map_filter {A B} (f : A -> B) (p : A -> bool) (l : list A) :
  NoDup (map f l) -> NoDup (map f (List.filter p l)).
Proof.
  induction l as [|a l IH]; simpl; intros Hnd; [constructor|].
  apply NoDup_cons in Hnd. destruct Hnd as [Hnotin Hnd].
  destruct (p a); simpl; [|apply IH, Hnd].
  apply NoDup_cons. split; [|apply IH, Hnd].
  rewrite list_elem_of_In in *. intros Hin. apply Hnotin.
  apply in_map_iff in Hin. destruct Hin as (x & E & Hx).
  apply filter_In in Hx. rewrite <- E. apply in_map, Hx.
Qed.

Lemma later_queryNew_ids st :
  map ID (Later.queryNew st)
  = map rowID (List.filter (fun r => String.eqb (status r) "active"
                                    && negb (is_Some_b (DiscordMessageID (incident r)))) st).
Proof. unfold Later.queryNew. rewrite map_map. reflexivity. Qed.

Lemma later_queryCleared_ids st :
  map ID (Later.queryCleared st)
  = map rowID (List.filter (fun r => String.eqb (status r) "cleared"
                                    && is_Some_b (DiscordMessageID (incident r))) st).
Proof. unfold Later.queryCleared. rewrite map_map. reflexivity. Qed.

(** The first query of the later program selects exactly the rows
    that are active with a NULL message id. *)
Lemma later_queryNew_in st (id : Z) :
  In id (map ID (Later.queryNew st))
  <-> exists r, In r st /\ rowID r = id /\ status r = "active"
                /\ DiscordMessageID (incident r) = None.
Proof.
  rewrite later_queryNew_ids, in_map_iff. split.
  - intros (r & Hid & Hr). apply filter_In in Hr. destruct Hr as [Hr Hp].
    apply andb_prop in Hp. destruct Hp as [Hs Hm].
    exists r. split; [exact Hr|]. split; [exact Hid|].
    split; [now apply String.eqb_eq|]. now destruct (DiscordMessageID (incident r)).
  - intros (r & Hr & Hid & Hs & Hm). exists r. split; [exact Hid|].
    apply filter_In. split; [exact Hr|]. rewrite Hs, Hm. reflexivity.
Qed.

Lemma later_queryCleared_in st (id : Z) :
  In id (map ID (Later.queryCleared st))
  <-> exists r, In r st /\ rowID r = id /\ status r = "cleared"
                /\ DiscordMessageID (incident r) <> None.
Proof.
  rewrite later_queryCleared_ids, in_map_iff. split.
  - intros (r & Hid & Hr). apply filter_In in Hr. destruct Hr as [Hr Hp].
    apply andb_prop in Hp. destruct Hp as [Hs Hm].
    exists r. split; [exact Hr|]. split; [exact Hid|].
    split; [now apply String.eqb_eq|]. now destruct (DiscordMessageID (incident r)).
  - intros (r & Hr & Hid & Hs & Hm). exists r. split; [exact Hid|].
    apply filter_In. split; [exact Hr|]. rewrite Hs.
    destruct (DiscordMessageID (incident r)); [reflexivity|contradiction].
Qed.

Lemma count_once (l : list Z) (x : Z) :
  NoDup l -> In x l -> List.count_occ Z.eq_dec l x = 1%nat.
Proof. intros Hnd Hin. apply NoDup_count_occ'; [apply NoDup_ListNoDup, Hnd|exact Hin]. Qed.

(** A row that is still in the table, still active and unnotified, is
    still a row of the first query. *)
Lemma later_queryNew_keeps st st' (X : UnifiedIncident) :
  In X (Later.queryNew st) ->
  (forall r, rowID r = ID X -> In r st -> In r st') ->
  In X (Later.queryNew st').
Proof.
  unfold Later.queryNew. rewrite !in_map_iff.
  intros (r & E & Hr) Hkeep. exists r. split; [exact E|].
  apply filter_In in Hr. destruct Hr as [Hr Hp]. apply filter_In.
  split; [|exact Hp]. apply Hkeep; [|exact Hr]. rewrite <- E. reflexivity.
Qed.

End QueryFacts.

(* ================================================================== *)
(** * The two passes of the later program *)

Section LaterPasses.
Context `{Platform}.
Variable env : Env Later.DiscordWebhookPayload.
Implicit Types (w : World Later.DiscordWebhookPayload).


(** The later half of C3: the pass goes through every row of the
    query whatever the sends answer, and after a send that failed no
    statement is made for the incident, its row is the same row, its
    message id is still NULL and it is again a row of the query. *)
Lemma later_failed_send_keeps_state (cfg : Config) w :
  notifyDiscord cfg <> "0" ->
  NoDup (map rowID (store w)) ->
  let rows := Later.queryNew (store w) in
  let w1 := snd (Later.pass1 env cfg w) in
  exists evs,
    trace w1 = trace w ++ evs
    /\ sendIDs evs = map ID rows
    /\ forall X msg,
         In X rows -> In (ESend (ID X) (Err msg)) evs ->
         (forall m x, ~ In (EExec (SetMessageID (ID X) m) x) evs)
         /\ (forall r, rowID r = ID X -> (In r (store w) <-> In r (store w1)))
         /\ messageIDOf (store w1) (ID X) = Some None
         /\ In X (Later.queryNew (store w1)).
Proof.
  intros Hon Hnd rows w1.
  destruct (post_elim _ _ _ (later_pass1_post env cfg w Hon)) as (evs & Ht & Hall).
  fold w1 rows in Ht, Hall. exists evs. split; [exact Ht|].
  split; [apply (notifiedAll_sendIDs _ _ _ _ Hall)|].
  intros X msg HX Hfail.
  assert (Hndq : NoDup (map ID rows)).
  { unfold rows. rewrite later_queryNew_ids. apply NoDup_map_filter, Hnd. }
  pose proof (notifiedAll_failed _ _ _ _ _ _ Hall Hndq Hfail) as Hnone.
  assert (Hframe : forall r, rowID r = ID X -> (In r (store w) <-> In r (store w1))).
  { intros r Hid. apply (notifiedAll_frame _ _ _ _ _ Hall).
    intros m. rewrite Hid. apply Hnone. }
  destruct (notifiedAll_ids _ _ _ _ Hall) as [Hids _].
  split; [exact Hnone|]. split; [exact Hframe|]. split.
  - apply messageIDOf_in; [rewrite Hids; exact Hnd|].
    assert (Hq : In (ID X) (map ID rows)) by (apply in_map, HX).
    apply later_queryNew_in in Hq. destruct Hq as (r & Hr & Hid & _ & Hm).
    exists r. split; [apply (Hframe r Hid), Hr|auto].
  - apply (later_queryNew_keeps (store w)); [exact HX|].
    intros r Hid Hr. apply (Hframe r Hid), Hr.
Qed.

End LaterPasses.
(* ================================================================== *)
(** * Sending and the first loop, in the earlier program *)

Section EarlierSend.
Context `{Platform}.
Variable env : Env Earlier.DiscordWebhookPayload.
Implicit Types (w : World Earlier.DiscordWebhookPayload).
Implicit Types (evs : list (Event Earlier.DiscordWebhookPayload)).

Lemma enrich_post (i : UnifiedIncident) (fields : list EmbedField) w :
  post (Earlier.enrich env i fields) w (fun fs evs st =>
    st = store w /\ Forall inner evs /\ posts evs = []
    /\ cameraRequests evs = requestFor i
    /\ fs = fields ++ nearbyCamerasField (camerasFound env i (trace w))).
Proof.
  unfold Earlier.enrich, camerasFound, requestFor, nearbyCamerasField.
  destruct (Latitude i) as [lat|]; [destruct (Longitude i) as [lon|]|];
    try (apply post_ret; rewrite app_nil_r; repeat split; constructor).
  apply post_bind, post_findNearbyCameras. intros r ->.
  destruct (cameras_by_distance env (trace w) lat lon) as [cams|e].
  - change (Z.to_nat 3) with 3%nat.
    destruct (0 <? length (take 3 cams))%nat; apply post_ret; simpl;
      rewrite ?app_nil_r; repeat split; repeat constructor.
  - apply post_bind, post_log, post_ret. simpl. rewrite app_nil_r.
    repeat split; repeat constructor.
Qed.

Lemma postToWebhook_post (url : string) (p : Earlier.DiscordWebhookPayload) w :
  post (Earlier.postToWebhook env url p) w (fun r evs st =>
    st = store w /\ evs = [EPost (url ++ "?wait=true")%string p EmptyString r]).
Proof. unfold Earlier.postToWebhook. apply post_call. auto. Qed.

(** An alert whose details decoded: the enrichment, then the one post. *)
Lemma alert_post (url key : string) (i : UnifiedIncident)
    (title footer : string) (color : Z) (fields : list EmbedField) w :
  post (bind (Earlier.enrich env i fields) (fun fs =>
          Earlier.postToWebhook env url
            {| Earlier.Username := "Unified Alert Bot";
               Earlier.AvatarURL := EmptyString;
               Earlier.Embeds :=
                 [ Earlier.thumbnailed key i
                     {| Earlier.Title := title; Earlier.Color := color;
                        Earlier.Fields := fs;
                        Earlier.Footer := {| Text := footer |};
                        Earlier.ETimestamp := formatRFC3339 (Timestamp i);
                        Earlier.Thumbnail := {| ThumbnailURL := EmptyString |} |} ] |}))
    w (fun r evs st =>
         st = store w /\ Forall inner evs
         /\ Earlier.posted env url i w title color fields r evs).
Proof.
  apply post_bind.
  eapply post_weaken; [apply enrich_post|].
  intros fs evs st (-> & Hin & Hp & Hc & ->).
  eapply post_weaken; [apply postToWebhook_post|].
  cbn [store trace]. intros r evs' st' [-> ->].
  split; [reflexivity|]. split; [apply Forall_app; split; [exact Hin|repeat constructor]|].
  unfold Earlier.posted. rewrite cameraRequests_app, Hc. split; [apply app_nil_r|].
  eexists _, _. rewrite posts_app, Hp. split; [reflexivity|].
  split; [apply in_or_app; right; now left|].
  split; [reflexivity|].
  unfold Earlier.thumbnailed.
  destruct (Latitude i); destruct (Longitude i); destruct (nonempty key);
    repeat split; reflexivity.
Qed.

Lemma earlier_sendDiscordAlert_post (url key : string) (i : UnifiedIncident) w :
  post (Earlier.sendDiscordAlert env url key i) w (Earlier.sendOutcome env url key i w).
Proof.
  unfold Earlier.sendDiscordAlert, Earlier.sendOutcome.
  destruct (String.eqb (Source i) "NCDOT");
    [|destruct (String.eqb (Source i) "RWECC")].
  - unfold Earlier.sendNcdotAlert. cbn zeta.
    destruct (snd (Unmarshal ncdotFields (Details i) zeroNcdot)).
    + apply post_ret. repeat split; constructor.
    + apply alert_post.
  - unfold Earlier.sendRweccAlert. cbn zeta.
    destruct (snd (Unmarshal rweccFields (Details i) zeroRwecc)).
    + apply post_ret. repeat split; constructor.
    + apply alert_post.
  - apply post_ret. repeat split; constructor.
Qed.

(** A message id the send returns is the answer of a post. *)
Lemma earlier_sendOutcome_posted (url key : string) (i : UnifiedIncident) w
    (m : string) evs (st : list Row) :
  Earlier.sendOutcome env url key i w (Ok m) evs st ->
  exists u p a, In (EPost u p a (Ok m)) evs.
Proof.
  unfold Earlier.sendOutcome, Earlier.posted. intros (_ & _ & Hsrc).
  destruct (String.eqb (Source i) "NCDOT");
    [|destruct (String.eqb (Source i) "RWECC")].
  - destruct (snd (Unmarshal ncdotFields (Details i) zeroNcdot)).
    + destruct Hsrc as [_ E]. discriminate.
    + destruct Hsrc as (_ & p & e & _ & Hp & _). eauto.
  - destruct (snd (Unmarshal rweccFields (Details i) zeroRwecc)).
    + destruct Hsrc as [_ E]. discriminate.
    + destruct Hsrc as (_ & p & e & _ & Hp & _). eauto.
  - destruct Hsrc as [_ E]. discriminate.
Qed.

(** A turn of the first loop for an incident not yet in the
    sent-state set: the set grows by the id exactly when the send
    returns a message id. *)
Lemma earlier_notifyStep_post (cfg : Config) (sentIDs : gmap Z bool)
    (i : UnifiedIncident) w :
  Earlier.sent sentIDs (ID i) = false ->
  post (Earlier.notifyStep env cfg sentIDs i) w (fun res evs st =>
    notifiedOne (ID i) (store w) evs st
    /\ ((exists m, In (ESend (ID i) (Ok m)) evs) /\ fst res = <[ID i := true]> sentIDs
        \/ (exists msg, In (ESend (ID i) (Err msg)) evs) /\ fst res = sentIDs)).
Proof.
  intros Hnew. unfold Earlier.notifyStep. rewrite Hnew. cbn [negb].
  apply post_bind, post_log. apply post_bind. cbn [store trace].
  eapply post_weaken; [apply earlier_sendDiscordAlert_post|].
  cbn [store trace]. intros r evs st Hout.
  pose proof Hout as (-> & Hin & _).
  apply post_bind, post_emit. cbn [store trace].
  destruct r as [m|e].
  - destruct (earlier_sendOutcome_posted _ _ _ _ _ _ _ Hout) as (u & p & a & Hp).
    apply post_bind, post_exec. cbn [store trace]. apply post_bind.
    set (x := exec_stmt env _ _).
    assert (Hfinal : forall tail tr,
      Forall inner tail ->
      post (bind (emit ESleep) (fun _ => ret (<[ID i := true]> sentIDs, true)))
        {| store := if is_ok x then apply_stmt (SetMessageID (ID i) m) (store w)
                    else store w;
           trace := tr |}
        (fun res evs' st' =>
           notifiedOne (ID i) (store w)
             ([ELog "Found new unified incident from %s (ID: %s). Sending alert."]
              ++ evs ++ [ESend (ID i) (Ok m)]
              ++ [EExec (SetMessageID (ID i) m) x] ++ tail ++ evs') st'
           /\ ((exists m0, In (ESend (ID i) (Ok m0))
                             ([ELog "Found new unified incident from %s (ID: %s). Sending alert."]
                              ++ evs ++ [ESend (ID i) (Ok m)]
                              ++ [EExec (SetMessageID (ID i) m) x] ++ tail ++ evs'))
               /\ fst res = <[ID i := true]> sentIDs
               \/ (exists msg, In (ESend (ID i) (Err msg))
                                 ([ELog "Found new unified incident from %s (ID: %s). Sending alert."]
                                  ++ evs ++ [ESend (ID i) (Ok m)]
                                  ++ [EExec (SetMessageID (ID i) m) x] ++ tail ++ evs'))
                  /\ fst res = sentIDs))).
    { intros tail tr Ht. apply post_bind, post_emit, post_ret. split.
      - exists ([ELog "Found new unified incident from %s (ID: %s). Sending alert."]
                ++ evs), (Ok m),
          ([EExec (SetMessageID (ID i) m) x] ++ tail ++ [ESleep] ++ []).
        split; [now rewrite <- !app_assoc|].
        split; [apply Forall_app; split; [repeat constructor|exact Hin]|].
        split; [exists u, p, a; apply in_or_app; right; exact Hp|].
        exists x, (tail ++ [ESleep] ++ []). split; [reflexivity|].
        split; [|reflexivity]. apply Forall_app. split; [exact Ht|repeat constructor].
      - left. split; [|reflexivity]. exists m.
        apply in_or_app. right. apply in_or_app. right. now left. }
    destruct (is_ok x) eqn:Hok.
    + apply post_ret. cbn [store trace].
      eapply post_weaken; [apply (Hfinal [] _); constructor|].
      intros b evs' st' Hn. cbn [app] in *. exact Hn.
    + apply post_log. cbn [store trace].
      eapply post_weaken;
        [apply (Hfinal [ELog "Error saving discord_message_id: %v"] _);
         repeat constructor|].
      intros b evs' st' Hn. cbn [app] in *. exact Hn.
  - apply post_bind, post_log, post_ret. cbn [store]. split.
    + exists ([ELog "Found new unified incident from %s (ID: %s). Sending alert."]
              ++ evs), (Err e), [ELog "Error sending Discord alert: %v"].
      split; [now rewrite <- !app_assoc|].
      split; [apply Forall_app; split; [repeat constructor|exact Hin]|].
      split; [repeat constructor|reflexivity].
    + right. split; [|reflexivity]. exists e.
      apply in_or_app. right. apply in_or_app. right. now left.
Qed.

Lemma earlier_notifyStep_skip (cfg : Config) (sentIDs : gmap Z bool)
    (i : UnifiedIncident) w :
  Earlier.sent sentIDs (ID i) = true ->
  Earlier.notifyStep env cfg sentIDs i w = ((sentIDs, false), w).
Proof. intros Hold. unfold Earlier.notifyStep. rewrite Hold. reflexivity. Qed.

End EarlierSend.

Section EarlierLoop.
Context `{Platform}.
Variable env : Env Earlier.DiscordWebhookPayload.
Implicit Types (w : World Earlier.DiscordWebhookPayload).
Implicit Types (evs : list (Event Earlier.DiscordWebhookPayload)).

Lemma unsentOf_insert (sentIDs : gmap Z bool) (id : Z) (rows : list UnifiedIncident) :
  ~ In id (map ID rows) ->
  Earlier.unsentOf (<[id := true]> sentIDs) rows = Earlier.unsentOf sentIDs rows.
Proof.
  intros Hnotin. apply filter_ext_in. intros i Hi. f_equal.
  unfold Earlier.sent. rewrite lookup_insert_ne; [reflexivity|].
  intros E. apply Hnotin. rewrite E. apply in_map, Hi.
Qed.

Lemma earlier_notifyLoop_post (cfg : Config) (rows : list UnifiedIncident)
    (sentIDs : gmap Z bool) (n : Z) w :
  NoDup (map ID rows) ->
  post (Earlier.notifyLoop env cfg rows sentIDs n) w (fun res evs st =>
    notifiedAll (map ID (Earlier.unsentOf sentIDs rows)) (store w) evs st
    /\ (forall id, (forall m, ~ In (ESend id (Ok m)) evs) ->
                   fst res !! id = sentIDs !! id)
    /\ (forall id m, In (ESend id (Ok m)) evs -> fst res !! id = Some true)).
Proof.
  revert sentIDs n w. induction rows as [|i rows IH]; intros sentIDs n w Hnd.
  - apply post_ret. split; [constructor; constructor|].
    split; [reflexivity|]. intros id m [].
  - apply NoDup_cons in Hnd. destruct Hnd as [Hnotin Hnd].
    rewrite list_elem_of_In in Hnotin.
    simpl. apply post_bind.
    destruct (Earlier.sent sentIDs (ID i)) eqn:Hsent; cbn [negb].
    + exists (sentIDs, false), [], (store w). split.
      * unfold runs. rewrite (earlier_notifyStep_skip _ _ _ _ _ Hsent), app_nil_r.
        now destruct w.
      * cbn [fst snd]. eapply post_weaken; [apply (IH _ _ _ Hnd)|].
        cbn [store app]. intros res evs st Hres. exact Hres.
    + eapply post_weaken; [apply (earlier_notifyStep_post _ _ _ _ _ Hsent)|].
      intros res evs st [H1 Hset].
      eapply post_weaken; [apply (IH _ _ _ Hnd)|].
      cbn [store trace]. intros res' evs' st' (Hall & Hsame & Hnew).
      assert (Hfilter : Earlier.unsentOf (fst res) rows = Earlier.unsentOf sentIDs rows).
      { destruct Hset as [[_ ->]|[_ ->]]; [apply unsentOf_insert, Hnotin|reflexivity]. }
      rewrite Hfilter in Hall.
      assert (Hrest_ids : forall a, ~ In (ESend (ID i) a) evs').
      { intros a Hin. apply in_sendIDs in Hin.
        rewrite (notifiedAll_sendIDs _ _ _ _ Hall) in Hin.
        apply Hnotin. apply in_map_iff in Hin. destruct Hin as (Y & E & HY).
        rewrite <- E. apply in_map. apply filter_In in HY. apply HY. }
      split; [simpl; econstructor; [exact H1|exact Hall]|]. split.
      * intros id Hno. rewrite Hsame.
        -- destruct Hset as [[(m & Hm) ->]|[_ ->]]; [|reflexivity].
           apply lookup_insert_ne. intros E. subst id.
           apply (Hno m). apply in_or_app. now left.
        -- intros m Hin. apply (Hno m). apply in_or_app. now right.
      * intros id m Hin. apply in_app_or in Hin. destruct Hin as [Hin|Hin].
        -- destruct (notifiedOne_send _ _ _ _ _ _ H1 Hin) as [-> _].
           rewrite Hsame; [|intros m' Hm'; exact (Hrest_ids _ Hm')].
           destruct Hset as [[_ ->]|[(msg & Hmsg) _]].
           ++ apply lookup_insert_eq.
           ++ pose proof (notifiedOne_send_unique _ _ _ _ _ _ _ _ H1 Hin Hmsg).
              discriminate.
        -- apply (Hnew _ _ Hin).
Qed.

Lemma earlier_pass1_post (cfg : Config) (sentIDs : gmap Z bool) w :
  NoDup (map ID (Earlier.queryActive (store w))) ->
  post (Earlier.pass1 env cfg sentIDs) w (fun res evs st =>
    notifiedAll (map ID (Earlier.unsentOf sentIDs (Earlier.queryActive (store w))))
      (store w) evs st
    /\ (forall id, (forall m, ~ In (ESend id (Ok m)) evs) ->
                   fst res !! id = sentIDs !! id)
    /\ (forall id m, In (ESend id (Ok m)) evs -> fst res !! id = Some true)).
Proof.
  intros Hnd. unfold Earlier.pass1. apply post_bind, post_query.
  apply post_bind. rewrite app_nil_r.
  destruct w as [st0 tr0]. cbn [store trace] in *.
  eapply post_weaken; [apply (earlier_notifyLoop_post _ _ _ _ _ Hnd)|].
  cbn [store trace]. intros res evs st (Hall & Hsame & Hnew).
  assert (Hclose : forall tail tr,
    Forall inner tail -> sendIDs tail = [] ->
    post (bind (log "Processed %d new alerts.") (fun _ => ret res))
      {| store := st; trace := tr |}
      (fun res' evs' st' =>
         notifiedAll (map ID (Earlier.unsentOf sentIDs (Earlier.queryActive st0)))
           st0 (evs ++ tail ++ evs') st'
         /\ (forall id, (forall m, ~ In (ESend id (Ok m)) (evs ++ tail ++ evs')) ->
                        fst res' !! id = sentIDs !! id)
         /\ (forall id m, In (ESend id (Ok m)) (evs ++ tail ++ evs') ->
                          fst res' !! id = Some true))).
  { intros tail tr Ht Hs. apply post_bind, post_log, post_ret. cbn [app].
    assert (Hno : forall id a, ~ In (ESend id a) (tail ++ [ELog "Processed %d new alerts."])).
    { intros id a Hin. apply in_sendIDs in Hin.
      rewrite sendIDs_app, Hs in Hin. destruct Hin. }
    split; [|split].
    - apply notifiedAll_tail; [exact Hall|].
      apply Forall_app. split; [exact Ht|repeat constructor].
    - intros id Hnone. apply Hsame. intros m Hin. apply (Hnone m).
      apply in_or_app. now left.
    - intros id m Hin. apply in_app_or in Hin.
      destruct Hin as [Hin|Hin]; [exact (Hnew _ _ Hin)|]. destruct (Hno _ _ Hin). }
  apply post_bind. destruct (0 <? snd res)%Z.
  - apply post_bind. unfold Earlier.saveSentIncidents. apply post_call.
    cbn [store trace]. set (saved := write_state env _ _).
    destruct (is_ok saved).
    + apply post_ret. cbn [store trace].
      eapply post_weaken;
        [apply (Hclose ([ESaveState (fst res) saved] ++ []) _);
         [repeat constructor|reflexivity]|].
      intros res' evs' st' Hres. rewrite <- !app_assoc in *. exact Hres.
    + apply post_log. cbn [store trace].
      eapply post_weaken;
        [apply (Hclose ([ESaveState (fst res) saved]
                        ++ [ELog "Error saving sent incidents file: %s"]) _);
         [repeat constructor|reflexivity]|].
      intros res' evs' st' Hres. rewrite <- !app_assoc in *. exact Hres.
  - apply post_ret. cbn [store trace].
    eapply post_weaken; [apply (Hclose [] _); [constructor|reflexivity]|].
    intros res' evs' st' Hres. exact Hres.
Qed.

End EarlierLoop.
(* ================================================================== *)
(** * A send that fails *)

Section EarlierPasses.
Context `{Platform}.
Variable env : Env Earlier.DiscordWebhookPayload.
Implicit Types (w : World Earlier.DiscordWebhookPayload).

Lemma earlier_queryActive_ids (st : list Row) :
  map ID (Earlier.queryActive st)
  = map rowID (List.filter (fun r => String.eqb (status r) "active") st).
Proof. unfold Earlier.queryActive. rewrite map_map. reflexivity. Qed.

Lemma earlier_queryActive_keeps (st st' : list Row) (X : UnifiedIncident) :
  In X (Earlier.queryActive st) ->
  (forall r, rowID r = ID X -> In r st -> In r st') ->
  In X (Earlier.queryActive st').
Proof.
  unfold Earlier.queryActive. rewrite !in_map_iff.
  intros (r & E & Hr) Hkeep. exists r. split; [exact E|].
  apply filter_In in Hr. destruct Hr as [Hr Hp]. apply filter_In.
  split; [|exact Hp]. apply Hkeep; [|exact Hr]. rewrite <- E. reflexivity.
Qed.

(** The earlier half of C3: the pass goes through every active row
    that is not in the sent-state set whatever the sends answer, and
    after a send that failed the id is not added to the set, no
    statement is made for the incident, its row is the same row and it
    is again a row of the query. *)
Lemma earlier_failed_send_keeps_state (cfg : Config) (sentIDs : gmap Z bool) w :
  NoDup (map rowID (store w)) ->
  let rows := Earlier.queryActive (store w) in
  let res := Earlier.pass1 env cfg sentIDs w in
  exists evs,
    trace (snd res) = trace w ++ evs
    /\ sendIDs evs = map ID (Earlier.unsentOf sentIDs rows)
    /\ forall X msg,
         In X rows -> In (ESend (ID X) (Err msg)) evs ->
         fst (fst res) !! ID X = sentIDs !! ID X
         /\ Earlier.sent (fst (fst res)) (ID X) = false
         /\ (forall m x, ~ In (EExec (SetMessageID (ID X) m) x) evs)
         /\ (forall r, rowID r = ID X -> (In r (store w) <-> In r (store (snd res))))
         /\ In X (Earlier.queryActive (store (snd res))).
Proof.
  intros Hnd rows res.
  assert (Hndq : NoDup (map ID rows)).
  { unfold rows. rewrite earlier_queryActive_ids. apply NoDup_map_filter, Hnd. }
  destruct (post_elim _ _ _ (earlier_pass1_post env cfg sentIDs w Hndq))
    as (evs & Ht & Hall & Hsame & _).
  fold res rows in Ht, Hall, Hsame. exists evs. split; [exact Ht|].
  pose proof (notifiedAll_sendIDs _ _ _ _ Hall) as Hs.
  split; [exact Hs|]. intros X msg HX Hfail.
  assert (Hndu : NoDup (map ID (Earlier.unsentOf sentIDs rows))).
  { unfold Earlier.unsentOf. apply NoDup_map_filter, Hndq. }
  pose proof (notifiedAll_failed _ _ _ _ _ _ Hall Hndu Hfail) as Hnone.
  assert (Hframe : forall r, rowID r = ID X ->
                             (In r (store w) <-> In r (store (snd res)))).
  { intros r Hid. apply (notifiedAll_frame _ _ _ _ _ Hall).
    intros m. rewrite Hid. apply Hnone. }
  assert (Hlook : fst (fst res) !! ID X = sentIDs !! ID X).
  { apply Hsame. intros m Hok.
    assert (Hiss : exists x, In (EExec (SetMessageID (ID X) m) x) evs)
      by apply (notifiedAll_issued _ _ _ _ _ _ Hall Hok).
    destruct Hiss as (x & Hx). exact (Hnone _ _ Hx). }
  split; [exact Hlook|]. split.
  - unfold Earlier.sent. rewrite Hlook.
    apply in_sendIDs in Hfail. rewrite Hs in Hfail.
    apply in_map_iff in Hfail. destruct Hfail as (Y & E & HY).
    apply filter_In in HY. destruct HY as [_ HY]. rewrite E in HY.
    now apply negb_true_iff in HY.
  - split; [exact Hnone|]. split; [exact Hframe|].
    apply (earlier_queryActive_keeps (store w)); [exact HX|].
    intros r Hid Hr. apply (Hframe r Hid), Hr.
Qed.

End EarlierPasses.

(** C3. In both programs the first pass makes a call for every
    incident it has to notify, in the order of the query and whatever the
    calls answer, so a failure stops nothing. After a call that failed
    the state of the incident is as before: no UPDATE is made for it and
    its row is unchanged, with a NULL message id in the later program
    and an id that is not added to the sent-state set in the earlier
    one; the incident is again a row of the query of the next pass. *)
Theorem C3_failed_send_leaves_incident_to_retry `{Platform}
    (later : Env Later.DiscordWebhookPayload)
    (earlier : Env Earlier.DiscordWebhookPayload)
    (cfg : Config) (sentIDs : gmap Z bool)
    (wl : World Later.DiscordWebhookPayload)
    (we : World Earlier.DiscordWebhookPayload) :
  notifyDiscord cfg <> "0" ->
  NoDup (map rowID (store wl)) ->
  NoDup (map rowID (store we)) ->
  (let rows := Later.queryNew (store wl) in
   let w1 := snd (Later.pass1 later cfg wl) in
   exists evs,
     trace w1 = trace wl ++ evs
     /\ sendIDs evs = map ID rows
     /\ forall X msg,
          In X rows -> In (ESend (ID X) (Err msg)) evs ->
          (forall m x, ~ In (EExec (SetMessageID (ID X) m) x) evs)
          /\ (forall r, rowID r = ID X -> (In r (store wl) <-> In r (store w1)))
          /\ messageIDOf (store w1) (ID X) = Some None
          /\ In X (Later.queryNew (store w1)))
  /\ (let rows := Earlier.queryActive (store we) in
      let res := Earlier.pass1 earlier cfg sentIDs we in
      exists evs,
        trace (snd res) = trace we ++ evs
        /\ sendIDs evs = map ID (Earlier.unsentOf sentIDs rows)
        /\ forall X msg,
             In X rows -> In (ESend (ID X) (Err msg)) evs ->
             fst (fst res) !! ID X = sentIDs !! ID X
             /\ Earlier.sent (fst (fst res)) (ID X) = false
             /\ (forall m x, ~ In (EExec (SetMessageID (ID X) m) x) evs)
             /\ (forall r, rowID r = ID X ->
                           (In r (store we) <-> In r (store (snd res))))
             /\ In X (Earlier.queryActive (store (snd res)))).
Proof.
  intros Hon Hl He. split.
  - apply (later_failed_send_keeps_state later cfg wl Hon Hl).
  - apply (earlier_failed_send_keeps_state earlier cfg sentIDs we He).
Qed.

(* ================================================================== *)
(** * The send, source by source *)

Section SendFacts.
Context `{Platform}.
Variable later : Env Later.DiscordWebhookPayload.
Variable earlier : Env Earlier.DiscordWebhookPayload.

(** A turn of the later loop whose send fails: the send, its record
    and a log line, and the incident is not counted. *)
Lemma later_notifyStep_failed (cfg : Config) (i : UnifiedIncident)
    (w : World Later.DiscordWebhookPayload) (e : string) :
  notifyDiscord cfg <> "0" ->
  let w0 := {| store := store w;
               trace := trace w ++ [ELog "Found new unified incident from %s (ID: %s).";
                                    ELog "Sending alert to Discord..."] |} in
  let sent := Later.sendDiscordAlert later (webhookURL cfg) (mapsAPIKey cfg) i w0 in
  fst sent = Err e ->
  Later.notifyStep later cfg i w
  = (false, {| store := store (snd sent);
               trace := trace (snd sent)
                        ++ [ESend (ID i) (Err e); ELog "Error sending Discord alert: %v"] |}).
Proof.
  intros Hon w0 sent Hfail.
  unfold Later.notifyStep, bind, log, emit, ret.
  apply String.eqb_neq in Hon. rewrite Hon. cbn [fst snd store trace].
  rewrite <- app_assoc. cbn [app]. fold w0. fold sent.
  destruct sent as [r w']. cbn [fst snd] in *. subst r.
  cbn [fst snd store trace]. rewrite <- app_assoc. reflexivity.
Qed.

(** The same for the earlier loop. *)
Lemma earlier_notifyStep_failed (cfg : Config) (sentIDs : gmap Z bool)
    (i : UnifiedIncident) (w : World Earlier.DiscordWebhookPayload) (e : string) :
  Earlier.sent sentIDs (ID i) = false ->
  let w0 := {| store := store w;
               trace := trace w
                 ++ [ELog "Found new unified incident from %s (ID: %s). Sending alert."] |} in
  let answer := Earlier.sendDiscordAlert earlier (webhookURL cfg) (mapsAPIKey cfg) i w0 in
  fst answer = Err e ->
  Earlier.notifyStep earlier cfg sentIDs i w
  = ((sentIDs, false),
     {| store := store (snd answer);
        trace := trace (snd answer)
                 ++ [ESend (ID i) (Err e); ELog "Error sending Discord alert: %v"] |}).
Proof.
  intros Hnew w0 answer Hfail.
  unfold Earlier.notifyStep, bind, log, emit, ret.
  rewrite Hnew. cbn [negb fst snd store trace]. fold w0. fold answer.
  destruct answer as [r w']. cbn [fst snd] in *. subst r.
  cbn [fst snd store trace]. rewrite <- app_assoc. reflexivity.
Qed.

(** A source that is none of the three: the later send asks for the
    cameras and the frame as for any incident that is not of the
    police, posts nothing and returns the error. *)
Lemma later_unknown_source (url key : string) (i : UnifiedIncident)
    (w : World Later.DiscordWebhookPayload) :
  Source i <> "NCDOT" -> Source i <> "RWECC" -> Source i <> "ArcGIS_Police" ->
  let res := Later.sendDiscordAlert later url key i w in
  fst res = Err ("unknown incident source: " ++ Source i)%string
  /\ store (snd res) = store w
  /\ exists evs, trace (snd res) = trace w ++ evs
                 /\ Forall inner evs /\ posts evs = [].
Proof.
  intros Hn Hr Ha res.
  destruct (sendDiscordAlert_post later url key i w)
    as (r & evs & st & Hrun & Hst & Hin & Hsrc).
  unfold runs in Hrun. fold res in Hrun.
  apply String.eqb_neq in Hn, Hr, Ha. rewrite Ha, Hn, Hr in Hsrc.
  cbn zeta in Hsrc. destruct Hsrc as (_ & _ & Hposts & ->).
  rewrite Hrun. cbn [fst snd store trace]. split; [reflexivity|].
  split; [exact Hst|]. exists evs. repeat split; assumption.
Qed.

Lemma earlier_unknown_source (url key : string) (i : UnifiedIncident)
    (w : World Earlier.DiscordWebhookPayload) :
  Source i <> "NCDOT" -> Source i <> "RWECC" ->
  Earlier.sendDiscordAlert earlier url key i w
  = (Err ("unknown incident source: " ++ Source i)%string, w).
Proof.
  intros Hn Hr. unfold Earlier.sendDiscordAlert, ret.
  apply String.eqb_neq in Hn, Hr. now rewrite Hn, Hr.
Qed.

Lemma inner_no_write {Payload} (evs : list (Event Payload)) (id : Z) (m : string)
    (x : Result unit) :
  Forall inner evs -> ~ In (EExec (SetMessageID id m) x) evs.
Proof.
  intros Hin Hx. rewrite Forall_forall in Hin.
  apply (Hin _ (proj2 (list_elem_of_In _ _) Hx)).
Qed.

(** C9. An incident whose source is none of the sources the program
    knows: the send returns the error naming the source and posts
    nothing, in both programs; the turn of the first loop that makes the
    send does not count the incident, writes no message id, leaves the
    table as it was and, in the earlier program, the sent-state set
    too. *)
Theorem C9_unknown_source_is_an_error (cfg : Config) (sentIDs : gmap Z bool)
    (i : UnifiedIncident)
    (wl : World Later.DiscordWebhookPayload)
    (we : World Earlier.DiscordWebhookPayload) :
  Source i <> "NCDOT" -> Source i <> "RWECC" ->
  let unknown := Err ("unknown incident source: " ++ Source i)%string in
  (Earlier.sendDiscordAlert earlier (webhookURL cfg) (mapsAPIKey cfg) i we
   = (unknown, we)
   /\ (Earlier.sent sentIDs (ID i) = false ->
       let res := Earlier.notifyStep earlier cfg sentIDs i we in
       fst res = (sentIDs, false)
       /\ store (snd res) = store we
       /\ exists evs, trace (snd res) = trace we ++ evs
                      /\ posts evs = []
                      /\ In (ESend (ID i) unknown) evs
                      /\ forall s x, ~ In (EExec s x) evs))
  /\ (Source i <> "ArcGIS_Police" ->
      (let res := Later.sendDiscordAlert later (webhookURL cfg) (mapsAPIKey cfg) i wl in
       fst res = unknown
       /\ store (snd res) = store wl
       /\ exists evs, trace (snd res) = trace wl ++ evs /\ posts evs = [])
      /\ (notifyDiscord cfg <> "0" ->
          let res := Later.notifyStep later cfg i wl in
          fst res = false
          /\ store (snd res) = store wl
          /\ messageIDOf (store (snd res)) (ID i) = messageIDOf (store wl) (ID i)
          /\ exists evs, trace (snd res) = trace wl ++ evs
                         /\ posts evs = []
                         /\ In (ESend (ID i) unknown) evs
                         /\ forall m x, ~ In (EExec (SetMessageID (ID i) m) x) evs)).
Proof.
  intros Hn Hr unknown. split.
  - split; [apply earlier_unknown_source; assumption|].
    intros Hnew res. unfold res.
    rewrite (earlier_notifyStep_failed cfg sentIDs i we
               ("unknown incident source: " ++ Source i) Hnew)
      by (rewrite earlier_unknown_source by assumption; reflexivity).
    rewrite earlier_unknown_source by assumption.
    cbn [fst snd store trace]. split; [reflexivity|]. split; [reflexivity|].
    eexists. split; [rewrite <- app_assoc; reflexivity|].
    cbn [app]. split; [reflexivity|]. split; [right; left; reflexivity|].
    intros s x [E|[E|[E|[]]]]; discriminate.
  - intros Ha. split.
    + destruct (later_unknown_source (webhookURL cfg) (mapsAPIKey cfg) i wl Hn Hr Ha)
        as (Hres & Hst & evs & Ht & _ & Hp).
      split; [exact Hres|]. split; [exact Hst|]. exists evs. split; assumption.
    + intros Hon res. unfold res.
      set (w0 := {| store := store wl;
                    trace := trace wl
                      ++ [ELog "Found new unified incident from %s (ID: %s).";
                          ELog "Sending alert to Discord..."] |}).
      destruct (later_unknown_source (webhookURL cfg) (mapsAPIKey cfg) i w0 Hn Hr Ha)
        as (Hres & Hst & evs & Ht & Hin & Hp).
      rewrite (later_notifyStep_failed cfg i wl _ Hon Hres).
      fold w0. cbn [fst snd store trace]. rewrite Hst, Ht.
      cbn [store trace w0]. split; [reflexivity|]. split; [reflexivity|].
      split; [reflexivity|].
      exists ([ELog "Found new unified incident from %s (ID: %s).";
               ELog "Sending alert to Discord..."]
              ++ evs ++ [ESend (ID i) unknown; ELog "Error sending Discord alert: %v"]).
      split; [rewrite <- !app_assoc; reflexivity|]. split.
      * rewrite !posts_app, Hp. reflexivity.
      * split.
        -- apply in_or_app. right. apply in_or_app. right. left. reflexivity.
        -- intros m x Hx. apply in_app_or in Hx.
           destruct Hx as [[E|[E|[]]]|Hx]; try discriminate.
           apply in_app_or in Hx. destruct Hx as [Hx|[E|[E|[]]]]; try discriminate.
           exact (inner_no_write _ _ _ _ Hin Hx).
Qed.


Lemma earlier_send_runs (url key : string) (i : UnifiedIncident)
    (w : World Earlier.DiscordWebhookPayload) :
  let res := Earlier.sendDiscordAlert earlier url key i w in
  exists evs, trace (snd res) = trace w ++ evs
              /\ Earlier.sendOutcome earlier url key i w (fst res) evs (store w).
Proof.
  intros res.
  destruct (earlier_sendDiscordAlert_post earlier url key i w)
    as (r & evs & st & Hrun & Hout).
  unfold runs in Hrun. fold res in Hrun. rewrite Hrun. cbn [fst snd trace].
  exists evs. split; [reflexivity|].
  pose proof Hout as (-> & _). exact Hout.
Qed.


(** The frame a capture returns is the file it names after the
    incident and the instant. *)
Lemma captureCameraImage_ok (id : Z) (cam : Camera)
    (w : World Later.DiscordWebhookPayload) (path name : string) :
  fst (Later.captureCameraImage later id cam w) = Ok (path, name) ->
  exists t,
    name = ("incident_" ++ itoa id ++ "_cam_" ++ formatStamp t ++ ".jpg")%string
    /\ path = filepathJoin TempDir name.
Proof.
  unfold Later.captureCameraImage, bind, log, call, emit, exec, now, ret.
  cbn.
  destruct (http_get later _ _) as [resp|e]; cbn; [|discriminate].
  destruct (StatusCode resp =? 200)%Z; cbn; [|discriminate].
  match goal with
  | |- context [create_file later ?tr ?p] =>
      destruct (create_file later tr p) as [[]|e]; cbn; [|discriminate]
  end.
  match goal with
  | |- context [copy_body later ?tr ?p] =>
      destruct (copy_body later tr p) as [[]|e]; cbn; [|discriminate]
  end.
  intros E. injection E as <- <-. eexists. split; reflexivity.
Qed.

(** What a capture returns, from the answers of the camera and of the
    file system. *)
Lemma captureCameraImage_answer (id : Z) (cam : Camera)
    (w : World Later.DiscordWebhookPayload) :
  let tr1 := trace w ++ [ELog "Capturing image from camera: %s"] in
  let got := http_get later tr1 (ImageURL cam) in
  let tr2 := tr1 ++ [EHttpGet (ImageURL cam) got] in
  let name := ("incident_" ++ itoa id ++ "_cam_" ++ formatStamp (clock later tr2)
               ++ ".jpg")%string in
  let path := filepathJoin TempDir name in
  let made := create_file later tr2 path in
  let copied := copy_body later (tr2 ++ [ECreate path made]) path in
  fst (Later.captureCameraImage later id cam w)
  = match got with
    | Err e => Err ("failed to download image: " ++ e)%string
    | Ok resp =>
        if (StatusCode resp =? 200)%Z then
          match made with
          | Err e => Err ("failed to create temp file: " ++ e)%string
          | Ok _ =>
              match copied with
              | Err e => Err ("failed to save image to file: " ++ e)%string
              | Ok _ => Ok (path, name)
              end
          end
        else Err ("received non-200 status code for image: " ++ Status resp)%string
    end.
Proof.
  intros tr1 got tr2 name path made copied.
  unfold Later.captureCameraImage, bind, log, call, emit, exec, now, ret.
  cbn [fst snd store trace]. fold tr1. fold got.
  destruct got as [resp|e] eqn:Eg; cbn [fst snd store trace]; [|reflexivity].
  destruct (StatusCode resp =? 200)%Z; cbn [negb fst snd store trace]; [|reflexivity].
  fold tr2 name path made.
  destruct made as [u|e] eqn:Em; cbn [fst snd store trace]; [|reflexivity].
  fold copied.
  destruct copied as [v|e] eqn:Ec; cbn [fst snd store trace]; [|reflexivity].
  reflexivity.
Qed.








End SendFacts.

(* ================================================================== *)
(** * The programs on the examples *)

(** The earlier program on the old-shape details of the RWECC example:
    the details decode, and the one payload posted has the problem in
    its title, the colour 3447003, the jurisdiction and no Weather
    Conditions field. *)
Lemma earlier_rwecc_on_legacy_shape `{Platform}
    (env : Env Earlier.DiscordWebhookPayload) (url key : string)
    (i : UnifiedIncident) (w : World Earlier.DiscordWebhookPayload) :
  Source i = "RWECC" -> Details i = rweccLegacy ->
  let res := Earlier.sendDiscordAlert env url key i w in
  exists evs p e,
    trace (snd res) = trace w ++ evs
    /\ posts evs = [(p, EmptyString)]
    /\ Earlier.Embeds p = [e]
    /\ Earlier.Title e = Earlier.rweccTitle "Water main break"
    /\ Contains (Earlier.Title e) "Water main break" = true
    /\ Earlier.Color e = 3447003%Z
    /\ fieldValue "Jurisdiction" (Earlier.Fields e) = Some "Raleigh"
    /\ hasField "Weather Conditions" (Earlier.Fields e) = false.
Proof.
  intros Hs Hd res.
  destruct (earlier_send_runs env url key i w) as (evs & Ht & _ & _ & Hout).
  fold res in Ht, Hout. exists evs.
  rewrite Hs in Hout. cbn [String.eqb Ascii.eqb Bool.eqb] in Hout.
  cbn zeta in Hout. rewrite Hd in Hout.
  assert (Hdec : Unmarshal rweccFields rweccLegacy zeroRwecc
                 = ({| Problem := "Water main break"; Jurisdiction := "Raleigh" |}, false))
    by (vm_compute; reflexivity).
  rewrite Hdec in Hout. cbn [fst snd Problem Jurisdiction] in Hout.
  destruct Hout as (_ & p & e & Hp & _ & He & Htitle & Hcolor & Hfields).
  exists p, e. split; [exact Ht|]. split; [exact Hp|]. split; [exact He|].
  split; [exact Htitle|]. split; [rewrite Htitle; vm_compute; reflexivity|].
  split; [exact Hcolor|]. rewrite Hfields. unfold nearbyCamerasField.
  destruct (0 <? length _)%nat; split; reflexivity.
Qed.



Lemma C3_witness :
  let a := sampleIncident 1 "NCDOT" ncdotNewShape None in
  let b := sampleIncident 2 "RWECC" rweccLegacy None in
  let st := [sampleRow a "active" None; sampleRow b "active" None] in
  let wl : @World samplePlatform Later.DiscordWebhookPayload :=
    {| store := st; trace := [] |} in
  let we : @World samplePlatform Earlier.DiscordWebhookPayload :=
    {| store := st; trace := [] |} in
  notifyDiscord (sampleConfig "1") <> "0"
  /\ NoDup (map rowID st)
  /\ (exists evs,
        trace (snd (Later.pass1 (sampleEnv false true) (sampleConfig "1") wl))
        = trace wl ++ evs
        /\ sendIDs evs = [1%Z; 2%Z])
  /\ (exists evs,
        trace (snd (Earlier.pass1 (sampleEnv false true) (sampleConfig "1") ∅ we))
        = trace we ++ evs
        /\ sendIDs evs = [1%Z; 2%Z]).
Proof.
  intros a b st wl we.
  assert (Hon : notifyDiscord (sampleConfig "1") <> "0") by discriminate.
  assert (Hnd : NoDup (map rowID st)).
  { apply NoDup_cons. split; [|apply NoDup_singleton].
    intros Hin. apply list_elem_of_singleton in Hin. discriminate. }
  split; [exact Hon|]. split; [exact Hnd|].
  destruct (@C3_failed_send_leaves_incident_to_retry samplePlatform
              (sampleEnv false true) (sampleEnv false true) (sampleConfig "1") ∅
              wl we Hon Hnd Hnd)
    as [(evl & Hl1 & Hl2 & _) (eve & He1 & He2 & _)].
  split.
  - exists evl. split; [exact Hl1|exact Hl2].
  - exists eve. split; [exact He1|exact He2].
Defined.


Lemma C9_witness :
  let i := sampleIncident 3 "WAZE" "{}" None in
  let we : @World samplePlatform Earlier.DiscordWebhookPayload :=
    {| store := [sampleRow i "active" None]; trace := [] |} in
  Source i <> "NCDOT"
  /\ Source i <> "RWECC"
  /\ Earlier.sendDiscordAlert (sampleEnv true true)
       (webhookURL (sampleConfig "1")) (mapsAPIKey (sampleConfig "1")) i we
     = (Err "unknown incident source: WAZE", we).
Proof.
  intros i we.
  assert (Hn : Source i <> "NCDOT") by discriminate.
  assert (Hr : Source i <> "RWECC") by discriminate.
  split; [exact Hn|]. split; [exact Hr|].
  exact (proj1 (proj1 (@C9_unknown_source_is_an_error samplePlatform
                         (sampleEnv true true) (sampleEnv true true)
                         (sampleConfig "1") ∅ i
                         {| store := []; trace := [] |} we Hn Hr))).
Defined.

(** One incident that is cleared with a message id, a webhook that
    accepts the edit and a store that refuses the UPDATE. The edit is
    counted, the column keeps the message id, and a second pass run at
    once edits the same message again. *)
Lemma C2_counterexample :
  let c := sampleIncident 2 "RWECC" rweccLegacy None in
  let w : @World samplePlatform Later.DiscordWebhookPayload :=
    {| store := [sampleRow c "cleared" (Some "msg-9")]; trace := [] |} in
  let r1 := Later.pass2 (sampleEnv true false) (sampleConfig "1") w in
  let w2 := snd (Later.pass2 (sampleEnv true false) (sampleConfig "1") (snd r1)) in
  map ID (Later.queryCleared (store w)) = [2%Z]
  /\ editIDs (trace (snd r1)) = [2%Z]
  /\ accepted (trace (snd r1)) = [2%Z]
  /\ statements (trace (snd r1)) = [(ClearMessageID 2%Z, Err "connection lost")]
  /\ fst r1 = 1%Z
  /\ messageIDOf (store (snd r1)) 2%Z = Some (Some "msg-9")
  /\ editIDs (trace w2) = [2%Z; 2%Z].
Proof. vm_compute. repeat split; reflexivity. Qed.

(** [filepath.Join] with a temporary directory that ends in a
    separator, and with one that does not. *)
Example filepathJoin_one_separator :
  filepathJoin "/tmp/vtmp/" "incident_7_cam_20250101000002.jpg"
  = "/tmp/vtmp/incident_7_cam_20250101000002.jpg"
  /\ filepathJoin "/tmp" "incident_7_cam_20250101000002.jpg"
     = "/tmp/incident_7_cam_20250101000002.jpg"
  /\ filepathJoin "/var/../tmp/./x//" "a.jpg" = "/tmp/x/a.jpg".
Proof. vm_compute. repeat split; reflexivity. Qed.

(** A state file that holds the text null: the first send is
    delivered, its message id is written, and the run panics before
    the second incident, with nothing saved. *)
Example earlier_null_state_file_panics :
  let a := sampleIncident 1 "NCDOT" (dq "{'reason':'Crash','severity':2}") None in
  let b := sampleIncident 2 "RWECC" rweccLegacy None in
  let w : @World samplePlatform Earlier.DiscordWebhookPayload :=
    {| store := [sampleRow a "active" None; sampleRow b "active" None]; trace := [] |} in
  let res := Earlier.run (sampleEnvWith (Some "null") true) (sampleConfig "1") w in
  fst res = Panicked "assignment to entry in nil map"
  /\ sendIDs (trace (snd res)) = [1%Z]
  /\ map fst (delivered (trace (snd res))) = [1%Z]
  /\ map (fun s => is_ok (snd s)) (statements (trace (snd res))) = [true]
  /\ saves (trace (snd res)) = []
  /\ messageIDOf (store (snd res)) 2%Z = Some None.
Proof. vm_compute. repeat split; reflexivity. Qed.

(** A store that refuses the SELECTs: both programs stop at the first
    one, before anything is sent. *)
Example refused_select_is_fatal :
  let a := sampleIncident 1 "NCDOT" ncdotNewShape None in
  let wl : @World samplePlatform Later.DiscordWebhookPayload :=
    {| store := [sampleRow a "active" None]; trace := [] |} in
  let we : @World samplePlatform Earlier.DiscordWebhookPayload :=
    {| store := [sampleRow a "active" None]; trace := [] |} in
  let rl := Later.run (sampleEnvWith None false) (sampleConfig "1") wl in
  let re := Earlier.run (sampleEnvWith None false) (sampleConfig "1") we in
  fst rl = Fatal "Error querying for new incidents: connection refused"
  /\ sendIDs (trace (snd rl)) = []
  /\ fst re = Fatal "Error querying for new incidents: connection refused"
  /\ sendIDs (trace (snd re)) = [].
Proof. vm_compute. repeat split; reflexivity. Qed.

(** A later send with cameras: the directory has four, three are asked
    for, the frame of the first is captured and attached, and the
    other two are linked. *)
Example later_send_with_cameras :
  let i := sampleIncident 1 "NCDOT" ncdotNewShape (Some 35%Z) in
  let w : @World samplePlatform Later.DiscordWebhookPayload :=
    {| store := [sampleRow i "active" None]; trace := [] |} in
  let res := Later.sendDiscordAlert (sampleEnv true true)
               (webhookURL (sampleConfig "1")) (mapsAPIKey (sampleConfig "1")) i w in
  fst res = Ok "msg-7"
  /\ cameraRequests (trace (snd res)) = [(35%Z, 35%Z, 3%Z)]
  /\ frameRequests (trace (snd res)) = ["http://cams/1.jpg"]
  /\ map snd (posts (trace (snd res))) = ["/tmp/incident_1_cam_20250101000002.jpg"]
  /\ map (fun pa => map (fun e => (ImageURL_ (Later.Image e),
                                   fieldValue "Other Live Cameras" (Later.Fields e)))
                        (Later.Embeds (fst pa)))
         (posts (trace (snd res)))
     = [[("attachment://incident_1_cam_20250101000002.jpg",
          Some (Join ["[cam-2](http://cams/2.jpg)"; "[cam-3](http://cams/3.jpg)"] nl))]].
Proof. vm_compute. repeat split; reflexivity. Qed.

(** A later send of details that are no JSON: the fallback is logged,
    the payload has the empty problem and jurisdiction, and it is
    posted. *)
Example later_send_unparsable_details :
  let i := sampleIncident 2 "RWECC" "not json" None in
  let w : @World samplePlatform Later.DiscordWebhookPayload :=
    {| store := [sampleRow i "active" None]; trace := [] |} in
  let res := Later.sendDiscordAlert (sampleEnv true true)
               (webhookURL (sampleConfig "1")) (mapsAPIKey (sampleConfig "1")) i w in
  fst res = Ok "msg-1"
  /\ map (fun pa => map (fun e => (Later.Title e, Later.Color e,
                                   fieldValue "Jurisdiction" (Later.Fields e)))
                        (Later.Embeds (fst pa)))
         (posts (trace (snd res)))
     = [[("🔵  🔵", 3447003%Z, Some EmptyString)]]
  /\ In (ELog (Later.fallbackLog "RWECC")) (trace (snd res)).
Proof.
  vm_compute. split; [reflexivity|]. split; [reflexivity|].
  repeat ((left; reflexivity) || right).
Qed.

(* ================================================================== *)
(** * More about runs and readings *)

Section MoreWorldFacts.
Context `{Platform} {Payload : Type}.
Implicit Types (w : World Payload) (e : Event Payload) (tr evs : list (Event Payload)).

(** A run gives one result: two facts about it hold together. *)
Lemma post_conj {A} (m : M (World Payload) A) w
    (Q Q' : A -> list (Event Payload) -> list Row -> Prop) :
  post m w Q -> post m w Q' -> post m w (fun a evs st => Q a evs st /\ Q' a evs st).
Proof.
  intros (a & evs & st & Hm & HQ) (a' & evs' & st' & Hm' & HQ').
  unfold runs in *. rewrite Hm in Hm'.
  injection Hm' as <- <- Ht. apply app_inv_head in Ht. subst evs'.
  exists a, evs, st. split; [exact Hm|]. split; assumption.
Qed.

(** What [post] gives of a run, as an equation. *)
Lemma post_runs {A} (m : M (World Payload) A) w
    (Q : A -> list (Event Payload) -> list Row -> Prop) :
  post m w Q ->
  exists evs,
    m w = (fst (m w), {| store := store (snd (m w)); trace := trace w ++ evs |})
    /\ Q (fst (m w)) evs (store (snd (m w))).
Proof.
  intros (a & evs & st & Hm & HQ). unfold runs in Hm. rewrite Hm.
  exists evs. split; [reflexivity|exact HQ].
Qed.

Lemma delivered_app tr evs : delivered (tr ++ evs) = delivered tr ++ delivered evs.
Proof. apply omap_app. Qed.
Lemma accepted_app tr evs : accepted (tr ++ evs) = accepted tr ++ accepted evs.
Proof. apply omap_app. Qed.
Lemma sleeps_app tr evs : sleeps (tr ++ evs) = sleeps tr ++ sleeps evs.
Proof. apply omap_app. Qed.
Lemma filesCreated_app tr evs :
  filesCreated (tr ++ evs) = filesCreated tr ++ filesCreated evs.
Proof. apply omap_app. Qed.
Lemma filesRemoved_app tr evs :
  filesRemoved (tr ++ evs) = filesRemoved tr ++ filesRemoved evs.
Proof. apply omap_app. Qed.
Lemma statements_app tr evs : statements (tr ++ evs) = statements tr ++ statements evs.
Proof. apply omap_app. Qed.
Lemma saves_app tr evs : saves (tr ++ evs) = saves tr ++ saves evs.
Proof. apply omap_app. Qed.
Lemma logLines_app tr evs : logLines (tr ++ evs) = logLines tr ++ logLines evs.
Proof. apply omap_app. Qed.

Lemma inner_delivered evs : Forall inner evs -> delivered evs = [].
Proof.
  induction 1 as [|e evs He _ IH]; [reflexivity|].
  destruct e; simpl in *; try contradiction; exact IH.
Qed.

Lemma inner_accepted evs : Forall inner evs -> accepted evs = [].
Proof.
  induction 1 as [|e evs He _ IH]; [reflexivity|].
  destruct e; simpl in *; try contradiction; exact IH.
Qed.

Lemma delivered_in evs (id : Z) (m : string) :
  In (id, m) (delivered evs) <-> In (ESend id (Ok m)) evs.
Proof.
  unfold delivered. rewrite <- !list_elem_of_In, list_elem_of_omap. split.
  - intros (e & He & Hm). destruct e; try discriminate.
    destruct r; try discriminate. now injection Hm as -> ->.
  - intros He. exists (ESend id (Ok m)). split; [exact He|reflexivity].
Qed.

Lemma accepted_in evs (id : Z) :
  In id (accepted evs) <-> exists url p, In (EEdit id url p (Ok tt)) evs.
Proof.
  unfold accepted. rewrite <- list_elem_of_In, list_elem_of_omap. split.
  - intros (e & He & Hm). destruct e; try discriminate.
    destruct r as [[]|]; try discriminate. injection Hm as ->.
    exists url, payload. apply list_elem_of_In, He.
  - intros (url & p & He). exists (EEdit id url p (Ok tt)).
    split; [apply list_elem_of_In, He|reflexivity].
Qed.

Lemma sendIDs_in evs (id : Z) :
  In id (sendIDs evs) <-> exists r, In (ESend id r) evs.
Proof.
  unfold sendIDs. rewrite <- list_elem_of_In, list_elem_of_omap. split.
  - intros (e & He & Hm). destruct e; try discriminate. injection Hm as ->.
    exists r. apply list_elem_of_In, He.
  - intros (r & He). exists (ESend id r). split; [apply list_elem_of_In, He|reflexivity].
Qed.

Lemma editIDs_in evs (id : Z) :
  In id (editIDs evs) <-> exists url p r, In (EEdit id url p r) evs.
Proof.
  unfold editIDs. rewrite <- list_elem_of_In, list_elem_of_omap. split.
  - intros (e & He & Hm). destruct e; try discriminate. injection Hm as ->.
    exists url, payload, r. apply list_elem_of_In, He.
  - intros (url & p & r & He). exists (EEdit id url p r).
    split; [apply list_elem_of_In, He|reflexivity].
Qed.

(** The summaries of the loops, read for what was delivered. *)
Lemma notifiedOne_delivered id st evs st' :
  notifiedOne id st evs st' ->
  exists r, In (ESend id r) evs
            /\ delivered evs = match r with Ok m => [(id, m)] | Err _ => [] end
            /\ editIDs evs = [].
Proof.
  intros (evs0 & r & tail & -> & H0 & Hr). exists r.
  split; [apply in_or_app; right; now left|].
  rewrite delivered_app, editIDs_app, (inner_delivered _ H0), (inner_editIDs _ H0).
  destruct r as [m|e].
  - destruct Hr as (_ & x & rest & -> & Hrest & _).
    change (ESend id (Ok m) :: EExec (SetMessageID id m) x :: rest)
      with ([ESend id (Ok m); EExec (SetMessageID id m) x] ++ rest).
    rewrite delivered_app, editIDs_app,
      (inner_delivered _ Hrest), (inner_editIDs _ Hrest). split; reflexivity.
  - destruct Hr as [Ht _].
    change (ESend id (Err e) :: tail) with ([ESend id (Err e)] ++ tail).
    rewrite delivered_app, editIDs_app,
      (inner_delivered _ Ht), (inner_editIDs _ Ht). split; reflexivity.
Qed.

Lemma notifiedAll_editIDs ids st evs st' :
  notifiedAll ids st evs st' -> editIDs evs = [].
Proof.
  induction 1 as [st evs Hin|id ids st evs st1 evs' st2 H1 _ IH].
  - apply inner_editIDs, Hin.
  - rewrite editIDs_app, IH.
    destruct (notifiedOne_delivered _ _ _ _ H1) as (_ & _ & _ & ->). reflexivity.
Qed.

Lemma editedOne_sendIDs (env : Env Payload) mk hook X tr st evs st' :
  editedOne env mk hook X tr st evs st' -> sendIDs evs = [].
Proof.
  intros (evs0 & tail & Hevs & H0 & Hr). cbn zeta in *. rewrite Hevs.
  rewrite sendIDs_app, (inner_sendIDs _ H0).
  destruct (patch_webhook env _ _ _) as [u|e].
  - destruct Hr as (x & rest & -> & Hrest & _).
    apply (inner_sendIDs _ Hrest).
  - destruct Hr as [Ht _]. apply (inner_sendIDs _ Ht).
Qed.

Lemma editedAll_sendIDs (env : Env Payload) mk hook rows tr st evs st' :
  editedAll env mk hook rows tr st evs st' -> sendIDs evs = [].
Proof.
  induction 1 as [tr st evs Hin|X rows tr st evs st1 evs' st2 H1 _ IH].
  - apply inner_sendIDs, Hin.
  - rewrite sendIDs_app, IH, (editedOne_sendIDs _ _ _ _ _ _ _ _ H1). reflexivity.
Qed.



End MoreWorldFacts.

(* ================================================================== *)
(** * The files of a send *)

Section LaterFiles.
Context `{Platform}.
Variable env : Env Later.DiscordWebhookPayload.
Implicit Types (w : World Later.DiscordWebhookPayload).
Implicit Types (evs : list (Event Later.DiscordWebhookPayload)).

Lemma Clean_nonempty (path : string) : nonempty (Clean path) = true.
Proof.
  unfold Clean. destruct path as [|c path]; [reflexivity|].
  destruct (is_char c 47); [reflexivity|].
  match goal with
  | |- context [match ?body with EmptyString => _ | String _ _ => _ end] =>
      destruct body; reflexivity
  end.
Qed.

(** [filepath.Join] of a directory and the name of a frame is a path. *)
Lemma nonempty_path (dir name : string) :
  nonempty (filepathJoin dir ("incident_" ++ name)) = true.
Proof.
  unfold filepathJoin. destruct dir; apply Clean_nonempty.
Qed.

Lemma logs_quiet (lines : list string) :
  filesCreated (map (@ELog _ Later.DiscordWebhookPayload) lines) = []
  /\ filesRemoved (map (@ELog _ Later.DiscordWebhookPayload) lines) = []
  /\ statements (map (@ELog _ Later.DiscordWebhookPayload) lines) = []
  /\ sleeps (map (@ELog _ Later.DiscordWebhookPayload) lines) = [].
Proof. induction lines; simpl; auto. Qed.

(** What a capture does with files and the store. *)
Lemma captureCameraImage_effects (id : Z) (cam : Camera) w :
  post (Later.captureCameraImage env id cam) w (fun r evs st =>
    sleeps evs = []
    /\ match r with
       | Ok (path, name) =>
           filesCreated evs = [path] /\ filesRemoved evs = []
           /\ exists x, statements evs = [(InsertCapture id (Name cam) path, x)]
       | Err _ => filesRemoved evs = filesCreated evs /\ statements evs = []
                  /\ (length (filesCreated evs) <= 1)%nat
       end).
Proof.
  unfold post, runs, Later.captureCameraImage, bind, log, call, emit, exec, now, ret.
  cbn.
  destruct (http_get env _ _) as [resp|e]; cbn;
    [|eexists _, _, _; split;
      [rewrite <- ?app_assoc; cbn [app]; reflexivity
      |repeat split; first [reflexivity | apply Nat.leb_le; reflexivity]]].
  destruct (StatusCode resp =? 200)%Z; cbn;
    [|eexists _, _, _; split;
      [rewrite <- ?app_assoc; cbn [app]; reflexivity
      |repeat split; first [reflexivity | apply Nat.leb_le; reflexivity]]].
  match goal with
  | |- context [create_file env ?tr ?p] =>
      destruct (create_file env tr p) as [[]|e]; cbn;
        [|eexists _, _, _; split;
          [rewrite <- ?app_assoc; cbn [app]; reflexivity
          |repeat split; first [reflexivity | apply Nat.leb_le; reflexivity]]]
  end.
  match goal with
  | |- context [copy_body env ?tr ?p] =>
      destruct (copy_body env tr p) as [[]|e]; cbn;
        [|eexists _, _, _; split;
          [rewrite <- ?app_assoc; cbn [app]; reflexivity
          |repeat split; first [reflexivity | apply Nat.leb_le; reflexivity]]]
  end.
  match goal with
  | |- context [exec_stmt env ?tr ?s] =>
      destruct (exec_stmt env tr s) as [[]|e]; cbn
  end;
    (eexists _, _, _; split;
      [rewrite <- ?app_assoc; cbn [app]; reflexivity
      |split; [reflexivity|]; split; [reflexivity|]; split; [reflexivity|];
       eexists; reflexivity]).
Qed.

Lemma nearbyCamerasOf_quiet (i : UnifiedIncident) w :
  post (Later.nearbyCamerasOf env i) w (fun _ evs st =>
    filesCreated evs = [] /\ filesRemoved evs = [] /\ statements evs = []
    /\ sleeps evs = []).
Proof.
  unfold Later.nearbyCamerasOf.
  destruct (Latitude i) as [lat|]; [destruct (Longitude i) as [lon|]|];
    try (apply post_ret; repeat split; reflexivity).
  apply post_bind, post_findNearbyCameras. intros r ->.
  destruct (cameras_by_distance env (trace w) lat lon) as [cams|e].
  - apply post_ret. repeat split; reflexivity.
  - apply post_bind, post_log, post_ret. repeat split; reflexivity.
Qed.

(** The frame a send works with is a file it has created and not
    removed, logged in one statement; without a frame nothing is left
    behind. *)
Lemma attachmentOf_effects (i : UnifiedIncident) (cams : list Camera) w :
  post (Later.attachmentOf env i cams) w (fun att evs st =>
    sleeps evs = []
    /\ if nonempty (fst att)
       then filesCreated evs = [fst att] /\ filesRemoved evs = []
            /\ exists cam x,
                 statements evs = [(InsertCapture (ID i) cam (fst att), x)]
       else filesRemoved evs = filesCreated evs /\ statements evs = []
            /\ (length (filesCreated evs) <= 1)%nat).
Proof.
  unfold Later.attachmentOf. destruct cams as [|nearest rest].
  - apply post_ret. repeat split; first [reflexivity | apply Nat.leb_le; reflexivity].
  - apply post_bind.
    pose proof (captureCameraImage_effects (ID i) nearest w) as Hc.
    destruct Hc as (a & evs & st & Hr & Hs & Ha).
    exists a, evs, st. split; [exact Hr|].
    destruct a as [[path name]|e].
    + apply post_ret. rewrite app_nil_r. cbn [fst].
      split; [exact Hs|].
      assert (Hne : nonempty path = true).
      { unfold runs in Hr.
        assert (E : fst (Later.captureCameraImage env (ID i) nearest w) = Ok (path, name))
          by now rewrite Hr.
        destruct (captureCameraImage_ok env _ _ _ _ _ E) as (t & -> & ->).
        apply nonempty_path. }
      rewrite Hne. destruct Ha as (Hc & Hrm & x & Hx).
      split; [exact Hc|]. split; [exact Hrm|]. exists (Name nearest), x. exact Hx.
    + apply post_bind, post_log, post_ret. cbn [fst app].
      rewrite !sleeps_app, !filesRemoved_app, !filesCreated_app, !statements_app, Hs.
      destruct Ha as (-> & -> & Hlen). rewrite !app_nil_r.
      repeat split; (reflexivity || exact Hlen).
Qed.

(** The events of a send of the later program for a source other than
    the police: the lookup, the capture, the logs and the post of the
    builder, then the removal of the frame. *)
Lemma later_send_shape (url key : string) (i : UnifiedIncident) w :
  String.eqb (Source i) "ArcGIS_Police" = false ->
  let near := Later.nearbyCamerasOf env i w in
  let got := Later.attachmentOf env i (fst near) (snd near) in
  let path := fst (fst got) in
  let res := Later.sendDiscordAlert env url key i w in
  exists evs3,
    res = (fst res,
           {| store := store (snd got);
              trace := trace (snd got) ++ evs3
                       ++ (if nonempty path then [ERemove path] else []) |})
    /\ (evs3 = []
        \/ exists lines p,
             evs3 = map ELog lines ++ [EPost (url ++ "?wait=true")%string p path (fst res)]).
Proof.
  intros Ha near got path res.
  unfold res, Later.sendDiscordAlert, bind. rewrite Ha. cbn [negb].
  fold near. fold got. fold path.
  clearbody path. clearbody got. clearbody near.
  destruct (String.eqb (Source i) "NCDOT");
    [|destruct (String.eqb (Source i) "RWECC")].
  - match goal with
    | |- context [Later.logs ?ls ?w0] =>
        destruct (post_runs _ _ _ (logs_post ls w0)) as (ev & E & Hst & Hev)
    end.
    rewrite Hst in E. rewrite E. cbn [fst snd]. unfold Later.postMultipartToWebhook, call.
    cbn [fst snd store trace]. unfold ret. cbn [fst snd store trace].
    match goal with
    | |- context [EPost ?u ?p ?a ?r] => exists (ev ++ [EPost u p a r])
    end.
    split.
    + destruct (nonempty path); cbn [fst snd store trace emit];
        rewrite <- !app_assoc; reflexivity.
    + right. rewrite Hev. eexists _, _.
      destruct (nonempty path); cbn [fst snd store trace emit]; reflexivity.
  - match goal with
    | |- context [Later.logs ?ls ?w0] =>
        destruct (post_runs _ _ _ (logs_post ls w0)) as (ev & E & Hst & Hev)
    end.
    rewrite Hst in E. rewrite E. cbn [fst snd]. unfold Later.postMultipartToWebhook, call.
    cbn [fst snd store trace]. unfold ret. cbn [fst snd store trace].
    match goal with
    | |- context [EPost ?u ?p ?a ?r] => exists (ev ++ [EPost u p a r])
    end.
    split.
    + destruct (nonempty path); cbn [fst snd store trace emit];
        rewrite <- !app_assoc; reflexivity.
    + right. rewrite Hev. eexists _, _.
      destruct (nonempty path); cbn [fst snd store trace emit]; reflexivity.
  - exists []. split; [|now left].
    unfold ret. cbn [fst snd app]. destruct got as [a [s t]].
    cbn [fst snd store trace].
    destruct (nonempty path); cbn [emit fst snd store trace];
      rewrite ?app_nil_r; reflexivity.
Qed.


(** The files, statements and posts of one send. *)
Lemma later_send_files (url key : string) (i : UnifiedIncident) w :
  let res := Later.sendDiscordAlert env url key i w in
  exists evs,
    trace (snd res) = trace w ++ evs
    /\ filesRemoved evs = filesCreated evs
    /\ (length (filesCreated evs) <= 1)%nat
    /\ sleeps evs = []
    /\ (forall s x, In (s, x) (statements evs) ->
          exists cam path, s = InsertCapture (ID i) cam path
                           /\ In path (filesRemoved evs))
    /\ (forall p a, In (p, a) (posts evs) ->
          exists pre,
            evs = pre ++ [EPost (url ++ "?wait=true")%string p a (fst res)]
                      ++ (if nonempty a then [ERemove a] else [])
            /\ posts pre = []
            /\ (nonempty a = true ->
                filesCreated pre = [a] /\ filesRemoved pre = [])).
Proof.
  intros res.
  destruct (String.eqb (Source i) "ArcGIS_Police") eqn:Ha.
  - unfold res, Later.sendDiscordAlert, bind. rewrite Ha. cbn [negb].
    match goal with
    | |- context [Later.logs ?ls ?w0] =>
        destruct (post_runs _ _ _ (logs_post ls w0)) as (ev & E & Hst & ->)
    end.
    rewrite Hst in E. rewrite E. cbn [fst snd]. unfold Later.postMultipartToWebhook, call.
    cbn [fst snd store trace].
    destruct (logs_quiet (snd (Later.buildArcGisPayload key i)))
      as (Hc & Hr & Hs & Hz).
    eexists. split; [rewrite <- app_assoc; reflexivity|].
    rewrite !filesRemoved_app, !filesCreated_app, !sleeps_app, !statements_app,
      !posts_app, Hc, Hr, Hs, Hz, posts_logs.
    cbn [app filesRemoved filesCreated sleeps statements posts omap length].
    split; [reflexivity|]. split; [apply Nat.leb_le; reflexivity|]. split; [reflexivity|].
    split; [intros s x []|].
    intros p a [E1|[]]. injection E1 as <- <-.
    exists (map ELog (snd (Later.buildArcGisPayload key i))).
    split; [reflexivity|].
    split; [apply posts_logs|]. intros Hne. discriminate.
  - pose proof (later_send_shape url key i w Ha) as Hshape. cbn zeta in Hshape.
    fold res in Hshape. destruct Hshape as (evs3 & Hres & Hevs3).
    destruct (post_runs _ _ _ (post_conj _ _ _ _
                (nearbyCamerasOf_post env i w) (nearbyCamerasOf_quiet i w)))
      as (evs1 & E1 & ((_ & _ & Hp1) & _) & Hc1 & Hr1 & Hs1 & Hz1).
    set (near := Later.nearbyCamerasOf env i w) in *.
    destruct (post_runs _ _ _ (post_conj _ _ _ _
                (attachmentOf_post env i (fst near) (snd near))
                (attachmentOf_effects i (fst near) (snd near))))
      as (evs2 & E2 & ((_ & _ & Hp2) & _) & Hz2 & Hatt).
    set (got := Later.attachmentOf env i (fst near) (snd near)) in *.
    set (path := fst (fst got)) in *.
    assert (Et : trace (snd got) = trace w ++ evs1 ++ evs2).
    { rewrite E2. cbn [snd trace]. rewrite E1. cbn [snd trace].
      now rewrite app_assoc. }
    rewrite Hres. cbn [fst snd trace]. rewrite Et.
    exists (evs1 ++ evs2 ++ evs3 ++ (if nonempty path then [ERemove path] else [])).
    split; [now rewrite <- !app_assoc|].
    assert (Hq3 : filesCreated evs3 = [] /\ filesRemoved evs3 = []
                  /\ statements evs3 = [] /\ sleeps evs3 = []).
    { destruct Hevs3 as [->|(lines & p & ->)]; [repeat split; reflexivity|].
      destruct (logs_quiet lines) as (Hc & Hr & Hs & Hz).
      rewrite filesCreated_app, filesRemoved_app, statements_app, sleeps_app,
        Hc, Hr, Hs, Hz. repeat split; reflexivity. }
    destruct Hq3 as (Hc3 & Hr3 & Hs3 & Hz3).
    rewrite !filesRemoved_app, !filesCreated_app, !sleeps_app, !statements_app,
      !posts_app, Hc1, Hr1, Hs1, Hz1, Hz2, Hc3, Hr3, Hs3, Hz3, Hp1, Hp2.
    cbn [app].
    assert (Hp4 : posts (if nonempty path then [ERemove path] else [])
                  = @nil (Later.DiscordWebhookPayload * string))
      by (destruct (nonempty path); reflexivity).
    rewrite Hp4, (app_nil_r (posts evs3)).
    assert (Hposts : forall p a,
      In (p, a) (posts evs3) ->
      a = path /\ exists lines,
        evs3 = map ELog lines ++ [EPost (url ++ "?wait=true")%string p path (fst res)]).
    { intros p a Hin.
      destruct Hevs3 as [->|(lines & p0 & ->)]; [destruct Hin|].
      rewrite posts_app, posts_logs in Hin. destruct Hin as [E|[]].
      injection E as <- <-. split; [reflexivity|]. exists lines. reflexivity. }
    destruct (nonempty path) eqn:Hne.
    + destruct Hatt as (Hc2 & Hr2 & cam & x & Hs2). rewrite Hc2, Hr2, Hs2.
      cbn [app filesRemoved filesCreated sleeps statements omap length].
      split; [reflexivity|]. split; [apply Nat.leb_le; reflexivity|]. split; [reflexivity|]. split.
      * intros s y [E|[]]. injection E as <- <-. exists cam, path.
        split; [reflexivity|now left].
      * intros p a Hin. destruct (Hposts p a Hin) as (-> & lines & ->).
        exists (evs1 ++ evs2 ++ map ELog lines). rewrite Hne.
        split; [now rewrite <- !app_assoc|].
        rewrite !posts_app, !filesCreated_app, !filesRemoved_app, Hp1, Hp2,
          posts_logs, Hc1, Hr1, Hc2, Hr2.
        destruct (logs_quiet lines) as (-> & -> & _).
        split; [reflexivity|]. intros _. split; reflexivity.
    + destruct Hatt as (Hr2 & Hs2 & Hlen). rewrite Hr2, Hs2, !app_nil_r.
      cbn [sleeps omap].
      split; [reflexivity|]. split; [exact Hlen|]. split; [reflexivity|]. split.
      * intros s y [].
      * intros p a Hin. destruct (Hposts p a Hin) as (-> & lines & ->).
        exists (evs1 ++ evs2 ++ map ELog lines). rewrite Hne.
        split; [now rewrite <- !app_assoc|].
        rewrite !posts_app, Hp1, Hp2, posts_logs.
        split; [reflexivity|]. intros E. discriminate.
Qed.


(** What a capture leaves behind. *)
Lemma captureCameraImage_summary (id : Z) (cam : Camera) w :
  let res := Later.captureCameraImage env id cam w in
  exists evs,
    trace (snd res) = trace w ++ evs
    /\ store (snd res) = store w
    /\ frameRequests evs = [ImageURL cam]
    /\ sleeps evs = []
    /\ match fst res with
       | Ok (path, name) =>
           (exists t,
               name = ("incident_" ++ itoa id ++ "_cam_" ++ formatStamp t ++ ".jpg")%string
               /\ path = filepathJoin TempDir name)
           /\ filesCreated evs = [path] /\ filesRemoved evs = []
           /\ exists x, statements evs = [(InsertCapture id (Name cam) path, x)]
       | Err _ =>
           filesRemoved evs = filesCreated evs /\ statements evs = []
           /\ (length (filesCreated evs) <= 1)%nat
       end.
Proof.
  intros res.
  destruct (post_elim _ _ _ (post_conj _ _ _ _
              (captureCameraImage_post env id cam w)
              (captureCameraImage_effects id cam w)))
    as (evs & Ht & ((Hst & _) & _ & Hf) & Hz & Hr).
  fold res in Ht, Hst, Hr. exists evs.
  split; [exact Ht|]. split; [exact Hst|]. split; [exact Hf|]. split; [exact Hz|].
  destruct (fst res) as [[path name]|e] eqn:E; [|exact Hr].
  split; [|exact Hr].
  destruct (captureCameraImage_ok env _ _ _ _ _ E) as (t & Hn & Hp). eauto.
Qed.

(** X1. Every file a send of the later program creates is removed
    before the send returns, and it creates at most one. The only
    statements a send makes log a capture, and the file such a statement
    names is among the removed ones. A post is the last event of the
    send but for the removal of the file it attaches, which was created
    and not removed before the post. A send never pauses. *)
Theorem later_send_cleans_up (url key : string) (i : UnifiedIncident) w :
  let res := Later.sendDiscordAlert env url key i w in
  exists evs,
    trace (snd res) = trace w ++ evs
    /\ filesRemoved evs = filesCreated evs
    /\ (length (filesCreated evs) <= 1)%nat
    /\ sleeps evs = []
    /\ (forall s x, In (s, x) (statements evs) ->
          exists cam path, s = InsertCapture (ID i) cam path
                           /\ In path (filesRemoved evs))
    /\ (forall p a, In (p, a) (posts evs) ->
          exists pre,
            evs = pre ++ [EPost (url ++ "?wait=true")%string p a (fst res)]
                      ++ (if nonempty a then [ERemove a] else [])
            /\ posts pre = []
            /\ (nonempty a = true ->
                filesCreated pre = [a] /\ filesRemoved pre = [])).
Proof. exact (later_send_files url key i w). Qed.

(** X2. A capture asks for the frame of its camera once and leaves the
    incidents as they are. When the camera answers 200, the file is
    created and the body is copied, it returns that file, which is
    [filepath.Join] of the temporary directory and a name made of the
    incident and the instant; the file is not removed, and one
    statement logs the capture with the name of the camera and the
    path, whatever the store answers to it. In every other case it
    returns an error, no file is left and no statement is made; an
    answer of the camera other than 200 is such a case, and no file
    is created for it. *)
Theorem later_capture_leaves_nothing_on_failure (id : Z) (cam : Camera) w :
  let res := Later.captureCameraImage env id cam w in
  let tr1 := trace w ++ [ELog "Capturing image from camera: %s"] in
  let got := http_get env tr1 (ImageURL cam) in
  let tr2 := tr1 ++ [EHttpGet (ImageURL cam) got] in
  let name := ("incident_" ++ itoa id ++ "_cam_" ++ formatStamp (clock env tr2)
               ++ ".jpg")%string in
  let path := filepathJoin TempDir name in
  let made := create_file env tr2 path in
  let copied := copy_body env (tr2 ++ [ECreate path made]) path in
  exists evs,
    trace (snd res) = trace w ++ evs
    /\ store (snd res) = store w
    /\ frameRequests evs = [ImageURL cam]
    /\ (if match got with
            | Ok resp => (StatusCode resp =? 200)%Z
            | Err _ => false
            end && is_ok made && is_ok copied
        then fst res = Ok (path, name)
             /\ filesCreated evs = [path] /\ filesRemoved evs = []
             /\ exists x, statements evs = [(InsertCapture id (Name cam) path, x)]
        else (exists msg, fst res = Err msg)
             /\ filesRemoved evs = filesCreated evs /\ statements evs = [])
    /\ (forall resp,
          got = Ok resp -> StatusCode resp <> 200%Z ->
          fst res = Err ("received non-200 status code for image: " ++ Status resp)%string
          /\ filesCreated evs = []).
Proof.
  intros res tr1 got tr2 name path made copied.
  destruct (captureCameraImage_summary id cam w) as (evs & Ht & Hst & Hf & _ & Hr).
  pose proof (captureCameraImage_answer env id cam w) as Ha. cbn zeta in Ha.
  fold res in Ht, Hst, Hr, Ha. fold tr1 got tr2 name path made copied in Ha.
  exists evs.
  split; [exact Ht|]. split; [exact Hst|]. split; [exact Hf|]. split.
  - rewrite Ha in Hr |- *.
    destruct got as [resp|e]; cbn [andb].
    + destruct (StatusCode resp =? 200)%Z; cbn [andb].
      * destruct made as [u|e]; cbn [is_ok andb].
        -- destruct copied as [v|e]; cbn [is_ok andb].
           ++ destruct Hr as (_ & Hc & Hrm & Hx). repeat split; assumption.
           ++ destruct Hr as (Hrm & Hs & _). split; [eexists; reflexivity|]. split; assumption.
        -- destruct Hr as (Hrm & Hs & _). split; [eexists; reflexivity|]. split; assumption.
      * destruct Hr as (Hrm & Hs & _). split; [eexists; reflexivity|]. split; assumption.
    + destruct Hr as (Hrm & Hs & _). split; [eexists; reflexivity|]. split; assumption.
  - intros resp Hget Hcode. revert Ht.
    unfold res, Later.captureCameraImage, bind, log, call, emit, ret.
    cbn [fst snd store trace]. fold tr1. fold got. rewrite Hget.
    apply Z.eqb_neq in Hcode. rewrite Hcode. cbn [negb fst snd store trace].
    unfold tr1. rewrite <- app_assoc. intros Ht. apply app_inv_head in Ht. subst evs.
    split; reflexivity.
Qed.

End LaterFiles.

(* ================================================================== *)
(** * What a run reports *)

Section LaterCounts.
Context `{Platform}.
Variable env : Env Later.DiscordWebhookPayload.
Implicit Types (w : World Later.DiscordWebhookPayload).
Implicit Types (evs : list (Event Later.DiscordWebhookPayload)).

(** A send, for the loop around it: it leaves the incidents alone and
    neither closes a send, edits, nor pauses. *)
Lemma later_send_aside (url key : string) (i : UnifiedIncident) w :
  let res := Later.sendDiscordAlert env url key i w in
  exists evs,
    res = (fst res, {| store := store w; trace := trace w ++ evs |})
    /\ Forall inner evs /\ sleeps evs = [].
Proof.
  intros res.
  destruct (post_runs _ _ _ (sendDiscordAlert_post env url key i w))
    as (evs & E & Hst & Hin & _).
  fold res in E, Hst. rewrite Hst in E.
  destruct (later_send_files env url key i w) as (evs' & Ht & _ & _ & Hz & _).
  fold res in Ht. rewrite E in Ht. cbn [snd trace] in Ht.
  apply app_inv_head in Ht. subst evs'.
  exists evs. split; [exact E|]. split; assumption.
Qed.

(** One turn of the first loop, as what it appends to the trace. *)
Lemma later_notifyStep_runs (cfg : Config) (i : UnifiedIncident) w :
  let res := Later.notifyStep env cfg i w in
  exists evs,
    trace (snd res) = trace w ++ evs
    /\ length (delivered evs) = (if fst res then 1 else 0)%nat
    /\ length (sleeps evs) = length (delivered evs)
    /\ editIDs evs = [] /\ accepted evs = []
    /\ (notifyDiscord cfg = "0" -> map ELog (logLines evs) = evs
                                   /\ store (snd res) = store w).
Proof.
  intros res. unfold res, Later.notifyStep, bind, log, emit, ret.
  destruct (String.eqb_spec (notifyDiscord cfg) "0") as [Edbg|Hon];
    cbn [fst snd store trace].
  - destruct (parse (Details i)); cbn [fst snd store trace];
      rewrite <- !app_assoc; (eexists; split; [reflexivity|]);
      repeat split; reflexivity.
  - rewrite <- app_assoc. cbn [app].
    set (w0 := {| store := store w; trace := _ |}).
    destruct (later_send_aside (webhookURL cfg) (mapsAPIKey cfg) i w0)
      as (evs0 & E & Hin & Hz).
    rewrite E. cbn [fst snd store trace].
    set (r := fst (Later.sendDiscordAlert env (webhookURL cfg) (mapsAPIKey cfg) i w0)).
    pose proof (inner_delivered _ Hin) as Hd0.
    pose proof (inner_editIDs _ Hin) as He0.
    pose proof (inner_accepted _ Hin) as Ha0.
    destruct r as [m|e]; unfold exec; cbn [fst snd store trace].
    + match goal with
      | |- context [exec_stmt env ?tr ?s] => destruct (exec_stmt env tr s) as [[]|e]
      end; cbn [is_ok fst snd store trace];
        unfold w0; cbn [trace]; rewrite <- !app_assoc;
        (eexists; split; [reflexivity|]);
        rewrite !delivered_app, !sleeps_app, !editIDs_app, !accepted_app,
          Hd0, Hz, He0, Ha0;
        (split; [reflexivity|]); (split; [reflexivity|]); (split; [reflexivity|]);
        (split; [reflexivity|]); intros E0; contradiction.
    + unfold w0; cbn [trace]; rewrite <- !app_assoc.
      eexists; split; [reflexivity|].
      rewrite !delivered_app, !sleeps_app, !editIDs_app, !accepted_app,
        Hd0, Hz, He0, Ha0.
      (split; [reflexivity|]); (split; [reflexivity|]); (split; [reflexivity|]);
        (split; [reflexivity|]); intros E0; contradiction.
Qed.


Lemma later_notifyLoop_runs (cfg : Config) (rows : list UnifiedIncident) (n : Z) w :
  let res := Later.notifyLoop env cfg rows n w in
  exists evs,
    trace (snd res) = trace w ++ evs
    /\ fst res = (n + Z.of_nat (length (delivered evs)))%Z
    /\ length (sleeps evs) = length (delivered evs)
    /\ editIDs evs = [] /\ accepted evs = []
    /\ (notifyDiscord cfg = "0" -> map ELog (logLines evs) = evs
                                   /\ store (snd res) = store w).
Proof.
  revert n w. induction rows as [|i rows IH]; intros n w res.
  - exists []. unfold res. cbn. rewrite app_nil_r, Z.add_0_r.
    repeat split; reflexivity.
  - unfold res. cbn [Later.notifyLoop]. unfold bind.
    destruct (later_notifyStep_runs cfg i w)
      as (evs1 & Ht1 & Hn1 & Hz1 & He1 & Ha1 & Hdbg1).
    set (r := Later.notifyStep env cfg i w) in *.
    destruct (IH (if fst r then (n + 1)%Z else n) (snd r))
      as (evs2 & Ht2 & Hn2 & Hz2 & He2 & Ha2 & Hdbg2).
    exists (evs1 ++ evs2).
    rewrite Ht2, Ht1, Hn2, !delivered_app, !sleeps_app, !editIDs_app, !accepted_app,
      !length_app, He1, He2, Ha1, Ha2, Hz1, Hz2, Hn1.
    split; [now rewrite app_assoc|]. split; [destruct (fst r); lia|].
    split; [reflexivity|]. split; [reflexivity|]. split; [reflexivity|].
    intros Hd. destruct (Hdbg1 Hd) as (Hl1 & Hst1).
    destruct (Hdbg2 Hd) as (Hl2 & Hst2).
    rewrite logLines_app, map_app, Hl1, Hl2, Hst2, Hst1. split; reflexivity.
Qed.

Lemma later_pass1_runs (cfg : Config) w :
  let res := Later.pass1 env cfg w in
  exists evs,
    trace (snd res) = trace w ++ evs
    /\ fst res = Z.of_nat (length (delivered evs))
    /\ length (sleeps evs) = length (delivered evs)
    /\ editIDs evs = [] /\ accepted evs = []
    /\ (notifyDiscord cfg = "0" -> map ELog (logLines evs) = evs
                                   /\ store (snd res) = store w).
Proof.
  intros res. unfold res, Later.pass1, bind, query, log, emit, ret.
  cbn [fst snd store trace].
  destruct (later_notifyLoop_runs cfg (Later.queryNew (store w)) 0 w)
    as (evs & Ht & Hn & Hz & He & Ha & Hdbg).
  exists (evs ++ [ELog "Processed %d new alerts."]).
  rewrite Ht, Hn, !delivered_app, !sleeps_app, !editIDs_app, !accepted_app,
    !length_app, He, Ha, Hz.
  split; [now rewrite app_assoc|]. split; [cbn; lia|].
  split; [reflexivity|]. split; [reflexivity|]. split; [reflexivity|].
  intros Hd. destruct (Hdbg Hd) as (Hl & Hst).
  rewrite logLines_app, map_app, Hl, Hst. split; reflexivity.
Qed.

(** One turn of the second loop. *)
Lemma later_clearStep_runs (cfg : Config) (X : UnifiedIncident) w :
  let res := Later.clearStep env cfg X w in
  exists evs,
    trace (snd res) = trace w ++ evs
    /\ length (accepted evs) = (if fst res then 1 else 0)%nat
    /\ length (sleeps evs) = length (accepted evs)
    /\ sendIDs evs = [] /\ delivered evs = [] /\ posts evs = [].
Proof.
  intros res.
  unfold res, Later.clearStep, Later.updateDiscordAlert, bind, log, emit, now, call,
    exec, ret.
  cbn [fst snd store trace].
  match goal with
  | |- context [patch_webhook env ?tr ?u ?p] =>
      destruct (patch_webhook env tr u p) as [[]|e]
  end; cbn [fst snd store trace].
  - match goal with
    | |- context [exec_stmt env ?tr ?s] => destruct (exec_stmt env tr s) as [[]|e]
    end; cbn [is_ok fst snd store trace]; rewrite <- !app_assoc;
      (eexists; split; [reflexivity|]); repeat split; reflexivity.
  - rewrite <- !app_assoc. eexists; split; [reflexivity|]. repeat split; reflexivity.
Qed.

Lemma later_clearLoop_runs (cfg : Config) (rows : list UnifiedIncident) (n : Z) w :
  let res := Later.clearLoop env cfg rows n w in
  exists evs,
    trace (snd res) = trace w ++ evs
    /\ fst res = (n + Z.of_nat (length (accepted evs)))%Z
    /\ length (sleeps evs) = length (accepted evs)
    /\ sendIDs evs = [] /\ delivered evs = [] /\ posts evs = [].
Proof.
  revert n w. induction rows as [|X rows IH]; intros n w res.
  - exists []. unfold res. cbn. rewrite app_nil_r, Z.add_0_r.
    repeat split; reflexivity.
  - unfold res. cbn [Later.clearLoop]. unfold bind.
    destruct (later_clearStep_runs cfg X w) as (evs1 & Ht1 & Hn1 & Hz1 & Hs1 & Hd1 & Hp1).
    set (r := Later.clearStep env cfg X w) in *.
    destruct (IH (if fst r then (n + 1)%Z else n) (snd r))
      as (evs2 & Ht2 & Hn2 & Hz2 & Hs2 & Hd2 & Hp2).
    exists (evs1 ++ evs2).
    rewrite Ht2, Ht1, Hn2, !accepted_app, !sleeps_app, !sendIDs_app, !delivered_app,
      !posts_app, !length_app, Hs1, Hs2, Hd1, Hd2, Hp1, Hp2, Hz1, Hz2, Hn1.
    split; [now rewrite app_assoc|]. split; [destruct (fst r); lia|].
    repeat split; reflexivity.
Qed.

Lemma later_pass2_runs (cfg : Config) w :
  let res := Later.pass2 env cfg w in
  exists evs,
    trace (snd res) = trace w ++ evs
    /\ fst res = Z.of_nat (length (accepted evs))
    /\ length (sleeps evs) = length (accepted evs)
    /\ sendIDs evs = [] /\ delivered evs = [] /\ posts evs = [].
Proof.
  intros res. unfold res, Later.pass2, bind, query, log, emit, ret.
  cbn [fst snd store trace].
  destruct (later_clearLoop_runs cfg (Later.queryCleared (store w)) 0 w)
    as (evs & Ht & Hn & Hz & Hs & Hd & Hp).
  exists (evs ++ [ELog "Processed %d cleared alerts."]).
  rewrite Ht, Hn, !accepted_app, !sleeps_app, !sendIDs_app, !delivered_app,
    !posts_app, !length_app, Hs, Hd, Hp, Hz.
  split; [now rewrite app_assoc|]. split; [cbn; lia|].
  repeat split; reflexivity.
Qed.


(** What the events of a list of logged lines are not. *)
Lemma only_logs evs :
  map ELog (logLines evs) = evs ->
  sendIDs evs = [] /\ posts evs = [] /\ statements evs = []
  /\ cameraRequests evs = [] /\ frameRequests evs = [].
Proof.
  intros <-. induction (logLines evs) as [|l ls IH]; [repeat split; reflexivity|].
  exact IH.
Qed.


(** When the store answers every SELECT, [run] is [main]. *)
Lemma later_run_answered (cfg : Config) w :
  (forall tr sql, query_rows env tr sql = Ok tt) ->
  Later.run env cfg w = Later.main env cfg w.
Proof.
  intros Hq. unfold Later.run, Later.main, bind, asks.
  destruct (negb (nonempty (webhookURL cfg))); [reflexivity|].
  cbn [fst snd]. rewrite Hq. cbn [fst snd]. rewrite Hq. reflexivity.
Qed.

(** X3. A run of the later program without a webhook address stops
    after its first log line. With one, a SELECT the store refuses
    ends the run: the first before anything is sent, the second after
    the first pass and before any edit. When both are answered the run
    completes whatever the sends and edits answer: it reports the
    number of sends that returned a message id and the number of edits
    the webhook accepted, every send comes before every edit, the
    second pass posts nothing, and the run pauses once for each
    incident it counts. *)
Theorem later_run_reports_what_succeeded (cfg : Config) w :
  let res := Later.run env cfg w in
  let w0 := {| store := store w; trace := trace w ++ [ELog "Using state file: %s"] |} in
  (webhookURL cfg = EmptyString ->
   res = (Fatal "Error: DISCORD_HOOK must be set", w0))
  /\ (webhookURL cfg <> EmptyString ->
      match query_rows env (trace w0) Later.selectNew with
      | Err e => res = (Fatal ("Error querying for new incidents: " ++ e)%string, w0)
      | Ok _ =>
          exists evs1,
            trace (snd (Later.pass1 env cfg w0)) = trace w0 ++ evs1
            /\ editIDs evs1 = [] /\ accepted evs1 = []
            /\ length (sleeps evs1) = length (delivered evs1)
            /\ match query_rows env (trace w0 ++ evs1) Later.selectCleared with
               | Err e =>
                   res = (Fatal ("Error querying for cleared incidents: " ++ e)%string,
                          snd (Later.pass1 env cfg w0))
               | Ok _ =>
                   exists evs2,
                     trace (snd res) = trace w0 ++ evs1 ++ evs2 ++ [ELog "Run complete."]
                     /\ fst res = Completed (Z.of_nat (length (delivered evs1)))
                                            (Z.of_nat (length (accepted evs2)))
                     /\ sendIDs evs2 = [] /\ delivered evs2 = [] /\ posts evs2 = []
                     /\ length (sleeps evs2) = length (accepted evs2)
               end
      end).
Proof.
  intros res w0. unfold res, Later.run, bind, log, emit, ret, asks.
  cbn [fst snd store trace]. fold w0. split.
  - intros ->. reflexivity.
  - intros Hurl. apply String.eqb_neq in Hurl. unfold nonempty. rewrite Hurl.
    cbn [negb fst snd store trace].
    change (trace w ++ [ELog "Using state file: %s"]) with (trace w0).
    destruct (query_rows env (trace w0) Later.selectNew) as [u|e]; [|reflexivity].
    destruct (later_pass1_runs cfg w0) as (evs1 & Ht1 & Hn1 & Hz1 & He1 & Ha1 & _).
    set (r1 := Later.pass1 env cfg w0) in *.
    exists evs1. split; [exact Ht1|]. split; [exact He1|]. split; [exact Ha1|].
    split; [exact Hz1|]. rewrite <- Ht1.
    destruct (query_rows env (trace (snd r1)) Later.selectCleared) as [v|e];
      [|reflexivity].
    destruct (later_pass2_runs cfg (snd r1)) as (evs2 & Ht2 & Hn2 & Hz2 & Hs2 & Hd2 & Hp2).
    set (r2 := Later.pass2 env cfg (snd r1)) in *.
    exists evs2. cbn [fst snd trace]. rewrite Ht2, Ht1, Hn1, Hn2.
    split; [now rewrite <- !app_assoc|]. repeat split; assumption.
Qed.

(** X4. With NOTIFY_DISCORD set to 0 the first pass only logs: it
    sends nothing, posts nothing, asks for no camera, makes no
    statement, leaves the incidents as they are and counts none. The
    second pass of the same run is not held back: it edits the message
    of every incident that is cleared with a message id. *)
Theorem later_debug_mode_only_holds_back_alerts (cfg : Config) w :
  notifyDiscord cfg = "0" ->
  (let res := Later.pass1 env cfg w in
   fst res = 0%Z /\ store (snd res) = store w
   /\ exists evs,
        trace (snd res) = trace w ++ evs
        /\ map ELog (logLines evs) = evs
        /\ sendIDs evs = [] /\ posts evs = [] /\ statements evs = []
        /\ cameraRequests evs = [] /\ frameRequests evs = [])
  /\ (webhookURL cfg <> EmptyString ->
      let res := Later.main env cfg w in
      exists evs,
        trace (snd res) = trace w ++ evs
        /\ sendIDs evs = [] /\ posts evs = []
        /\ editIDs evs = map ID (Later.queryCleared (store w))).
Proof.
  intros Hd. split.
  - intros res.
    destruct (later_pass1_runs cfg w) as (evs & Ht & Hn & _ & _ & _ & Hdbg).
    fold res in Ht, Hn, Hdbg. destruct (Hdbg Hd) as (Hl & Hst).
    destruct (only_logs _ Hl) as (Hs & Hp & Hx & Hc & Hf).
    assert (Hnone : delivered evs = []) by (rewrite <- Hl; clear; induction (logLines evs); auto).
    rewrite Hn, Hnone. split; [reflexivity|]. split; [exact Hst|].
    exists evs. repeat split; assumption.
  - intros Hurl res. unfold res, Later.main, bind, log, emit, ret.
    cbn [fst snd store trace].
    apply String.eqb_neq in Hurl. unfold nonempty. rewrite Hurl.
    cbn [negb fst snd store trace].
    set (w0 := {| store := store w; trace := trace w ++ [ELog "Using state file: %s"] |}).
    destruct (later_pass1_runs cfg w0) as (evs1 & Ht1 & _ & _ & He1 & _ & Hdbg).
    destruct (Hdbg Hd) as (Hl & Hst).
    destruct (only_logs _ Hl) as (Hs1 & Hp1 & _).
    set (r1 := Later.pass1 env cfg w0) in *.
    destruct (later_pass2_runs cfg (snd r1)) as (evs2 & Ht2 & _ & _ & Hs2 & _ & Hp2).
    destruct (post_elim _ _ _ (later_pass2_post env cfg (snd r1)))
      as (evs2' & Ht2' & Hall).
    rewrite Ht2 in Ht2'. apply app_inv_head in Ht2'. subst evs2'.
    pose proof (editedAll_editIDs _ _ _ _ _ _ _ _ Hall) as He2.
    rewrite Hst in He2. cbn [store w0] in He2.
    exists ([ELog "Using state file: %s"] ++ evs1 ++ evs2 ++ [ELog "Run complete."]).
    rewrite Ht2, Ht1. cbn [trace w0].
    split; [now rewrite <- !app_assoc|].
    rewrite !sendIDs_app, !posts_app, !editIDs_app, Hs1, Hs2, Hp1, Hp2, He1, He2.
    cbn. rewrite app_nil_r. repeat split; reflexivity.
Qed.

End LaterCounts.

(* ================================================================== *)
(** * An edit that fails *)

Section MoreEditFacts.
Context `{Platform} {Payload : Type}.
Variable env : Env Payload.
Variable mk : UnifiedIncident -> Time -> Payload.
Variable hook : string.
Implicit Types (st : list Row) (r : Row) (evs tr : list (Event Payload)).
Implicit Types (rows : list UnifiedIncident).

(** In one turn an edit that failed is followed by no statement. *)
Lemma editedOne_failed X tr st evs st' id url p (msg : string) :
  editedOne env mk hook X tr st evs st' -> In (EEdit id url p (Err msg)) evs ->
  id = ID X /\ st' = st /\ forall i x, ~ In (EExec (ClearMessageID i) x) evs.
Proof.
  intros (evs0 & tail & -> & H0 & Hr) Hin.
  apply in_app_or in Hin. destruct Hin as [Hin|[E|Hin]].
  - destruct (inner_in _ _ H0 Hin).
  - injection E as Hid _ _ Ha. rewrite Ha in Hr. destruct Hr as [Ht ->].
    split; [now symmetry|]. split; [reflexivity|].
    intros i x Hex. apply in_app_or in Hex. destruct Hex as [Hex|[Hex|Hex]].
    + destruct (inner_in _ _ H0 Hex).
    + discriminate.
    + destruct (inner_in _ _ Ht Hex).
  - exfalso. destruct (patch_webhook env _ _ _) as [u|e].
    + destruct Hr as (x & rest & -> & Hrest & _).
      destruct Hin as [Hin|Hin]; [discriminate|]. destruct (inner_in _ _ Hrest Hin).
    + destruct Hr as [Ht _]. destruct (inner_in _ _ Ht Hin).
Qed.

Lemma editedOne_exec X tr st evs st' i x :
  editedOne env mk hook X tr st evs st' -> In (EExec (ClearMessageID i) x) evs ->
  i = ID X.
Proof.
  intros (evs0 & tail & -> & H0 & Hr) Hin.
  apply in_app_or in Hin. destruct Hin as [Hin|[E|Hin]].
  - destruct (inner_in _ _ H0 Hin).
  - discriminate.
  - destruct (patch_webhook env _ _ _) as [u|e].
    + destruct Hr as (y & rest & -> & Hrest & _).
      destruct Hin as [E|Hin]; [now injection E|destruct (inner_in _ _ Hrest Hin)].
    + destruct Hr as [Ht _]. destruct (inner_in _ _ Ht Hin).
Qed.

Lemma editedAll_exec rows tr st evs st' i x :
  editedAll env mk hook rows tr st evs st' -> In (EExec (ClearMessageID i) x) evs ->
  In i (map ID rows).
Proof.
  induction 1 as [tr st evs Hin|X rows tr st evs st1 evs' st2 H1 _ IH]; intros Hex.
  - destruct (inner_in _ _ Hin Hex).
  - apply in_app_or in Hex. destruct Hex as [Hex|Hex].
    + left. symmetry. apply (editedOne_exec _ _ _ _ _ _ _ H1 Hex).
    + right. apply IH, Hex.
Qed.

Lemma in_editIDs evs id url p (a : Result unit) :
  In (EEdit id url p a) evs -> In id (editIDs evs).
Proof. intros Hin. apply editIDs_in. eauto. Qed.

(** With one turn for each id, an edit that failed is followed by no
    statement for its incident. *)
Lemma editedAll_failed rows tr st evs st' i url p (msg : string) :
  editedAll env mk hook rows tr st evs st' -> NoDup (map ID rows) ->
  In (EEdit i url p (Err msg)) evs ->
  forall x, ~ In (EExec (ClearMessageID i) x) evs.
Proof.
  induction 1 as [tr st evs Hin|X rows tr st evs st1 evs' st2 H1 Hrest IH];
    intros Hnd He x Hex.
  - destruct (inner_in _ _ Hin He).
  - cbn in Hnd. apply NoDup_cons in Hnd. destruct Hnd as [Hnotin Hnd'].
    rewrite list_elem_of_In in Hnotin.
    apply in_app_or in He. apply in_app_or in Hex. destruct He as [He|He].
    + destruct (editedOne_failed _ _ _ _ _ _ _ _ _ H1 He) as (Hi & _ & Hnone).
      destruct Hex as [Hex|Hex]; [exact (Hnone _ _ Hex)|].
      apply Hnotin. rewrite <- Hi. apply (editedAll_exec _ _ _ _ _ _ _ Hrest Hex).
    + assert (Hi : In i (map ID rows)).
      { rewrite <- (editedAll_editIDs _ _ _ _ _ _ _ _ Hrest).
        apply (in_editIDs _ _ _ _ _ He). }
      destruct Hex as [Hex|Hex].
      * apply Hnotin. rewrite <- (editedOne_exec _ _ _ _ _ _ _ H1 Hex). exact Hi.
      * exact (IH Hnd' He x Hex).
Qed.

(** A row whose id no accepted statement names is the same row before
    and after the loop. *)
Lemma editedOne_frame X tr st evs st' r :
  editedOne env mk hook X tr st evs st' ->
  ~ In (EExec (ClearMessageID (rowID r)) (Ok tt)) evs ->
  In r st <-> In r st'.
Proof.
  intros (evs0 & tail & -> & H0 & Hr) Hno.
  destruct (patch_webhook env _ _ _) as [u|e].
  - destruct Hr as (x & rest & -> & Hrest & ->).
    destruct x as [[]|e]; cbn [is_ok]; [|reflexivity].
    symmetry. apply clear_other_in. intros Heq. apply Hno.
    apply in_or_app. right. right. left. now rewrite Heq.
  - destruct Hr as [_ ->]. reflexivity.
Qed.

Lemma editedAll_frame rows tr st evs st' r :
  editedAll env mk hook rows tr st evs st' ->
  ~ In (EExec (ClearMessageID (rowID r)) (Ok tt)) evs ->
  In r st <-> In r st'.
Proof.
  induction 1 as [tr st evs Hin|X rows tr st evs st1 evs' st2 H1 _ IH]; intros Hno.
  - reflexivity.
  - rewrite <- IH.
    + apply (editedOne_frame _ _ _ _ _ _ H1).
      intros Hex. apply Hno. apply in_or_app. now left.
    + intros Hex. apply Hno. apply in_or_app. now right.
Qed.

(** In one turn at most one statement is made. *)
Lemma editedOne_exec_unique X tr st evs st' i (x y : Result unit) :
  editedOne env mk hook X tr st evs st' ->
  In (EExec (ClearMessageID i) x) evs -> In (EExec (ClearMessageID i) y) evs ->
  x = y.
Proof.
  intros (evs0 & tail & -> & H0 & Hr) Hx Hy.
  assert (Hhead : forall z, In (EExec (ClearMessageID i) z)
                              (evs0 ++ EEdit (ID X)
                                 (hook ++ "/messages/"
                                  ++ default EmptyString (DiscordMessageID X))%string
                                 (mk X (clock env (tr ++ evs0)))
                                 (patch_webhook env (tr ++ evs0)
                                    (hook ++ "/messages/"
                                     ++ default EmptyString (DiscordMessageID X))%string
                                    (mk X (clock env (tr ++ evs0)))) :: tail) ->
                            In (EExec (ClearMessageID i) z) tail).
  { intros z Hz. apply in_app_or in Hz. destruct Hz as [Hz|[Hz|Hz]].
    - destruct (inner_in _ _ H0 Hz).
    - discriminate.
    - exact Hz. }
  apply Hhead in Hx. apply Hhead in Hy.
  destruct (patch_webhook env _ _ _) as [u|e].
  - destruct Hr as (z & rest & -> & Hrest & _).
    destruct Hx as [Ex|Hx]; [|destruct (inner_in _ _ Hrest Hx)].
    destruct Hy as [Ey|Hy]; [|destruct (inner_in _ _ Hrest Hy)].
    injection Ex as _ <-. injection Ey as _ <-. reflexivity.
  - destruct Hr as [Ht _]. destruct (inner_in _ _ Ht Hx).
Qed.

(** With one turn for each id, at most one statement is made for an
    incident. *)
Lemma editedAll_exec_unique rows tr st evs st' i (x y : Result unit) :
  editedAll env mk hook rows tr st evs st' -> NoDup (map ID rows) ->
  In (EExec (ClearMessageID i) x) evs -> In (EExec (ClearMessageID i) y) evs ->
  x = y.
Proof.
  induction 1 as [tr st evs Hin|X rows tr st evs st1 evs' st2 H1 Hrest IH];
    intros Hnd Hx Hy.
  - destruct (inner_in _ _ Hin Hx).
  - cbn in Hnd. apply NoDup_cons in Hnd. destruct Hnd as [Hnotin Hnd'].
    rewrite list_elem_of_In in Hnotin.
    apply in_app_or in Hx. apply in_app_or in Hy.
    destruct Hx as [Hx|Hx], Hy as [Hy|Hy].
    + apply (editedOne_exec_unique _ _ _ _ _ _ _ _ H1 Hx Hy).
    + exfalso. apply Hnotin.
      rewrite <- (editedOne_exec _ _ _ _ _ _ _ H1 Hx).
      apply (editedAll_exec _ _ _ _ _ _ _ Hrest Hy).
    + exfalso. apply Hnotin.
      rewrite <- (editedOne_exec _ _ _ _ _ _ _ H1 Hy).
      apply (editedAll_exec _ _ _ _ _ _ _ Hrest Hx).
    + apply (IH Hnd' Hx Hy).
Qed.

Lemma clearsFollow_app tr evs evs' :
  clearsFollow env tr evs -> clearsFollow env (tr ++ evs) evs' ->
  clearsFollow env tr (evs ++ evs').
Proof.
  revert tr. induction evs as [|e evs IH]; intros tr Ha Hb.
  - rewrite app_nil_r in Hb. exact Hb.
  - cbn [app clearsFollow] in *. destruct Ha as [He Ha]. split.
    + destruct e; try exact I. destruct r as [u|msg]; [|exact I].
      destruct He as (rest' & ->). exists (rest' ++ evs'). reflexivity.
    + apply IH; [exact Ha|]. rewrite <- app_assoc. exact Hb.
Qed.

Lemma clearsFollow_inner tr evs : Forall inner evs -> clearsFollow env tr evs.
Proof.
  intros Hin. revert tr. induction Hin as [|e evs He _ IH]; intros tr; [exact I|].
  cbn [clearsFollow]. split; [|apply IH].
  destruct e; try exact I. destruct He.
Qed.

(** An accepted edit anywhere among the events has the statement right
    after it. *)
Lemma clearsFollow_at tr pre id url p (u : unit) rest :
  clearsFollow env tr (pre ++ EEdit id url p (Ok u) :: rest) ->
  exists rest',
    rest = EExec (ClearMessageID id)
             (exec_stmt env (tr ++ pre ++ [EEdit id url p (Ok u)]) (ClearMessageID id))
           :: rest'.
Proof.
  revert tr. induction pre as [|e pre IH]; intros tr Hf.
  - cbn [app clearsFollow] in Hf. destruct Hf as [He _]. exact He.
  - cbn [app clearsFollow] in Hf. destruct Hf as [_ Hf].
    apply IH in Hf. rewrite <- app_assoc in Hf. exact Hf.
Qed.

End MoreEditFacts.

Section LaterEdits.
Context `{Platform}.
Variable env : Env Later.DiscordWebhookPayload.
Implicit Types (w : World Later.DiscordWebhookPayload).

Lemma later_queryCleared_keeps (st st' : list Row) (X : UnifiedIncident) :
  In X (Later.queryCleared st) ->
  (forall r, rowID r = ID X -> In r st -> In r st') ->
  In X (Later.queryCleared st').
Proof.
  unfold Later.queryCleared. rewrite !in_map_iff.
  intros (r & E & Hr) Hkeep. exists r. split; [exact E|].
  apply filter_In in Hr. destruct Hr as [Hr Hp]. apply filter_In.
  split; [|exact Hp]. apply Hkeep; [|exact Hr]. rewrite <- E. reflexivity.
Qed.

Lemma later_queryCleared_message (st : list Row) (X : UnifiedIncident) :
  In X (Later.queryCleared st) ->
  exists r, In r st /\ rowID r = ID X /\ status r = "cleared"
            /\ DiscordMessageID (incident r) = DiscordMessageID X
            /\ DiscordMessageID X <> None.
Proof.
  unfold Later.queryCleared. rewrite in_map_iff.
  intros (r & <- & Hr). apply filter_In in Hr. destruct Hr as [Hr Hp].
  apply andb_prop in Hp. destruct Hp as [Hs Hm].
  exists r. cbn. split; [exact Hr|]. split; [reflexivity|].
  split; [now apply String.eqb_eq|]. split; [reflexivity|].
  now destruct (DiscordMessageID (incident r)).
Qed.

(** X5. The second pass of the later program edits for every incident
    that is cleared with a message id, in the order of the query,
    whatever the edits answer. After an edit that failed no statement
    is made for the incident: its row is unchanged, it keeps its
    message id, and it is a row of the second query again. After a
    statement the store accepted, a second pass run at once makes no
    edit for the incident. *)
Theorem later_failed_edit_is_retried (cfg : Config) w :
  NoDup (map rowID (store w)) ->
  let rows := Later.queryCleared (store w) in
  let w1 := snd (Later.pass2 env cfg w) in
  let w2 := snd (Later.pass2 env cfg w1) in
  exists evs evs2,
    trace w1 = trace w ++ evs /\ trace w2 = trace w1 ++ evs2
    /\ editIDs evs = map ID rows
    /\ (forall X url p msg,
          In X rows -> In (EEdit (ID X) url p (Err msg)) evs ->
          (forall x, ~ In (EExec (ClearMessageID (ID X)) x) evs)
          /\ (forall r, rowID r = ID X -> (In r (store w) <-> In r (store w1)))
          /\ messageIDOf (store w1) (ID X) = Some (DiscordMessageID X)
          /\ In X (Later.queryCleared (store w1)))
    /\ (forall id, In (EExec (ClearMessageID id) (Ok tt)) evs ->
                   ~ In id (editIDs evs2)).
Proof.
  intros Hnd rows w1 w2.
  destruct (post_elim _ _ _ (later_pass2_post env cfg w)) as (evs & Ht & Hall).
  destruct (post_elim _ _ _ (later_pass2_post env cfg w1)) as (evs2 & Ht2 & Hall2).
  fold w1 rows in Ht, Hall. fold w2 in Ht2, Hall2.
  exists evs, evs2. split; [exact Ht|]. split; [exact Ht2|].
  pose proof (editedAll_editIDs _ _ _ _ _ _ _ _ Hall) as He.
  split; [exact He|]. split.
  - intros X url p msg HX Hfail.
    assert (Hndq : NoDup (map ID rows)).
    { unfold rows. rewrite later_queryCleared_ids. apply NoDup_map_filter, Hnd. }
    pose proof (editedAll_failed _ _ _ _ _ _ _ _ _ _ _ _ Hall Hndq Hfail) as Hnone.
    assert (Hframe : forall r, rowID r = ID X ->
                               (In r (store w) <-> In r (store w1))).
    { intros r Hid. apply (editedAll_frame _ _ _ _ _ _ _ _ _ Hall).
      rewrite Hid. apply Hnone. }
    split; [exact Hnone|]. split; [exact Hframe|].
    destruct (later_queryCleared_message _ _ HX) as (r & Hr & Hid & _ & Hm & _).
    split.
    + apply messageIDOf_in.
      * destruct (editedAll_ids _ _ _ _ _ _ _ _ Hall) as [Hids _]. now rewrite Hids.
      * exists r. split; [apply (Hframe r Hid), Hr|]. split; assumption.
    + apply (later_queryCleared_keeps (store w)); [exact HX|].
      intros r0 Hid0 Hr0. apply (Hframe r0 Hid0), Hr0.
  - intros id Hex Hin.
    rewrite (editedAll_editIDs _ _ _ _ _ _ _ _ Hall2) in Hin.
    apply later_queryCleared_in in Hin.
    destruct Hin as (r & Hr & Hid & _ & Hm).
    apply Hm. apply (editedAll_cleared _ _ _ _ _ _ _ _ _ Hall Hex r Hr Hid).
Qed.

(** Every accepted edit of a turn is followed at once by its
    statement, with the answer of the store. *)
Lemma later_clearStep_follows (cfg : Config) (X : UnifiedIncident) w :
  post (Later.clearStep env cfg X) w (fun _ evs _ => clearsFollow env (trace w) evs).
Proof.
  unfold post, runs, Later.clearStep, Later.updateDiscordAlert, bind, log, emit, now,
    call, exec, ret.
  cbn [fst snd store trace].
  match goal with
  | |- context [patch_webhook env ?tr ?u ?p] =>
      destruct (patch_webhook env tr u p) as [[]|e]
  end; cbn [fst snd store trace].
  - match goal with
    | |- context [exec_stmt env ?tr ?s] =>
        remember (exec_stmt env tr s) as x eqn:Ex; destruct x as [[]|e]
    end; cbn [is_ok fst snd store trace]; rewrite <- !app_assoc;
      (eexists _, _, _; split; [reflexivity|]);
      cbn [app clearsFollow]; rewrite <- Ex; repeat split; eexists; reflexivity.
  - rewrite <- !app_assoc. eexists _, _, _. split; [reflexivity|].
    cbn [app clearsFollow]. repeat split.
Qed.

Lemma later_clearLoop_follows (cfg : Config) (rows : list UnifiedIncident) (n : Z) w :
  post (Later.clearLoop env cfg rows n) w (fun _ evs _ => clearsFollow env (trace w) evs).
Proof.
  revert n w. induction rows as [|X rows IH]; intros n w.
  - apply post_ret. exact I.
  - cbn [Later.clearLoop]. apply post_bind.
    eapply post_weaken; [apply later_clearStep_follows|].
    intros counted evs st H1.
    eapply post_weaken; [apply IH|].
    cbn [store trace]. intros _ evs' st' Hrest.
    apply clearsFollow_app; assumption.
Qed.

Lemma later_pass2_follows (cfg : Config) w :
  post (Later.pass2 env cfg) w (fun _ evs _ => clearsFollow env (trace w) evs).
Proof.
  unfold Later.pass2. apply post_bind, post_query.
  apply post_bind. rewrite app_nil_r.
  destruct w as [st0 tr0]. cbn [store trace].
  eapply post_weaken; [apply later_clearLoop_follows|].
  cbn [store trace]. intros n evs st Hall.
  apply post_bind, post_log, post_ret. cbn [app].
  apply clearsFollow_app; [exact Hall|]. cbn. auto.
Qed.

(** C2, as amended. One run of the second pass calls
    [updateDiscordAlert] exactly once for every incident that is
    cleared with a message id, in the order of the query. Each edit goes to the message of its incident
    and carries the cleared payload: the title with Incident Cleared
    between its marks, colour 3066993, the fields Source and Address,
    the footer text, and the instant the clock shows at the edit. An
    edit the webhook accepts is followed at once by the UPDATE that
    sets the message id of the incident to NULL, and what becomes of
    the column is the answer of the store to that UPDATE: when it
    accepts, the column is NULL and a second pass run at once makes no
    edit for the incident; when it refuses, the row is as it was and
    the second pass edits the message again. *)
Theorem C2_pass2_edits_each_cleared_incident_once (cfg : Config) w :
  let rows := Later.queryCleared (store w) in
  let w1 := snd (Later.pass2 env cfg w) in
  let w2 := snd (Later.pass2 env cfg w1) in
  exists evs evs2,
    trace w1 = trace w ++ evs /\ trace w2 = trace w1 ++ evs2
    /\ editIDs evs = map ID rows
    /\ (NoDup (map rowID (store w)) ->
        forall r, In r (store w) -> status r = "cleared" ->
                  DiscordMessageID (incident r) <> None ->
                  List.count_occ Z.eq_dec (editIDs evs) (rowID r) = 1%nat)
    /\ (forall pre id url p a rest,
          evs = pre ++ EEdit id url p a :: rest ->
          exists X t,
            In X rows /\ id = ID X
            /\ t = clock env (trace w ++ pre)
            /\ url = (webhookURL cfg ++ "/messages/"
                      ++ default EmptyString (DiscordMessageID X))%string
            /\ a = patch_webhook env (trace w ++ pre) url p
            /\ p = {| Later.Username := EmptyString; Later.AvatarURL := EmptyString;
                      Later.Embeds :=
                        [ {| Later.Title := "✅ Incident Cleared ✅";
                             Later.Color := 3066993;
                             Later.Fields :=
                               [ {| FName := "Source"; FValue := Source X;
                                    Inline := false |};
                                 {| FName := "Address"; FValue := Address X;
                                    Inline := false |} ];
                             Later.Footer :=
                               {| Text := "Incident no longer in active feed" |};
                             Later.ETimestamp := formatRFC3339 (UTC t);
                             Later.Thumbnail := {| ThumbnailURL := EmptyString |};
                             Later.Image := {| ImageURL_ := EmptyString |} |} ] |}
            /\ Contains "✅ Incident Cleared ✅" "Incident Cleared" = true)
    /\ (forall pre id url p rest,
          evs = pre ++ EEdit id url p (Ok tt) :: rest ->
          let x := exec_stmt env (trace w ++ pre ++ [EEdit id url p (Ok tt)])
                             (ClearMessageID id) in
          (exists rest', rest = EExec (ClearMessageID id) x :: rest')
          /\ match x with
             | Ok _ =>
                 (forall r, In r (store w1) -> rowID r = id ->
                            DiscordMessageID (incident r) = None)
                 /\ ~ In id (editIDs evs2)
             | Err _ =>
                 NoDup (map rowID (store w)) ->
                 (forall r, rowID r = id -> (In r (store w) <-> In r (store w1)))
                 /\ In id (editIDs evs2)
             end).
Proof.
  intros rows w1 w2.
  destruct (post_elim _ _ _ (post_conj _ _ _ _ (later_pass2_post env cfg w)
                               (later_pass2_follows cfg w)))
    as (evs & Ht & Hall & Hfol).
  destruct (post_elim _ _ _ (later_pass2_post env cfg w1)) as (evs2 & Ht2 & Hall2).
  fold w1 rows in Ht, Hall. fold w2 in Ht2, Hall2.
  exists evs, evs2. split; [exact Ht|]. split; [exact Ht2|].
  pose proof (editedAll_editIDs _ _ _ _ _ _ _ _ Hall) as He.
  pose proof (editedAll_editIDs _ _ _ _ _ _ _ _ Hall2) as He2.
  pose proof (editedAll_editsFrom _ _ _ _ _ _ _ _ Hall) as Hef.
  split; [exact He|]. split; [|split].
  - intros Hnd r Hr Hs Hm. rewrite He. apply count_once.
    + unfold rows. rewrite later_queryCleared_ids. apply NoDup_map_filter, Hnd.
    + apply later_queryCleared_in. exists r. auto.
  - intros pre id url p a rest ->.
    apply editsFrom_app in Hef. destruct Hef as [_ Hef]. simpl in Hef.
    destruct Hef as [(X & HX & -> & -> & -> & ->) _].
    exists X, (clock env (trace w ++ pre)). repeat split; auto.
  - intros pre id url p rest E x.
    rewrite E in Hfol. destruct (clearsFollow_at _ _ _ _ _ _ _ _ Hfol) as (rest' & Hrest).
    fold x in Hrest. split; [exists rest'; exact Hrest|].
    assert (Hin : In (EExec (ClearMessageID id) x) evs).
    { rewrite E, Hrest. apply in_or_app. right. right. left. reflexivity. }
    destruct x as [[]|msg] eqn:Ex.
    + split; [apply (editedAll_cleared _ _ _ _ _ _ _ _ _ Hall Hin)|].
      intros Hin2. rewrite He2 in Hin2.
      apply later_queryCleared_in in Hin2.
      destruct Hin2 as (r & Hr & Hid & _ & Hm).
      apply Hm. apply (editedAll_cleared _ _ _ _ _ _ _ _ _ Hall Hin r Hr Hid).
    + intros Hnd.
      assert (Hndq : NoDup (map ID rows)).
      { unfold rows. rewrite later_queryCleared_ids. apply NoDup_map_filter, Hnd. }
      assert (Hframe : forall r, rowID r = id ->
                                 (In r (store w) <-> In r (store w1))).
      { intros r Hid. apply (editedAll_frame _ _ _ _ _ _ _ _ _ Hall).
        rewrite Hid. intros Hok.
        pose proof (editedAll_exec_unique _ _ _ _ _ _ _ _ _ _ _ Hall Hndq Hin Hok).
        discriminate. }
      split; [exact Hframe|].
      rewrite E in Hef. apply editsFrom_app in Hef. destruct Hef as [_ Hef].
      simpl in Hef. destruct Hef as [(X & HX & -> & _) _].
      rewrite He2. apply in_map.
      apply (later_queryCleared_keeps (store w)); [exact HX|].
      intros r0 Hid0 Hr0. apply (Hframe r0 Hid0), Hr0.
Qed.

End LaterEdits.

Section EarlierEdits.
Context `{Platform}.
Variable env : Env Earlier.DiscordWebhookPayload.
Implicit Types (w : World Earlier.DiscordWebhookPayload).

Lemma earlier_updateDiscordAlert_post (hook messageID : string) (X : UnifiedIncident) w :
  post (Earlier.updateDiscordAlert env hook messageID X) w (fun r evs st =>
    let url := (hook ++ "/messages/" ++ messageID)%string in
    let p := Earlier.clearedPayload X (clock env (trace w)) in
    r = patch_webhook env (trace w) url p
    /\ evs = [EEdit (ID X) url p r] /\ st = store w).
Proof.
  unfold Earlier.updateDiscordAlert. apply post_bind, post_now.
  rewrite app_nil_r. destruct w as [st0 tr0]. cbn [store trace].
  apply post_call. auto.
Qed.

Lemma earlier_clearStep_post (cfg : Config) (X : UnifiedIncident) w :
  post (Earlier.clearStep env cfg X) w (fun _ evs st =>
    editedOne env Earlier.clearedPayload (webhookURL cfg) X (trace w) (store w) evs st).
Proof.
  unfold Earlier.clearStep. apply post_bind, post_log. apply post_bind.
  eapply post_weaken; [apply earlier_updateDiscordAlert_post|].
  cbn [store trace]. intros r evs st (Hr & -> & ->).
  unfold editedOne.
  destruct r as [u|e].
  - apply post_bind, post_exec. cbn [store trace]. apply post_bind.
    set (x := exec_stmt env _ _).
    assert (Hfinal : forall (tail tr : list (Event Earlier.DiscordWebhookPayload)) st1,
      Forall inner tail ->
      post (bind (emit ESleep) (fun _ => ret true)) {| store := st1; trace := tr |}
        (fun _ evs' st' =>
           st' = st1 /\ Forall inner (tail ++ evs'))).
    { intros tail tr st1 Ht. apply post_bind, post_emit, post_ret.
      split; [reflexivity|]. apply Forall_app. split; [exact Ht|repeat constructor]. }
    destruct (is_ok x) eqn:Hok.
    + apply post_ret. cbn [store trace].
      eapply post_weaken; [apply (Hfinal [] _ _); constructor|].
      cbn [app]. intros b evs' st' [-> Hin].
      eexists [ELog _], _. cbn zeta. rewrite <- Hr.
      split; [reflexivity|]. split; [repeat constructor|].
      exists x, evs'. rewrite Hok. auto.
    + apply post_log. cbn [store trace].
      eapply post_weaken;
        [apply (Hfinal [ELog "Error nullifying discord_message_id: %v"] _ _);
         repeat constructor|].
      intros b evs' st' [-> Hin].
      eexists [ELog _], _. cbn zeta. rewrite <- Hr.
      split; [reflexivity|]. split; [repeat constructor|].
      eexists x, _. rewrite Hok. split; [reflexivity|]. split; [exact Hin|reflexivity].
  - apply post_bind, post_log, post_ret. cbn [store trace].
    eexists [ELog _], _. cbn zeta. rewrite <- Hr.
    split; [reflexivity|]. split; repeat constructor.
Qed.

Lemma earlier_clearLoop_post (cfg : Config) (rows : list UnifiedIncident) (n : Z) w :
  post (Earlier.clearLoop env cfg rows n) w (fun _ evs st =>
    editedAll env Earlier.clearedPayload (webhookURL cfg) rows (trace w) (store w) evs st).
Proof.
  revert n w. induction rows as [|X rows IH]; intros n w.
  - apply post_ret. constructor. constructor.
  - simpl. apply post_bind.
    eapply post_weaken; [apply earlier_clearStep_post|].
    intros counted evs st H1.
    eapply post_weaken; [apply IH|].
    cbn [store trace]. intros _ evs' st' Hrest.
    econstructor; [exact H1|exact Hrest].
Qed.

Lemma earlier_pass2_post (cfg : Config) w :
  post (Earlier.pass2 env cfg) w (fun _ evs st =>
    editedAll env Earlier.clearedPayload (webhookURL cfg)
      (Earlier.queryCleared (store w)) (trace w) (store w) evs st).
Proof.
  unfold Earlier.pass2. apply post_bind, post_query.
  apply post_bind. rewrite app_nil_r.
  destruct w as [st0 tr0]. cbn [store trace].
  eapply post_weaken; [apply earlier_clearLoop_post|].
  cbn [store trace]. intros n evs st Hall.
  apply post_bind, post_log, post_ret. cbn [app].
  apply editedAll_tail; [exact Hall|repeat constructor].
Qed.

Lemma earlier_queryCleared_ids (st : list Row) :
  map ID (Earlier.queryCleared st)
  = map rowID (List.filter (fun r => String.eqb (status r) "cleared"
                                    && is_Some_b (DiscordMessageID (incident r))) st).
Proof. unfold Earlier.queryCleared. rewrite map_map. reflexivity. Qed.

Lemma earlier_queryCleared_in (st : list Row) (id : Z) :
  In id (map ID (Earlier.queryCleared st))
  <-> exists r, In r st /\ rowID r = id /\ status r = "cleared"
                /\ DiscordMessageID (incident r) <> None.
Proof.
  rewrite earlier_queryCleared_ids, in_map_iff. split.
  - intros (r & Hid & Hr). apply filter_In in Hr. destruct Hr as [Hr Hp].
    apply andb_prop in Hp. destruct Hp as [Hs Hm].
    exists r. split; [exact Hr|]. split; [exact Hid|].
    split; [now apply String.eqb_eq|]. now destruct (DiscordMessageID (incident r)).
  - intros (r & Hr & Hid & Hs & Hm). exists r. split; [exact Hid|].
    apply filter_In. split; [exact Hr|]. rewrite Hs.
    destruct (DiscordMessageID (incident r)); [reflexivity|contradiction].
Qed.

Lemma earlier_queryCleared_keeps (st st' : list Row) (X : UnifiedIncident) :
  In X (Earlier.queryCleared st) ->
  (forall r, rowID r = ID X -> In r st -> In r st') ->
  In X (Earlier.queryCleared st').
Proof.
  unfold Earlier.queryCleared. rewrite !in_map_iff.
  intros (r & E & Hr) Hkeep. exists r. split; [exact E|].
  apply filter_In in Hr. destruct Hr as [Hr Hp]. apply filter_In.
  split; [|exact Hp]. apply Hkeep; [|exact Hr]. rewrite <- E. reflexivity.
Qed.

(** X6. The second pass of the earlier program edits exactly once for
    every incident that is cleared with a message id, in the order of
    the query. Each edit goes to the message of its incident with the
    cleared payload of the earlier program: its title, colour 3066993,
    the fields Source and Address, the footer text, the instant of the
    edit and no user name. An edit the webhook accepts is followed by
    the statement that sets the message id to NULL, and once the store
    accepts it the column is NULL. After an edit that failed no
    statement is made for the incident, its row is unchanged and it is
    a row of the second query again. *)
Theorem earlier_pass2_edits_each_cleared_incident_once (cfg : Config) w :
  NoDup (map rowID (store w)) ->
  let rows := Earlier.queryCleared (store w) in
  let w1 := snd (Earlier.pass2 env cfg w) in
  exists evs,
    trace w1 = trace w ++ evs
    /\ editIDs evs = map ID rows
    /\ (forall r, In r (store w) -> status r = "cleared" ->
                  DiscordMessageID (incident r) <> None ->
                  List.count_occ Z.eq_dec (editIDs evs) (rowID r) = 1%nat)
    /\ (forall pre id url p a rest,
          evs = pre ++ EEdit id url p a :: rest ->
          exists X t,
            In X rows /\ id = ID X
            /\ t = clock env (trace w ++ pre)
            /\ url = (webhookURL cfg ++ "/messages/"
                      ++ default EmptyString (DiscordMessageID X))%string
            /\ a = patch_webhook env (trace w ++ pre) url p
            /\ p = {| Earlier.Username := EmptyString;
                      Earlier.AvatarURL := EmptyString;
                      Earlier.Embeds :=
                        [ {| Earlier.Title := Earlier.clearedTitle;
                             Earlier.Color := 3066993;
                             Earlier.Fields :=
                               [ {| FName := "Source"; FValue := Source X;
                                    Inline := false |};
                                 {| FName := "Address"; FValue := Address X;
                                    Inline := false |} ];
                             Earlier.Footer :=
                               {| Text := "Incident no longer in active feed" |};
                             Earlier.ETimestamp := formatRFC3339 (UTC t);
                             Earlier.Thumbnail :=
                               {| ThumbnailURL := EmptyString |} |} ] |})
    /\ (forall id url p, In (EEdit id url p (Ok tt)) evs ->
          exists x, In (EExec (ClearMessageID id) x) evs)
    /\ (forall id, In (EExec (ClearMessageID id) (Ok tt)) evs ->
          forall r, In r (store w1) -> rowID r = id ->
                    DiscordMessageID (incident r) = None)
    /\ (forall X url p msg,
          In X rows -> In (EEdit (ID X) url p (Err msg)) evs ->
          (forall x, ~ In (EExec (ClearMessageID (ID X)) x) evs)
          /\ (forall r, rowID r = ID X -> (In r (store w) <-> In r (store w1)))
          /\ In X (Earlier.queryCleared (store w1))).
Proof.
  intros Hnd rows w1.
  destruct (post_elim _ _ _ (earlier_pass2_post cfg w)) as (evs & Ht & Hall).
  fold w1 rows in Ht, Hall. exists evs. split; [exact Ht|].
  pose proof (editedAll_editIDs _ _ _ _ _ _ _ _ Hall) as He.
  assert (Hndq : NoDup (map ID rows)).
  { unfold rows. rewrite earlier_queryCleared_ids. apply NoDup_map_filter, Hnd. }
  split; [exact He|]. split; [|split; [|split; [|split]]].
  - intros r Hr Hs Hm. rewrite He. apply count_once; [exact Hndq|].
    apply earlier_queryCleared_in. exists r. auto.
  - intros pre id url p a rest ->.
    pose proof (editedAll_editsFrom _ _ _ _ _ _ _ _ Hall) as Hef.
    apply editsFrom_app in Hef. destruct Hef as [_ Hef]. simpl in Hef.
    destruct Hef as [(X & HX & -> & -> & -> & ->) _].
    exists X, (clock env (trace w ++ pre)). repeat split; auto.
  - intros id url p Hin.
    apply (editedAll_issued _ _ _ _ _ _ _ _ _ _ _ _ Hall Hin eq_refl).
  - intros id Hin. apply (editedAll_cleared _ _ _ _ _ _ _ _ _ Hall Hin).
  - intros X url p msg HX Hfail.
    pose proof (editedAll_failed _ _ _ _ _ _ _ _ _ _ _ _ Hall Hndq Hfail) as Hnone.
    assert (Hframe : forall r, rowID r = ID X ->
                               (In r (store w) <-> In r (store w1))).
    { intros r Hid. apply (editedAll_frame _ _ _ _ _ _ _ _ _ Hall).
      rewrite Hid. apply Hnone. }
    split; [exact Hnone|]. split; [exact Hframe|].
    apply (earlier_queryCleared_keeps (store w)); [exact HX|].
    intros r0 Hid0 Hr0. apply (Hframe r0 Hid0), Hr0.
Qed.

End EarlierEdits.

(* ================================================================== *)
(** * The first pass and the state file of the earlier program *)

Section EarlierCounts.
Context `{Platform}.
Variable env : Env Earlier.DiscordWebhookPayload.
Implicit Types (w : World Earlier.DiscordWebhookPayload).
Implicit Types (evs : list (Event Earlier.DiscordWebhookPayload)).

Lemma enrich_quiet (i : UnifiedIncident) (fields : list EmbedField) w :
  post (Earlier.enrich env i fields) w (fun _ evs _ =>
    sleeps evs = [] /\ saves evs = [] /\ statements evs = []).
Proof.
  unfold Earlier.enrich.
  destruct (Latitude i) as [lat|]; [destruct (Longitude i) as [lon|]|];
    try (apply post_ret; repeat split; reflexivity).
  apply post_bind, post_findNearbyCameras. intros r ->.
  destruct (cameras_by_distance env (trace w) lat lon) as [cams|e].
  - destruct (0 <? length _)%nat; apply post_ret; repeat split; reflexivity.
  - apply post_bind, post_log, post_ret. repeat split; reflexivity.
Qed.

Lemma earlier_send_quiet (url key : string) (i : UnifiedIncident) w :
  post (Earlier.sendDiscordAlert env url key i) w (fun _ evs _ =>
    sleeps evs = [] /\ saves evs = [] /\ statements evs = []).
Proof.
  assert (Halert : forall (k : list EmbedField -> Earlier.DiscordWebhookPayload) fields,
    post (bind (Earlier.enrich env i fields)
               (fun fs => Earlier.postToWebhook env url (k fs))) w
      (fun _ evs _ => sleeps evs = [] /\ saves evs = [] /\ statements evs = [])).
  { intros k fields. apply post_bind.
    eapply post_weaken; [apply enrich_quiet|].
    intros fs evs st (Hz & Hs & Hx). unfold Earlier.postToWebhook. apply post_call.
    rewrite sleeps_app, saves_app, statements_app, Hz, Hs, Hx.
    repeat split; reflexivity. }
  unfold Earlier.sendDiscordAlert.
  destruct (String.eqb (Source i) "NCDOT");
    [|destruct (String.eqb (Source i) "RWECC")].
  - unfold Earlier.sendNcdotAlert. cbn zeta.
    destruct (snd (Unmarshal ncdotFields (Details i) zeroNcdot)).
    + apply post_ret. repeat split; reflexivity.
    + apply (Halert (fun fs => _)).
  - unfold Earlier.sendRweccAlert. cbn zeta.
    destruct (snd (Unmarshal rweccFields (Details i) zeroRwecc)).
    + apply post_ret. repeat split; reflexivity.
    + apply (Halert (fun fs => _)).
  - apply post_ret. repeat split; reflexivity.
Qed.

Lemma earlier_send_aside (url key : string) (i : UnifiedIncident) w :
  let res := Earlier.sendDiscordAlert env url key i w in
  exists evs,
    res = (fst res, {| store := store w; trace := trace w ++ evs |})
    /\ Forall inner evs /\ sleeps evs = [] /\ saves evs = [] /\ statements evs = [].
Proof.
  intros res.
  destruct (post_runs _ _ _ (post_conj _ _ _ _
              (earlier_sendDiscordAlert_post env url key i w)
              (earlier_send_quiet url key i w)))
    as (evs & E & (Hst & Hin & _) & Hz & Hs & Hx).
  fold res in E, Hst. rewrite Hst in E.
  exists evs. split; [exact E|]. repeat split; assumption.
Qed.

(** The sent-state set after the sends that were delivered. *)
Lemma earlier_notifyStep_runs (cfg : Config) (sentIDs : gmap Z bool)
    (i : UnifiedIncident) w :
  let res := Earlier.notifyStep env cfg sentIDs i w in
  exists evs,
    trace (snd res) = trace w ++ evs
    /\ length (delivered evs) = (if snd (fst res) then 1 else 0)%nat
    /\ fst (fst res)
       = fold_left (fun m d => <[fst d := true]> m) (delivered evs) sentIDs
    /\ length (sleeps evs) = length (delivered evs)
    /\ saves evs = [] /\ editIDs evs = [] /\ accepted evs = [].
Proof.
  intros res. unfold res, Earlier.notifyStep.
  destruct (Earlier.sent sentIDs (ID i)); cbn [negb].
  - exists []. unfold ret. cbn. rewrite app_nil_r. repeat split; reflexivity.
  - unfold bind, log, emit, ret. cbn [fst snd store trace].
    set (w0 := {| store := store w; trace := _ |}).
    destruct (earlier_send_aside (webhookURL cfg) (mapsAPIKey cfg) i w0)
      as (evs0 & E & Hin & Hz & Hs & _).
    rewrite E. cbn [fst snd store trace].
    set (r := fst (Earlier.sendDiscordAlert env (webhookURL cfg) (mapsAPIKey cfg) i w0)).
    pose proof (inner_delivered _ Hin) as Hd0.
    pose proof (inner_editIDs _ Hin) as He0.
    pose proof (inner_accepted _ Hin) as Ha0.
    destruct r as [m|e]; unfold exec; cbn [fst snd store trace].
    + match goal with
      | |- context [exec_stmt env ?tr ?s] => destruct (exec_stmt env tr s) as [[]|e]
      end; cbn [is_ok fst snd store trace];
        unfold w0; cbn [trace]; rewrite <- !app_assoc;
        (eexists; split; [reflexivity|]);
        rewrite !delivered_app, !sleeps_app, !saves_app, !editIDs_app, !accepted_app,
          Hd0, Hz, Hs, He0, Ha0; repeat split; reflexivity.
    + unfold w0; cbn [trace]; rewrite <- !app_assoc.
      eexists; split; [reflexivity|].
      rewrite !delivered_app, !sleeps_app, !saves_app, !editIDs_app, !accepted_app,
        Hd0, Hz, Hs, He0, Ha0. repeat split; reflexivity.
Qed.

Lemma earlier_notifyLoop_runs (cfg : Config) (rows : list UnifiedIncident)
    (sentIDs : gmap Z bool) (n : Z) w :
  let res := Earlier.notifyLoop env cfg rows sentIDs n w in
  exists evs,
    trace (snd res) = trace w ++ evs
    /\ snd (fst res) = (n + Z.of_nat (length (delivered evs)))%Z
    /\ fst (fst res)
       = fold_left (fun m d => <[fst d := true]> m) (delivered evs) sentIDs
    /\ length (sleeps evs) = length (delivered evs)
    /\ saves evs = [] /\ editIDs evs = [] /\ accepted evs = [].
Proof.
  revert sentIDs n w. induction rows as [|i rows IH]; intros sentIDs n w res.
  - exists []. unfold res. cbn. rewrite app_nil_r, Z.add_0_r.
    repeat split; reflexivity.
  - unfold res. cbn [Earlier.notifyLoop]. unfold bind.
    destruct (earlier_notifyStep_runs cfg sentIDs i w)
      as (evs1 & Ht1 & Hn1 & Hm1 & Hz1 & Hs1 & He1 & Ha1).
    set (r := Earlier.notifyStep env cfg sentIDs i w) in *.
    destruct (IH (fst (fst r)) (if snd (fst r) then (n + 1)%Z else n) (snd r))
      as (evs2 & Ht2 & Hn2 & Hm2 & Hz2 & Hs2 & He2 & Ha2).
    exists (evs1 ++ evs2).
    rewrite Ht2, Ht1, Hn2, Hm2, Hm1, !delivered_app, !sleeps_app, !saves_app,
      !editIDs_app, !accepted_app, !length_app, fold_left_app,
      He1, He2, Ha1, Ha2, Hs1, Hs2, Hz1, Hz2, Hn1.
    split; [now rewrite app_assoc|]. split; [destruct (snd (fst r)); lia|].
    repeat split; reflexivity.
Qed.


Lemma earlier_pass1_runs (cfg : Config) (sentIDs : gmap Z bool) w :
  let res := Earlier.pass1 env cfg sentIDs w in
  let final := fst (fst res) in
  exists evs,
    let saved := write_state env (trace w ++ evs) final in
    trace (snd res)
    = trace w ++ evs
      ++ (if (0 <? snd (fst res))%Z
          then ESaveState final saved
               :: (if is_ok saved then []
                   else [ELog "Error saving sent incidents file: %s"])
          else [])
      ++ [ELog "Processed %d new alerts."]
    /\ snd (fst res) = Z.of_nat (length (delivered evs))
    /\ final = fold_left (fun m d => <[fst d := true]> m) (delivered evs) sentIDs
    /\ length (sleeps evs) = length (delivered evs)
    /\ saves evs = [] /\ editIDs evs = [] /\ accepted evs = [].
Proof.
  intros res final. unfold final, res, Earlier.pass1, bind, query.
  cbn [fst snd store trace].
  destruct (earlier_notifyLoop_runs cfg (Earlier.queryActive (store w)) sentIDs 0 w)
    as (evs & Ht & Hn & Hm & Hz & Hs & He & Ha).
  set (r := Earlier.notifyLoop env cfg (Earlier.queryActive (store w)) sentIDs 0 w) in *.
  exists evs. cbn zeta.
  assert (Hgoal : forall V : Prop,
    V -> V /\ snd (fst r) = Z.of_nat (length (delivered evs))
         /\ fst (fst r)
            = fold_left (fun m d => <[fst d := true]> m) (delivered evs) sentIDs
         /\ length (sleeps evs) = length (delivered evs)
         /\ saves evs = [] /\ editIDs evs = [] /\ accepted evs = []).
  { intros V HV. split; [exact HV|]. rewrite Hn. repeat split; auto. }
  destruct (0 <? snd (fst r))%Z eqn:Hpos.
  - unfold Earlier.saveSentIncidents, call, log, emit, ret.
    cbn [fst snd store trace]. rewrite Ht.
    destruct (write_state env (trace w ++ evs) (fst (fst r))) as [[]|e];
      cbn [is_ok fst snd store trace]; rewrite Hpos; apply Hgoal;
      rewrite <- !app_assoc; reflexivity.
  - unfold log, emit, ret. cbn [fst snd store trace]. rewrite Ht, Hpos.
    apply Hgoal. rewrite <- !app_assoc. reflexivity.
Qed.

Lemma fold_insert_lookup (l : list (Z * string)) (m : gmap Z bool) (id : Z) :
  fold_left (fun m d => <[fst d := true]> m) l m !! id
  = if in_dec Z.eq_dec id (map fst l) then Some true else m !! id.
Proof.
  revert m. induction l as [|d l IH]; intros m; cbn [fold_left map].
  - destruct (in_dec _ _ _) as [[]|]; reflexivity.
  - rewrite IH. destruct (in_dec Z.eq_dec id (map fst l)) as [Hin|Hnin].
    + destruct (in_dec _ _ _) as [_|Hn]; [reflexivity|]. exfalso. apply Hn. now right.
    + destruct (in_dec _ _ _) as [[E|Hin]|Hn].
      * rewrite <- E. apply lookup_insert_eq.
      * contradiction.
      * apply lookup_insert_ne. intros E. apply Hn. now left.
Qed.

(** The whole first pass: the loop, then the write of the state file. *)
Lemma earlier_pass1_whole (cfg : Config) (sentIDs : gmap Z bool) w :
  let res := Earlier.pass1 env cfg sentIDs w in
  let final := fst (fst res) in
  exists evs,
    trace (snd res) = trace w ++ evs
    /\ snd (fst res) = Z.of_nat (length (delivered evs))
    /\ final = fold_left (fun m d => <[fst d := true]> m) (delivered evs) sentIDs
    /\ length (sleeps evs) = length (delivered evs)
    /\ editIDs evs = [] /\ accepted evs = []
    /\ match delivered evs with
       | [] => saves evs = []
       | _ :: _ =>
           exists pre post,
             evs = pre ++ ESaveState final (write_state env (trace w ++ pre) final)
                       :: post
             /\ delivered pre = delivered evs /\ sendIDs post = []
             /\ saves pre = [] /\ saves post = []
       end.
Proof.
  intros res final.
  destruct (earlier_pass1_runs cfg sentIDs w)
    as (evs & Ht & Hn & Hm & Hz & Hs & He & Ha).
  cbn zeta in Ht. fold res in Ht, Hn, Hm. fold final in Ht, Hm.
  set (saved := write_state env (trace w ++ evs) final) in *.
  set (tail := (if (0 <? snd (fst res))%Z
                then ESaveState final saved
                     :: (if is_ok saved then []
                         else [ELog "Error saving sent incidents file: %s"])
                else []) ++ [ELog "Processed %d new alerts."]) in *.
  assert (Hq : delivered tail = [] /\ sleeps tail = [] /\ editIDs tail = []
               /\ accepted tail = []).
  { unfold tail. destruct (0 <? _)%Z; [destruct (is_ok saved)|];
      repeat split; reflexivity. }
  destruct Hq as (Hd1 & Hz1 & He1 & Ha1).
  exists (evs ++ tail). split; [exact Ht|].
  rewrite delivered_app, sleeps_app, editIDs_app, accepted_app,
    Hd1, Hz1, He1, Ha1, He, Ha, !app_nil_r.
  split; [exact Hn|]. split; [exact Hm|]. split; [exact Hz|].
  split; [reflexivity|]. split; [reflexivity|].
  unfold tail. rewrite Hn.
  destruct (delivered evs) as [|d ds] eqn:Hdel.
  - cbn. rewrite saves_app, Hs. reflexivity.
  - cbn [length]. replace (0 <? Z.of_nat (S (length ds)))%Z with true
      by (symmetry; apply Z.ltb_lt; lia).
    exists evs, ((if is_ok saved then []
                  else [ELog "Error saving sent incidents file: %s"])
                 ++ [ELog "Processed %d new alerts."]).
    split; [reflexivity|]. split; [exact Hdel|].
    split; [destruct (is_ok saved); reflexivity|].
    split; [exact Hs|destruct (is_ok saved); reflexivity].
Qed.

(** X7. The first pass of the earlier program reports the number of
    sends that returned a message id and ends with the sent-state set
    it started with and the incidents of those sends in it, whatever
    the store answered to the statements. It writes the state file
    once, with that set and after the last send, exactly when a send
    was delivered; a write that fails changes nothing else. *)
Theorem earlier_pass1_records_what_it_sent (cfg : Config) (sentIDs : gmap Z bool) w :
  let res := Earlier.pass1 env cfg sentIDs w in
  let final := fst (fst res) in
  exists evs,
    trace (snd res) = trace w ++ evs
    /\ snd (fst res) = Z.of_nat (length (delivered evs))
    /\ final = fold_left (fun m d => <[fst d := true]> m) (delivered evs) sentIDs
    /\ (forall id m, In (ESend id (Ok m)) evs -> Earlier.sent final id = true)
    /\ (forall id, (forall m, ~ In (ESend id (Ok m)) evs) ->
                   final !! id = sentIDs !! id)
    /\ match delivered evs with
       | [] => saves evs = []
       | _ :: _ =>
           exists pre post,
             evs = pre ++ ESaveState final (write_state env (trace w ++ pre) final)
                       :: post
             /\ delivered pre = delivered evs /\ sendIDs post = []
             /\ saves pre = [] /\ saves post = []
       end.
Proof.
  intros res final.
  destruct (earlier_pass1_whole cfg sentIDs w)
    as (evs & Ht & Hn & Hm & _ & _ & _ & Hsave).
  fold res in Ht, Hn, Hm, Hsave. fold final in Hm, Hsave.
  exists evs. split; [exact Ht|]. split; [exact Hn|]. split; [exact Hm|].
  split; [|split; [|exact Hsave]].
  - intros id m Hin. apply delivered_in in Hin.
    unfold Earlier.sent. rewrite Hm, fold_insert_lookup.
    destruct (in_dec _ _ _) as [_|Hno]; [reflexivity|].
    exfalso. apply Hno. apply in_map_iff. exists (id, m). split; [reflexivity|exact Hin].
  - intros id Hno. rewrite Hm, fold_insert_lookup.
    destruct (in_dec _ _ _) as [Hin|_]; [|reflexivity].
    exfalso. apply in_map_iff in Hin. destruct Hin as ([id' m] & E & Hin).
    cbn in E. subst id'. apply (Hno m). now apply delivered_in.
Qed.

Lemma earlier_queryActive_in (st : list Row) (id : Z) :
  In id (map ID (Earlier.queryActive st))
  <-> exists r, In r st /\ rowID r = id /\ status r = "active".
Proof.
  rewrite earlier_queryActive_ids, in_map_iff. split.
  - intros (r & Hid & Hr). apply filter_In in Hr. destruct Hr as [Hr Hp].
    exists r. split; [exact Hr|]. split; [exact Hid|]. now apply String.eqb_eq.
  - intros (r & Hr & Hid & Hs). exists r. split; [exact Hid|].
    apply filter_In. split; [exact Hr|]. now rewrite Hs.
Qed.

Lemma unsentOf_in (sentIDs : gmap Z bool) (rows : list UnifiedIncident) (id : Z) :
  In id (map ID (Earlier.unsentOf sentIDs rows))
  <-> In id (map ID rows) /\ Earlier.sent sentIDs id = false.
Proof.
  unfold Earlier.unsentOf. rewrite !in_map_iff. split.
  - intros (X & E & HX). apply filter_In in HX. destruct HX as [HX Hp].
    split; [exists X; auto|]. rewrite <- E. now apply negb_true_iff in Hp.
  - intros [(X & E & HX) Hs]. exists X. split; [exact E|].
    apply filter_In. split; [exact HX|]. rewrite E, Hs. reflexivity.
Qed.

(** X8. The first pass of the earlier program sends exactly once for
    every active incident that the sent-state set does not hold as
    sent, in the order of the query, and not at all for one it holds.
    A message id a send returns is the answer of a post, and the
    statement that writes it follows. Whatever the store answers to
    that statement, a pass that starts from the set this pass ended
    with makes no send for the incident. *)
Theorem earlier_pass1_sends_once_per_unsent_incident
    (cfg : Config) (sentIDs : gmap Z bool) w :
  NoDup (map rowID (store w)) ->
  let res := Earlier.pass1 env cfg sentIDs w in
  let res2 := Earlier.pass1 env cfg (fst (fst res)) (snd res) in
  exists evs evs2,
    trace (snd res) = trace w ++ evs
    /\ trace (snd res2) = trace (snd res) ++ evs2
    /\ sendIDs evs
       = map ID (Earlier.unsentOf sentIDs (Earlier.queryActive (store w)))
    /\ (forall r, In r (store w) -> status r = "active" ->
          if Earlier.sent sentIDs (rowID r)
          then ~ In (rowID r) (sendIDs evs)
          else List.count_occ Z.eq_dec (sendIDs evs) (rowID r) = 1%nat)
    /\ (forall id m, In (ESend id (Ok m)) evs ->
          (exists url p a, In (EPost url p a (Ok m)) evs)
          /\ (exists x, In (EExec (SetMessageID id m) x) evs)
          /\ ~ In id (sendIDs evs2)).
Proof.
  intros Hnd res res2.
  assert (Hndq : NoDup (map ID (Earlier.queryActive (store w)))).
  { rewrite earlier_queryActive_ids. apply NoDup_map_filter, Hnd. }
  destruct (post_elim _ _ _ (earlier_pass1_post env cfg sentIDs w Hndq))
    as (evs & Ht & Hall & _ & Hnew).
  fold res in Ht, Hall, Hnew.
  assert (Hnd1 : NoDup (map ID (Earlier.queryActive (store (snd res))))).
  { rewrite earlier_queryActive_ids. apply NoDup_map_filter.
    destruct (notifiedAll_ids _ _ _ _ Hall) as [-> _]. exact Hnd. }
  destruct (post_elim _ _ _ (earlier_pass1_post env cfg (fst (fst res)) (snd res) Hnd1))
    as (evs2 & Ht2 & Hall2 & _).
  fold res2 in Ht2, Hall2.
  exists evs, evs2. split; [exact Ht|]. split; [exact Ht2|].
  pose proof (notifiedAll_sendIDs _ _ _ _ Hall) as Hs.
  split; [exact Hs|]. split.
  - intros r Hr Hact. rewrite Hs.
    destruct (Earlier.sent sentIDs (rowID r)) eqn:Hsent.
    + intros Hin. apply unsentOf_in in Hin. destruct Hin as [_ E]. congruence.
    + apply count_once.
      * unfold Earlier.unsentOf. apply NoDup_map_filter, Hndq.
      * apply unsentOf_in. split; [|exact Hsent].
        apply earlier_queryActive_in. exists r. auto.
  - intros id m Hok.
    split; [apply (notifiedAll_posted _ _ _ _ _ _ Hall Hok)|].
    split; [apply (notifiedAll_issued _ _ _ _ _ _ Hall Hok)|].
    rewrite (notifiedAll_sendIDs _ _ _ _ Hall2). intros Hin.
    apply unsentOf_in in Hin. destruct Hin as [_ E].
    unfold Earlier.sent in E. rewrite (Hnew _ _ Hok) in E. discriminate.
Qed.


(** One turn of the second loop, and the loop. *)
Lemma earlier_clearStep_runs (cfg : Config) (X : UnifiedIncident) w :
  let res := Earlier.clearStep env cfg X w in
  exists evs,
    trace (snd res) = trace w ++ evs
    /\ length (accepted evs) = (if fst res then 1 else 0)%nat
    /\ length (sleeps evs) = length (accepted evs)
    /\ sendIDs evs = [] /\ delivered evs = [] /\ posts evs = [] /\ saves evs = [].
Proof.
  intros res.
  unfold res, Earlier.clearStep, Earlier.updateDiscordAlert, bind, log, emit, now, call,
    exec, ret.
  cbn [fst snd store trace].
  match goal with
  | |- context [patch_webhook env ?tr ?u ?p] =>
      destruct (patch_webhook env tr u p) as [[]|e]
  end; cbn [fst snd store trace].
  - match goal with
    | |- context [exec_stmt env ?tr ?s] => destruct (exec_stmt env tr s) as [[]|e]
    end; cbn [is_ok fst snd store trace]; rewrite <- !app_assoc;
      (eexists; split; [reflexivity|]); repeat split; reflexivity.
  - rewrite <- !app_assoc. eexists; split; [reflexivity|]. repeat split; reflexivity.
Qed.

Lemma earlier_clearLoop_runs (cfg : Config) (rows : list UnifiedIncident) (n : Z) w :
  let res := Earlier.clearLoop env cfg rows n w in
  exists evs,
    trace (snd res) = trace w ++ evs
    /\ fst res = (n + Z.of_nat (length (accepted evs)))%Z
    /\ length (sleeps evs) = length (accepted evs)
    /\ sendIDs evs = [] /\ delivered evs = [] /\ posts evs = [] /\ saves evs = [].
Proof.
  revert n w. induction rows as [|X rows IH]; intros n w res.
  - exists []. unfold res. cbn. rewrite app_nil_r, Z.add_0_r.
    repeat split; reflexivity.
  - unfold res. cbn [Earlier.clearLoop]. unfold bind.
    destruct (earlier_clearStep_runs cfg X w)
      as (evs1 & Ht1 & Hn1 & Hz1 & Hs1 & Hd1 & Hp1 & Hv1).
    set (r := Earlier.clearStep env cfg X w) in *.
    destruct (IH (if fst r then (n + 1)%Z else n) (snd r))
      as (evs2 & Ht2 & Hn2 & Hz2 & Hs2 & Hd2 & Hp2 & Hv2).
    exists (evs1 ++ evs2).
    rewrite Ht2, Ht1, Hn2, !accepted_app, !sleeps_app, !sendIDs_app, !delivered_app,
      !posts_app, !saves_app, !length_app, Hs1, Hs2, Hd1, Hd2, Hp1, Hp2, Hv1, Hv2,
      Hz1, Hz2, Hn1.
    split; [now rewrite app_assoc|]. split; [destruct (fst r); lia|].
    repeat split; reflexivity.
Qed.

Lemma earlier_pass2_runs (cfg : Config) w :
  let res := Earlier.pass2 env cfg w in
  exists evs,
    trace (snd res) = trace w ++ evs
    /\ fst res = Z.of_nat (length (accepted evs))
    /\ length (sleeps evs) = length (accepted evs)
    /\ sendIDs evs = [] /\ delivered evs = [] /\ posts evs = [] /\ saves evs = [].
Proof.
  intros res. unfold res, Earlier.pass2, bind, query, log, emit, ret.
  cbn [fst snd store trace].
  destruct (earlier_clearLoop_runs cfg (Earlier.queryCleared (store w)) 0 w)
    as (evs & Ht & Hn & Hz & Hs & Hd & Hp & Hv).
  exists (evs ++ [ELog "Processed %d cleared alerts."]).
  rewrite Ht, Hn, !accepted_app, !sleeps_app, !sendIDs_app, !delivered_app,
    !posts_app, !saves_app, !length_app, Hs, Hd, Hp, Hv, Hz.
  split; [now rewrite app_assoc|]. split; [cbn; lia|].
  repeat split; reflexivity.
Qed.

Lemma unsentOf_empty (rows : list UnifiedIncident) : Earlier.unsentOf ∅ rows = rows.
Proof.
  unfold Earlier.unsentOf. induction rows as [|X rows IH]; [reflexivity|].
  cbn [List.filter]. unfold Earlier.sent at 1. rewrite lookup_empty. cbn.
  now rewrite IH.
Qed.

(** The two passes after the state file was read. *)
Lemma earlier_passes_run (cfg : Config) (sentIDs : gmap Z bool) w :
  NoDup (map rowID (store w)) ->
  let r1 := Earlier.pass1 env cfg sentIDs w in
  let r2 := Earlier.pass2 env cfg (snd r1) in
  exists evs1 evs2,
    trace (snd r2) = trace w ++ evs1 ++ evs2
    /\ sendIDs evs1
       = map ID (Earlier.unsentOf sentIDs (Earlier.queryActive (store w)))
    /\ snd (fst r1) = Z.of_nat (length (delivered evs1))
    /\ fst r2 = Z.of_nat (length (accepted evs2))
    /\ editIDs evs1 = [] /\ accepted evs1 = []
    /\ sendIDs evs2 = [] /\ delivered evs2 = []
    /\ editIDs evs2 = map ID (Earlier.queryCleared (store (snd r1)))
    /\ map rowID (store (snd r1)) = map rowID (store w)
    /\ map status (store (snd r1)) = map status (store w).
Proof.
  intros Hnd r1 r2.
  assert (Hndq : NoDup (map ID (Earlier.queryActive (store w)))).
  { rewrite earlier_queryActive_ids. apply NoDup_map_filter, Hnd. }
  destruct (post_elim _ _ _ (earlier_pass1_post env cfg sentIDs w Hndq))
    as (evs1 & Ht1 & Hall & _).
  destruct (earlier_pass1_whole cfg sentIDs w) as (evs1' & Ht1' & Hn & _ & _ & He & Ha & _).
  fold r1 in Ht1, Hall, Ht1', Hn. rewrite Ht1 in Ht1'.
  apply app_inv_head in Ht1'. subst evs1'.
  destruct (earlier_pass2_runs cfg (snd r1)) as (evs2 & Ht2 & Hc & _ & Hs2 & Hd2 & _).
  destruct (post_elim _ _ _ (earlier_pass2_post env cfg (snd r1)))
    as (evs2' & Ht2' & Hall2).
  fold r2 in Ht2, Hc, Ht2', Hall2. rewrite Ht2 in Ht2'.
  apply app_inv_head in Ht2'. subst evs2'.
  exists evs1, evs2. rewrite Ht2, Ht1.
  split; [now rewrite app_assoc|].
  split; [apply (notifiedAll_sendIDs _ _ _ _ Hall)|].
  split; [exact Hn|]. split; [exact Hc|]. split; [exact He|]. split; [exact Ha|].
  split; [exact Hs2|]. split; [exact Hd2|].
  split; [apply (editedAll_editIDs _ _ _ _ _ _ _ _ Hall2)|].
  apply (notifiedAll_ids _ _ _ _ Hall).
Qed.

(** The first loop with the nil map: it sends in the order of the
    query until a send is delivered, writes the message id of that
    send, and stops there. *)
Lemma earlier_notifyLoopNil_runs (cfg : Config) (rows : list UnifiedIncident) w :
  let res := Earlier.notifyLoopNil env cfg rows w in
  exists evs,
    trace (snd res) = trace w ++ evs
    /\ editIDs evs = [] /\ accepted evs = [] /\ saves evs = [] /\ sleeps evs = []
    /\ if fst res
       then exists before i rest m x,
              rows = before ++ i :: rest
              /\ sendIDs evs = map ID (before ++ [i])
              /\ delivered evs = [(ID i, m)]
              /\ statements evs = [(SetMessageID (ID i) m, x)]
       else sendIDs evs = map ID rows /\ delivered evs = [] /\ statements evs = [].
Proof.
  revert w. induction rows as [|i rows IH]; intros w res.
  - exists []. unfold res. cbn. rewrite app_nil_r. repeat split; reflexivity.
  - unfold res. cbn [Earlier.notifyLoopNil]. unfold bind, log, emit, ret.
    cbn [fst snd store trace].
    set (w0 := {| store := store w; trace := _ |}).
    destruct (earlier_send_aside (webhookURL cfg) (mapsAPIKey cfg) i w0)
      as (evs0 & E & Hin & Hz & Hs & Hx).
    rewrite E. cbn [fst snd store trace].
    set (r := fst (Earlier.sendDiscordAlert env (webhookURL cfg) (mapsAPIKey cfg) i w0)).
    pose proof (inner_delivered _ Hin) as Hd0.
    pose proof (inner_editIDs _ Hin) as He0.
    pose proof (inner_accepted _ Hin) as Ha0.
    pose proof (inner_sendIDs _ Hin) as Hn0.
    destruct r as [m|e]; unfold exec; cbn [fst snd store trace].
    + match goal with
      | |- context [exec_stmt env ?tr ?s] => destruct (exec_stmt env tr s) as [[]|e]
      end; cbn [is_ok fst snd store trace];
        unfold w0; cbn [trace]; rewrite <- !app_assoc;
        (eexists; split; [reflexivity|]);
        rewrite !delivered_app, !sleeps_app, !saves_app, !editIDs_app, !accepted_app,
          !sendIDs_app, !statements_app, Hd0, Hz, Hs, He0, Ha0, Hn0, Hx;
        (split; [reflexivity|]); (split; [reflexivity|]);
        (split; [reflexivity|]); (split; [reflexivity|]);
        exists [], i, rows, m; eexists; repeat split; reflexivity.
    + match goal with
      | |- context [Earlier.notifyLoopNil env cfg rows ?ww] => set (w1 := ww)
      end.
      destruct (IH w1) as (evs2 & Ht2 & He2 & Ha2 & Hs2 & Hz2 & Hres).
      set (r2 := Earlier.notifyLoopNil env cfg rows w1) in *.
      exists (([ELog "Found new unified incident from %s (ID: %s). Sending alert."]
                 : list (Event Earlier.DiscordWebhookPayload))
              ++ evs0 ++ [ESend (ID i) (Err e)]
              ++ [ELog "Error sending Discord alert: %v"] ++ evs2).
      rewrite Ht2. unfold w1, w0. cbn [trace].
      split; [now rewrite <- !app_assoc|].
      rewrite !delivered_app, !sleeps_app, !saves_app, !editIDs_app, !accepted_app,
        !sendIDs_app, !statements_app, Hd0, Hz, Hs, He0, Ha0, Hn0, Hx, He2, Ha2, Hs2, Hz2.
      split; [reflexivity|]. split; [reflexivity|].
      split; [reflexivity|]. split; [reflexivity|].
      destruct (fst r2).
      * destruct Hres as (before & i' & rest & m & x & -> & Hn & Hd & Hst).
        exists (i :: before), i', rest, m, x. rewrite Hn, Hd, Hst.
        repeat split; reflexivity.
      * destruct Hres as (-> & -> & ->). repeat split; reflexivity.
Qed.

(** Step 2 and the end of a run, after the trace of step 1. *)
Lemma earlier_secondPass_runs (cfg : Config) (n : Z) w :
  let res := Earlier.secondPass env cfg n w in
  match query_rows env (trace w) Earlier.selectCleared with
  | Err e => res = (Fatal ("Error querying for cleared incidents: " ++ e)%string, w)
  | Ok _ =>
      exists evs2,
        trace (snd res) = trace w ++ evs2 ++ [ELog "Run complete."]
        /\ sendIDs evs2 = []
        /\ fst res = Completed n (Z.of_nat (length (accepted evs2)))
  end.
Proof.
  intros res. unfold res, Earlier.secondPass, bind, asks. cbn [fst snd].
  destruct (query_rows env (trace w) Earlier.selectCleared) as [u|e];
    [|reflexivity].
  destruct (earlier_pass2_runs cfg w) as (evs2 & Ht2 & Hc & _ & Hs2 & _).
  set (r2 := Earlier.pass2 env cfg w) in *.
  exists evs2. unfold log, emit, ret. cbn [fst snd store trace].
  rewrite Ht2, Hc. split; [now rewrite <- !app_assoc|]. split; [exact Hs2|reflexivity].
Qed.

(** A run of the earlier program after its state file was loaded. *)
Lemma earlier_fromState_runs (cfg : Config) (sentIDs : gmap Z bool) (isNil : bool) w :
  NoDup (map rowID (store w)) ->
  let res := Earlier.fromState env cfg sentIDs isNil w in
  let active := Earlier.queryActive (store w) in
  let ended := fun (n : Z) (evs1 : list (Event Earlier.DiscordWebhookPayload)) =>
    match query_rows env (trace w ++ evs1) Earlier.selectCleared with
    | Err e =>
        fst res = Fatal ("Error querying for cleared incidents: " ++ e)%string
        /\ trace (snd res) = trace w ++ evs1
    | Ok _ =>
        exists evs2,
          trace (snd res) = trace w ++ evs1 ++ evs2 ++ [ELog "Run complete."]
          /\ sendIDs evs2 = []
          /\ fst res = Completed n (Z.of_nat (length (accepted evs2)))
    end in
  match query_rows env (trace w) Earlier.selectActive with
  | Err e => res = (Fatal ("Error querying for new incidents: " ++ e)%string, w)
  | Ok _ =>
      exists evs1,
        editIDs evs1 = []
        /\ if isNil then
             saves evs1 = []
             /\ match delivered evs1 with
                | [] => sendIDs evs1 = map ID active /\ ended 0%Z evs1
                | d :: more =>
                    more = []
                    /\ (exists before i rest x,
                          active = before ++ i :: rest /\ fst d = ID i
                          /\ sendIDs evs1 = map ID (before ++ [i])
                          /\ statements evs1 = [(SetMessageID (ID i) (snd d), x)])
                    /\ fst res = Panicked "assignment to entry in nil map"
                    /\ trace (snd res) = trace w ++ evs1
                end
           else
             sendIDs evs1 = map ID (Earlier.unsentOf sentIDs active)
             /\ ended (Z.of_nat (length (delivered evs1))) evs1
  end.
Proof.
  intros Hnd res active ended.
  assert (Hres : res = Earlier.fromState env cfg sentIDs isNil w) by reflexivity.
  clearbody res.
  unfold Earlier.fromState in Hres. unfold bind at 1 in Hres. unfold asks in Hres.
  cbn [fst snd] in Hres.
  destruct (query_rows env (trace w) Earlier.selectActive) as [u|e]; [|exact Hres].
  destruct isNil.
  - unfold bind at 1, query in Hres. cbn [fst snd] in Hres.
    fold active in Hres. unfold bind at 1 in Hres.
    destruct (earlier_notifyLoopNil_runs cfg active w)
      as (evs1 & Ht1 & He1 & Ha1 & Hs1 & Hz1 & Hloop).
    set (r1 := Earlier.notifyLoopNil env cfg active w) in *.
    destruct (fst r1) eqn:Ep.
    + destruct Hloop as (before & i & rest & m & x & Hact & Hn & Hd & Hst).
      exists evs1. split; [exact He1|]. split; [exact Hs1|].
      rewrite Hd. split; [reflexivity|].
      split; [exists before, i, rest, x; repeat split; assumption|].
      rewrite Hres. unfold ret. cbn [fst snd]. split; [reflexivity|exact Ht1].
    + destruct Hloop as (Hn & Hd & _).
      exists (evs1 ++ [ELog "Processed %d new alerts."]).
      rewrite editIDs_app, saves_app, delivered_app, sendIDs_app, He1, Hs1, Hd, Hn.
      cbn [editIDs saves delivered sendIDs app]. rewrite !app_nil_r.
      split; [reflexivity|]. split; [reflexivity|]. split; [reflexivity|].
      unfold bind, log, emit in Hres. cbn [fst snd store trace] in Hres.
      match type of Hres with
      | _ = Earlier.secondPass env cfg 0 ?ww => set (w1 := ww) in *
      end.
      pose proof (earlier_secondPass_runs cfg 0 w1) as H2. cbn zeta in H2.
      rewrite <- Hres in H2.
      assert (Htw : trace w1 = trace w ++ evs1 ++ [ELog "Processed %d new alerts."]).
      { unfold w1. cbn [trace]. rewrite Ht1. now rewrite <- app_assoc. }
      unfold ended. rewrite <- Htw.
      destruct (query_rows env (trace w1) Earlier.selectCleared) as [v|e].
      * destruct H2 as (evs2 & Ht2 & Hs2 & Hc). exists evs2.
        rewrite Ht2, Htw. split; [now rewrite <- !app_assoc|]. split; assumption.
      * rewrite H2. split; reflexivity.
  - unfold bind at 1 in Hres.
    destruct (earlier_pass1_whole cfg sentIDs w) as (evs1 & Ht1 & Hn1 & _ & _ & He1 & _).
    destruct (post_elim _ _ _ (earlier_pass1_post env cfg sentIDs w
                 ltac:(rewrite earlier_queryActive_ids; apply NoDup_map_filter, Hnd)))
      as (evs1' & Ht1' & Hall & _).
    set (r1 := Earlier.pass1 env cfg sentIDs w) in *.
    rewrite Ht1 in Ht1'. apply app_inv_head in Ht1'. subst evs1'.
    exists evs1. split; [exact He1|].
    split; [apply (notifiedAll_sendIDs _ _ _ _ Hall)|].
    pose proof (earlier_secondPass_runs cfg (snd (fst r1)) (snd r1)) as H2.
    cbn zeta in H2. rewrite <- Hres in H2.
    unfold ended. rewrite <- Ht1, <- Hn1.
    destruct (query_rows env (trace (snd r1)) Earlier.selectCleared) as [v|e].
    + destruct H2 as (evs2 & Ht2 & Hs2 & Hc). exists evs2.
      rewrite Ht2, Ht1. split; [now rewrite <- !app_assoc|]. split; assumption.
    + rewrite H2. split; reflexivity.
Qed.

(** When the store answers every SELECT and the state file does not
    leave the map nil, [run] is [main]. *)
Lemma earlier_run_answered (cfg : Config) w :
  (forall tr sql, query_rows env tr sql = Ok tt) ->
  fst (Earlier.loadsNil env w) = false ->
  Earlier.run env cfg w = Earlier.main env cfg w.
Proof.
  intros Hq Hnil. unfold Earlier.run, Earlier.main.
  destruct (negb (nonempty (webhookURL cfg))); [reflexivity|].
  unfold bind at 1. rewrite Hnil.
  change (snd (Earlier.loadsNil env w)) with w.
  unfold bind at 1. unfold bind at 1.
  destruct (Earlier.loadSentIncidents env w) as [[sentIDs|e] w0]; [|reflexivity].
  cbn [fst snd]. unfold Earlier.fromState, Earlier.secondPass, bind, asks.
  cbn [fst snd]. rewrite Hq. cbn [fst snd]. rewrite Hq. reflexivity.
Qed.

(** X9. A run of the earlier program with a webhook address starts
    from the state file. When the file cannot be read the run stops
    before anything is sent. When there is no file, or it is empty, or
    it is not a map of ids, the run starts with nothing marked as sent,
    logging a warning for a file it could not decode. A SELECT the
    store refuses ends the run: the first before anything is sent, the
    second after the first pass and before any edit. When the file
    holds the text null the map is nil: the run sends in the order of
    the query until a send is delivered, writes the message id of that
    send, and panics, with nothing saved and nothing edited; when no
    send is delivered it goes on with a count of 0. Otherwise the run
    sends for the active incidents the file does not hold as sent, and
    when both SELECTs are answered it completes, the sends before the
    edits, and reports the number of sends that were delivered and of
    edits that were accepted. *)
Theorem earlier_run_starts_from_the_state_file (cfg : Config) w :
  webhookURL cfg <> EmptyString ->
  NoDup (map rowID (store w)) ->
  let res := Earlier.run env cfg w in
  let active := Earlier.queryActive (store w) in
  match read_state env (trace w) with
  | Err e => res = (Fatal ("Error loading sent incidents: " ++ e)%string, w)
  | Ok file =>
      let text :=
        match file with
        | Some data => if (String.length data =? 0)%nat then None else Some data
        | None => None
        end in
      let decoded :=
        match text with
        | Some data => Earlier.decodeSentIDs data
        | None => Some ∅
        end in
      let isNil :=
        match text with
        | Some data => Earlier.nilState data
        | None => false
        end in
      let warned :=
        match decoded with
        | Some _ => []
        | None => [ELog "WARNING: Could not parse %s. File may be corrupt. Starting fresh. Error: %v"]
        end in
      let sentIDs := default ∅ decoded in
      let tr0 := trace w ++ warned in
      let ended := fun (n : Z) (evs1 : list (Event Earlier.DiscordWebhookPayload)) =>
        match query_rows env (tr0 ++ evs1) Earlier.selectCleared with
        | Err e =>
            fst res = Fatal ("Error querying for cleared incidents: " ++ e)%string
            /\ trace (snd res) = tr0 ++ evs1
        | Ok _ =>
            exists evs2,
              trace (snd res) = tr0 ++ evs1 ++ evs2 ++ [ELog "Run complete."]
              /\ sendIDs evs2 = []
              /\ fst res = Completed n (Z.of_nat (length (accepted evs2)))
        end in
      match query_rows env tr0 Earlier.selectActive with
      | Err e =>
          res = (Fatal ("Error querying for new incidents: " ++ e)%string,
                 {| store := store w; trace := tr0 |})
      | Ok _ =>
          exists evs1,
            editIDs evs1 = []
            /\ if isNil then
                 saves evs1 = []
                 /\ match delivered evs1 with
                    | [] => sendIDs evs1 = map ID active /\ ended 0%Z evs1
                    | d :: more =>
                        more = []
                        /\ (exists before i rest x,
                              active = before ++ i :: rest /\ fst d = ID i
                              /\ sendIDs evs1 = map ID (before ++ [i])
                              /\ statements evs1 = [(SetMessageID (ID i) (snd d), x)])
                        /\ fst res = Panicked "assignment to entry in nil map"
                        /\ trace (snd res) = tr0 ++ evs1
                    end
               else
                 sendIDs evs1 = map ID (Earlier.unsentOf sentIDs active)
                 /\ ended (Z.of_nat (length (delivered evs1))) evs1
      end
  end.
Proof.
  intros Hurl Hnd res active.
  apply String.eqb_neq in Hurl.
  assert (Hw : {| store := store w; trace := trace w ++ [] |} = w)
    by (rewrite app_nil_r; now destruct w).
  assert (Hfrom : forall (sentIDs : gmap Z bool) (isNil : bool)
                         (warned : list (Event Earlier.DiscordWebhookPayload)),
    res = Earlier.fromState env cfg sentIDs isNil
            {| store := store w; trace := trace w ++ warned |} ->
    let tr0 := trace w ++ warned in
    let ended := fun (n : Z) (evs1 : list (Event Earlier.DiscordWebhookPayload)) =>
      match query_rows env (tr0 ++ evs1) Earlier.selectCleared with
      | Err e =>
          fst res = Fatal ("Error querying for cleared incidents: " ++ e)%string
          /\ trace (snd res) = tr0 ++ evs1
      | Ok _ =>
          exists evs2,
            trace (snd res) = tr0 ++ evs1 ++ evs2 ++ [ELog "Run complete."]
            /\ sendIDs evs2 = []
            /\ fst res = Completed n (Z.of_nat (length (accepted evs2)))
      end in
    match query_rows env tr0 Earlier.selectActive with
    | Err e =>
        res = (Fatal ("Error querying for new incidents: " ++ e)%string,
               {| store := store w; trace := tr0 |})
    | Ok _ =>
        exists evs1,
          editIDs evs1 = []
          /\ if isNil then
               saves evs1 = []
               /\ match delivered evs1 with
                  | [] => sendIDs evs1 = map ID active /\ ended 0%Z evs1
                  | d :: more =>
                      more = []
                      /\ (exists before i rest x,
                            active = before ++ i :: rest /\ fst d = ID i
                            /\ sendIDs evs1 = map ID (before ++ [i])
                            /\ statements evs1 = [(SetMessageID (ID i) (snd d), x)])
                      /\ fst res = Panicked "assignment to entry in nil map"
                      /\ trace (snd res) = tr0 ++ evs1
                  end
             else
               sendIDs evs1 = map ID (Earlier.unsentOf sentIDs active)
               /\ ended (Z.of_nat (length (delivered evs1))) evs1
    end).
  { intros sentIDs isNil warned ->.
    exact (earlier_fromState_runs cfg sentIDs isNil
             {| store := store w; trace := trace w ++ warned |} Hnd). }
  assert (Hrun : res = (let* isNil := Earlier.loadsNil env in
                        let* loaded := Earlier.loadSentIncidents env in
                        match loaded with
                        | Err e => ret (Fatal ("Error loading sent incidents: " ++ e))
                        | Ok sentIDs => Earlier.fromState env cfg sentIDs isNil
                        end) w).
  { unfold res, Earlier.run, nonempty. rewrite Hurl. reflexivity. }
  unfold bind at 1 2, Earlier.loadsNil, Earlier.loadSentIncidents in Hrun.
  cbn [fst snd] in Hrun.
  destruct (read_state env (trace w)) as [[data|]|e].
  - destruct (String.length data =? 0)%nat.
    + cbn zeta. unfold ret at 1 in Hrun. cbn [fst snd negb andb] in Hrun.
      rewrite <- Hw in Hrun. exact (Hfrom ∅ false [] Hrun).
    + cbn zeta. cbn [negb andb] in Hrun.
      destruct (Earlier.decodeSentIDs data) as [m|].
      * unfold ret at 1 in Hrun. cbn [fst snd] in Hrun. rewrite <- Hw in Hrun.
        exact (Hfrom m (Earlier.nilState data) [] Hrun).
      * unfold bind at 1, log, emit, ret at 1 in Hrun.
        cbn [fst snd store trace] in Hrun.
        exact (Hfrom ∅ (Earlier.nilState data) _ Hrun).
  - cbn zeta. unfold ret at 1 in Hrun. cbn [fst snd] in Hrun. rewrite <- Hw in Hrun.
    exact (Hfrom ∅ false [] Hrun).
  - unfold ret in Hrun. cbn [fst snd] in Hrun. exact Hrun.
Qed.



End EarlierCounts.

(* ================================================================== *)
(** * The two passes of one run *)


(* ================================================================== *)
(** * What every alert carries *)

Section PayloadFacts.
Context `{Platform}.

Lemma arcGis_frame (key : string) (i : UnifiedIncident) :
  exists e,
    fst (Later.buildArcGisPayload key i)
    = {| Later.Username := "Unified Alert Bot"; Later.AvatarURL := EmptyString;
         Later.Embeds := [e] |}
    /\ Text (Later.Footer e) = "Source: Police Incidents Feed"
    /\ Later.ETimestamp e = formatRFC3339 (Timestamp i)
    /\ ThumbnailURL (Later.Thumbnail e) = EmptyString
    /\ ImageURL_ (Later.Image e)
       = match Latitude i, Longitude i with
         | Some lat, Some lon =>
             if nonempty key then staticMapURL "15" "600x400" "purple" lat lon key
             else EmptyString
         | _, _ => EmptyString
         end
    /\ hasField "Weather Conditions" (Later.Fields e) = false.
Proof.
  unfold Later.buildArcGisPayload. eexists. split; [reflexivity|].
  destruct (HasPrefix _ "NO_CASE-");
    destruct (Latitude i); destruct (Longitude i); destruct (nonempty key);
    repeat split; reflexivity.
Qed.

(** The weather a builder shows, from the details. *)
Lemma decodeDetails_weather {T} (fields : list (field T)) (zero : T)
    (source details : string) :
  snd (fst (Later.decodeDetails fields zero source details))
  = if snd (UnmarshalMap details) then None
    else match fst (UnmarshalMap details) !! "weather" with
         | Some v =>
             if is_null v then None
             else Some (fst (store_struct weatherFields v zeroWeather))
         | None => None
         end.
Proof.
  unfold Later.decodeDetails.
  destruct (snd (UnmarshalMap details)); [reflexivity|]. cbn [negb fst snd].
  destruct (fst (UnmarshalMap details) !! "weather") as [v|]; [|reflexivity].
  destruct v; cbn [is_null negb store_ptr]; try reflexivity;
    destruct (store_struct _ _ _); reflexivity.
Qed.

Lemma fieldValue_weather (base : list EmbedField) (weather : option WeatherDetails)
    (cams : list Camera) :
  (forall f, In f base -> FName f <> "Weather Conditions") ->
  fieldValue "Weather Conditions" (base ++ weatherFieldsOf weather ++ otherCamerasField cams)
  = weatherValue <$> weather.
Proof.
  intros Hbase. unfold fieldValue.
  induction base as [|f base IH].
  - destruct weather; [reflexivity|]. cbn [weatherFieldsOf app].
    unfold otherCamerasField. destruct (1 <? length cams)%nat; reflexivity.
  - cbn [app find].
    destruct (String.eqb_spec (FName f) "Weather Conditions") as [E|_].
    + exfalso. apply (Hbase f); [now left|exact E].
    + apply IH. intros g Hg. apply Hbase. now right.
Qed.

(** X11. The field Weather Conditions of an NC DOT or RWECC alert of
    the later program is there exactly when the details are a map with
    a weather member that is not null, whatever that member is: its
    value is the forecast, the temperature and the wind the member
    decodes to, in three lines, so a member that is no object gives an
    empty forecast, 0 degrees and an empty wind. The field comes after
    the fields of the source and before the other cameras. A police
    alert never has it. *)
Theorem later_weather_field (key : string) (i : UnifiedIncident)
    (cams : list Camera) (att : string) :
  let shown :=
    if snd (UnmarshalMap (Details i)) then None
    else match fst (UnmarshalMap (Details i)) !! "weather" with
         | Some v =>
             if is_null v then None
             else Some (fst (store_struct weatherFields v zeroWeather))
         | None => None
         end in
  (exists e d,
      Later.Embeds (fst (Later.buildNcdotPayload key i cams att)) = [e]
      /\ Later.Fields e
         = ncdotBaseFields d ++ weatherFieldsOf shown ++ otherCamerasField cams
      /\ fieldValue "Weather Conditions" (Later.Fields e) = weatherValue <$> shown)
  /\ (exists e j,
         Later.Embeds (fst (Later.buildRweccPayload key i cams att)) = [e]
         /\ Later.Fields e
            = [ {| FName := "Address"; FValue := Address i; Inline := false |};
                {| FName := "Jurisdiction"; FValue := j; Inline := false |} ]
              ++ weatherFieldsOf shown ++ otherCamerasField cams
         /\ fieldValue "Weather Conditions" (Later.Fields e) = weatherValue <$> shown)
  /\ (exists e,
         Later.Embeds (fst (Later.buildArcGisPayload key i)) = [e]
         /\ hasField "Weather Conditions" (Later.Fields e) = false)
  /\ (forall x,
        weatherValue x
        = (ShortForecast x ++ nl ++ "Temp: " ++ itoa (Temperature x) ++ "°F" ++ nl
           ++ "Wind: " ++ WindSpeed x)%string)
  /\ (forall v, (forall kvs, v <> JObject kvs) ->
                fst (store_struct weatherFields v zeroWeather) = zeroWeather).
Proof.
  intros shown. split; [|split; [|split; [|split]]].
  - destruct (buildNcdotPayload_spec key i cams att) as (e & Hb & _ & _ & Hf & _).
    exists e, (fst (fst (Later.decodeDetails ncdotFields zeroNcdot "NCDOT" (Details i)))).
    rewrite decodeDetails_weather in Hf. fold shown in Hf.
    split; [now rewrite Hb|]. split; [exact Hf|]. rewrite Hf.
    apply fieldValue_weather.
    unfold ncdotBaseFields. intros f [<-|[<-|[<-|[<-|[]]]]]; discriminate.
  - destruct (buildRweccPayload_spec key i cams att) as (e & Hb & _ & _ & Hf & _).
    exists e, (Jurisdiction
                 (fst (fst (Later.decodeDetails rweccFields zeroRwecc "RWECC" (Details i))))).
    rewrite decodeDetails_weather in Hf. fold shown in Hf.
    split; [now rewrite Hb|]. split; [exact Hf|]. rewrite Hf.
    apply (fieldValue_weather [_; _]).
    intros f [<-|[<-|[]]]; discriminate.
  - destruct (arcGis_frame key i) as (e & Hb & _ & _ & _ & _ & Hw).
    exists e. split; [now rewrite Hb|exact Hw].
  - reflexivity.
  - intros v Hv. destruct v; try reflexivity. destruct (Hv _ eq_refl).
Qed.






End PayloadFacts.

Section EarlierSendFacts.
Context `{Platform}.
Variable env : Env Earlier.DiscordWebhookPayload.
Implicit Types (w : World Earlier.DiscordWebhookPayload).


End EarlierSendFacts.

(* ================================================================== *)
(** * The state file of the earlier program: what is written is read back *)

Section StateFileText.

(** ** The decimal text of a key *)

Lemma append_cons (c : ascii) (s t : string) :
  (String c s ++ t)%string = String c (s ++ t)%string.
Proof. reflexivity. Qed.

Lemma append_empty (t : string) : (EmptyString ++ t)%string = t.
Proof. reflexivity. Qed.

Lemma body_plain (c : ascii) (r : string) :
  is_char c 34 = false -> is_char c 92 = false ->
  (byte_code c <? 32)%N = false -> (byte_code c <? 128)%N = true ->
  parse_string_body (String c r)
  = match parse_string_body r with
    | Some (body, rest) => Some (String c body, rest)
    | None => None
    end.
Proof.
  intros H1 H2 H3 H4. cbn [parse_string_body]. rewrite H1, H2, H3, H4.
  destruct (parse_string_body r) as [[body rest]|]; reflexivity.
Qed.

Lemma body_of_uint (d : Decimal.uint) (rest : string) :
  parse_string_body (NilEmpty.string_of_uint d ++ String dquote rest)
  = Some (NilEmpty.string_of_uint d, rest).
Proof.
  induction d; cbn [NilEmpty.string_of_uint];
    [reflexivity
    | rewrite append_cons, body_plain by reflexivity; rewrite IHd; reflexivity ..].
Qed.

Lemma body_of_nilzero (d : Decimal.uint) (rest : string) :
  parse_string_body (NilZero.string_of_uint d ++ String dquote rest)
  = Some (NilZero.string_of_uint d, rest).
Proof.
  destruct d; [reflexivity | ..];
    match goal with
    | |- context [NilZero.string_of_uint ?x] => exact (body_of_uint x rest)
    end.
Qed.

Lemma body_of_itoa (k : Z) (rest : string) :
  parse_string_body (itoa k ++ String dquote rest) = Some (itoa k, rest).
Proof.
  unfold itoa. destruct k as [|p|p]; cbn [Z.to_int NilZero.string_of_int].
  - reflexivity.
  - apply body_of_nilzero.
  - rewrite append_cons, body_plain by reflexivity.
    rewrite body_of_nilzero. reflexivity.
Qed.

Lemma digits_value_acc (d : Decimal.uint) (acc : positive) :
  digits_value (Z.pos acc) (NilEmpty.string_of_uint d)
  = Some (Z.pos (Pos.of_uint_acc d acc)).
Proof.
  revert acc.
  induction d; intros acc; cbn [NilEmpty.string_of_uint digits_value Pos.of_uint_acc];
    [reflexivity | ..];
    match goal with
    | |- (if is_digit ?c then _ else _) = _ =>
        change (is_digit c) with true; cbv iota
    end;
    match goal with
    | |- digits_value ?x _ = Some (Z.pos (Pos.of_uint_acc _ ?y)) =>
        replace x with (Z.pos y) by (vm_compute (byte_code _); lia)
    end; apply IHd.
Qed.

Lemma digits_value_uint (d : Decimal.uint) :
  digits_value 0 (NilEmpty.string_of_uint d) = Some (Z.of_N (Pos.of_uint d)).
Proof.
  induction d; cbn [NilEmpty.string_of_uint digits_value Pos.of_uint];
    [reflexivity | ..];
    match goal with
    | |- (if is_digit ?c then _ else _) = _ =>
        change (is_digit c) with true; cbv iota
    end;
    [exact IHd | ..];
    match goal with
    | |- digits_value ?x _ = Some (Z.of_N (N.pos (Pos.of_uint_acc _ ?y))) =>
        replace x with (Z.pos y) by (vm_compute; reflexivity)
    end; apply digits_value_acc.
Qed.

Lemma uint_of_pos_digits (p : positive) :
  exists c r, NilZero.string_of_uint (Pos.to_uint p) = String c r
              /\ NilEmpty.string_of_uint (Pos.to_uint p) = String c r
              /\ is_digit c = true.
Proof.
  pose proof (DecimalPos.Unsigned.of_to p) as Hp.
  destruct (Pos.to_uint p) as [|d|d|d|d|d|d|d|d|d|d];
    [discriminate Hp | ..];
    eexists _, _; (split; [reflexivity | split; reflexivity]).
Qed.

(** [strconv.ParseInt] reads back what [strconv.FormatInt] writes. *)
Lemma parseInt64_itoa (k : Z) :
  (- 2 ^ 63 <= k <= 2 ^ 63 - 1)%Z -> parseInt64 (itoa k) = Some k.
Proof.
  intros Hk. destruct k as [|p|p].
  - reflexivity.
  - unfold itoa. cbn [Z.to_int NilZero.string_of_int].
    destruct (uint_of_pos_digits p) as (c & r & Hz & He & Hc).
    pose proof (digits_value_uint (Pos.to_uint p)) as Hv.
    rewrite DecimalPos.Unsigned.of_to in Hv. rewrite He in Hv.
    rewrite Hz. unfold parseInt64.
    assert (H45 : is_char c 45 = false).
    { unfold is_digit in Hc. unfold is_char. apply andb_true_iff in Hc.
      destruct Hc as [Hc1 Hc2]. apply N.leb_le in Hc1. apply N.eqb_neq. lia. }
    assert (H43 : is_char c 43 = false).
    { unfold is_digit in Hc. unfold is_char. apply andb_true_iff in Hc.
      destruct Hc as [Hc1 Hc2]. apply N.leb_le in Hc1. apply N.eqb_neq. lia. }
    rewrite H45, H43. cbn [fst snd]. rewrite Hv. cbn [Z.of_N].
    replace ((- 2 ^ 63 <=? Z.pos p) && (Z.pos p <=? 2 ^ 63 - 1))%Z with true;
      [reflexivity|].
    symmetry. apply andb_true_iff. split; apply Z.leb_le; lia.
  - unfold itoa. cbn [Z.to_int NilZero.string_of_int].
    destruct (uint_of_pos_digits p) as (c & r & Hz & He & Hc).
    pose proof (digits_value_uint (Pos.to_uint p)) as Hv.
    rewrite DecimalPos.Unsigned.of_to in Hv. rewrite He in Hv.
    rewrite Hz. unfold parseInt64.
    change (is_char "-" 45) with true. cbv iota. cbn [fst snd].
    rewrite Hv. cbn [Z.of_N].
    change (- Z.pos p)%Z with (Z.neg p).
    replace ((- 2 ^ 63 <=? Z.neg p) && (Z.neg p <=? 2 ^ 63 - 1))%Z with true;
      [reflexivity|].
    symmetry. apply andb_true_iff. split; apply Z.leb_le; lia.
Qed.

(** ** The text of a map *)

Lemma append_assoc (a b c : string) : ((a ++ b) ++ c)%string = (a ++ b ++ c)%string.
Proof.
  induction a as [|x a IH]; [reflexivity|].
  rewrite !append_cons, IH. reflexivity.
Qed.

Lemma length_append (a b : string) :
  String.length (a ++ b) = (String.length a + String.length b)%nat.
Proof.
  induction a as [|x a IH]; [reflexivity|].
  rewrite append_cons. cbn [String.length]. rewrite IH. reflexivity.
Qed.

Lemma entry_text (k : Z) (b : bool) (tail : string) :
  (Earlier.encodeEntry (k, b) ++ tail)%string
  = String " " (String " " (String dquote
      (itoa k ++ String dquote (String ":" (String " "
         ((if b then "true" else "false") ++ tail)))))).
Proof.
  unfold Earlier.encodeEntry. cbn [fst snd].
  rewrite !append_assoc. reflexivity.
Qed.

Lemma parse_value_bool (f : nat) (d : N) (b : bool) (tail : string) :
  parse_value (S f) d (String " " ((if b then "true" else "false") ++ tail))
  = Some (JBool b, tail).
Proof. destruct b; reflexivity. Qed.

Lemma parse_members_skip (fuel : nat) (d : N) (c : ascii) (s : string) :
  is_space c = true ->
  parse_members fuel d (String c s) = parse_members fuel d s.
Proof.
  intros Hc. destruct fuel as [|f]; [reflexivity|].
  cbn [parse_members skip_space]. rewrite Hc. reflexivity.
Qed.

(** One entry at the head of the members of an object. *)
Lemma parse_members_entry (f : nat) (d : N) (k : Z) (b : bool) (tail : string) :
  parse_members (S (S f)) d (Earlier.encodeEntry (k, b) ++ tail)
  = match skip_space tail with
    | EmptyString => None
    | String c r =>
        if is_char c 125 then Some ([(itoa k, JBool b)], r)
        else if is_char c 44 then
          match parse_members (S f) d r with
          | Some (kvs, rest) => Some ((itoa k, JBool b) :: kvs, rest)
          | None => None
          end
        else None
    end.
Proof.
  rewrite entry_text.
  change (parse_members (S (S f)) d
            (String " " (String " " (String dquote
               (itoa k ++ String dquote (String ":" (String " "
                  ((if b then "true" else "false") ++ tail))))))))
    with (match parse_string_body
                  (itoa k ++ String dquote (String ":" (String " "
                     ((if b then "true" else "false") ++ tail)))) with
          | None => None
          | Some (key, r1) =>
              match skip_space r1 with
              | EmptyString => None
              | String c2 r2 =>
                  if negb (is_char c2 58) then None
                  else
                    match parse_value (S f) d r2 with
                    | None => None
                    | Some (v, r3) =>
                        match skip_space r3 with
                        | EmptyString => None
                        | String c4 r4 =>
                            if is_char c4 125 then Some ([(key, v)], r4)
                            else if is_char c4 44 then
                              match parse_members (S f) d r4 with
                              | Some (kvs, rest) => Some ((key, v) :: kvs, rest)
                              | None => None
                              end
                            else None
                        end
                    end
              end
          end).
  rewrite body_of_itoa.
  change (skip_space (String ":" ?x)) with (String ":" x).
  change (negb (is_char ":" 58)) with false. cbv iota.
  rewrite parse_value_bool. reflexivity.
Qed.

(** The entries of a map, as [encodeSentIDs] writes them, are the
    members the scanner reads. *)
Lemma parse_members_entries (l : list (Z * bool)) :
  l <> [] ->
  forall (fuel : nat) (d : N) (rest : string),
    (length l < fuel)%nat ->
    parse_members fuel d
      (Join (map Earlier.encodeEntry l) ("," ++ nl) ++ nl ++ "}" ++ rest)
    = Some (map (fun kv => (itoa (fst kv), JBool (snd kv))) l, rest).
Proof.
  induction l as [|[k b] l IH]; [congruence|].
  intros _ fuel d rest Hf.
  destruct fuel as [|[|f]]; [cbn [length] in Hf; lia ..|].
  destruct l as [|kv l].
  - cbn [map Join]. rewrite parse_members_entry. reflexivity.
  - assert (Hl : (length (kv :: l) < S f)%nat) by (cbn [length] in *; lia).
    specialize (IH ltac:(discriminate) (S f) d rest Hl).
    change (Join (map Earlier.encodeEntry ((k, b) :: kv :: l)) ("," ++ nl))
      with (Earlier.encodeEntry (k, b) ++ ("," ++ nl)
            ++ Join (map Earlier.encodeEntry (kv :: l)) ("," ++ nl))%string.
    rewrite !append_assoc. rewrite parse_members_entry.
    change (skip_space ("," ++ nl ++ ?x)%string) with (String "," (nl ++ x)%string).
    change (is_char "," 125) with false. change (is_char "," 44) with true.
    cbv iota.
    change (nl ++ ?x)%string with (String (byte_of 10) x).
    rewrite parse_members_skip by reflexivity.
    rewrite <- !append_assoc in IH |- *. rewrite !append_assoc in IH |- *.
    rewrite IH. reflexivity.
Qed.

Lemma parse_value_object (F : nat) (s : string) (c : ascii) (r : string) :
  skip_space s = String c r -> is_char c 125 = false ->
  parse_value (S F) 0 (String "{" s)
  = match parse_members F 1 (String c r) with
    | Some (kvs, rest) => Some (JObject kvs, rest)
    | None => None
    end.
Proof.
  intros Hs Hc.
  change (parse_value (S F) 0 (String "{" s))
    with (match skip_space s with
          | EmptyString => None
          | String c1 r1 =>
              if is_char c1 125 then Some (JObject [], r1)
              else
                match parse_members F 1 (String c1 r1) with
                | Some (kvs, rest) => Some (JObject kvs, rest)
                | None => None
                end
          end).
  rewrite Hs, Hc. reflexivity.
Qed.

Lemma entries_length (l : list (Z * bool)) (sep : string) :
  (length l <= String.length (Join (map Earlier.encodeEntry l) sep))%nat.
Proof.
  induction l as [|[k b] l IH]; [cbn; lia|].
  destruct l as [|kv l].
  - cbn [map Join length]. rewrite <- (append_empty (Earlier.encodeEntry (k, b))) at 1.
    rewrite append_empty. 
    pose proof (entry_text k b EmptyString) as He.
    apply (f_equal String.length) in He. rewrite length_append in He.
    cbn [String.length] in He. lia.
  - change (Join (map Earlier.encodeEntry ((k, b) :: kv :: l)) sep)
      with (Earlier.encodeEntry (k, b) ++ sep
            ++ Join (map Earlier.encodeEntry (kv :: l)) sep)%string.
    rewrite !length_append.
    pose proof (entry_text k b EmptyString) as He.
    apply (f_equal String.length) in He. rewrite length_append in He.
    cbn [String.length] in He. cbn [length] in *. lia.
Qed.

(** The scanner reads the text of a map as the object of its entries. *)
Lemma parse_entries (l : list (Z * bool)) :
  l <> [] ->
  parse ("{" ++ nl ++ Join (map Earlier.encodeEntry l) ("," ++ nl) ++ nl ++ "}")
  = Some (JObject (map (fun kv => (itoa (fst kv), JBool (snd kv))) l)).
Proof.
  intros Hl. unfold parse.
  set (J := Join (map Earlier.encodeEntry l) ("," ++ nl)).
  set (text := ("{" ++ nl ++ J ++ nl ++ "}")%string).
  assert (Hlen : (length l < 2 * String.length text + 1)%nat).
  { pose proof (entries_length l ("," ++ nl)) as Hj. fold J in Hj.
    unfold text. rewrite !length_append. lia. }
  replace (2 * String.length text + 2)%nat with (S (2 * String.length text + 1)) by lia.
  set (F := (2 * String.length text + 1)%nat) in *. clearbody F.
  assert (Hp : parse_members F 1
                 (J ++ nl ++ "}" ++ EmptyString)
               = Some (map (fun kv => (itoa (fst kv), JBool (snd kv))) l, EmptyString))
    by (apply parse_members_entries; assumption).
  destruct l as [|[k b] l]; [congruence|].
  assert (Hj : exists tail, (J ++ nl ++ "}")%string
                            = (Earlier.encodeEntry (k, b) ++ tail)%string).
  { unfold J. destruct l as [|kv l].
    - cbn [map Join]. eexists. reflexivity.
    - change (Join (map Earlier.encodeEntry ((k, b) :: kv :: l)) ("," ++ nl))
        with (Earlier.encodeEntry (k, b) ++ ("," ++ nl)
              ++ Join (map Earlier.encodeEntry (kv :: l)) ("," ++ nl))%string.
      rewrite append_assoc. eexists. reflexivity. }
  destruct Hj as (tail & Hj).
  change (J ++ nl ++ "}" ++ EmptyString)%string with (J ++ nl ++ "}")%string in Hp.
  unfold text.
  change ("{" ++ nl ++ J ++ nl ++ "}")%string
    with (String "{" (String (byte_of 10) (J ++ nl ++ "}")%string)).
  rewrite Hj in Hp |- *. rewrite entry_text in Hp |- *.
  erewrite parse_value_object; [|reflexivity|reflexivity].
  rewrite !parse_members_skip in Hp by reflexivity.
  rewrite Hp. reflexivity.
Qed.

(** ** The entries of a map *)

Lemma insertEntry_perm (kv : Z * bool) (l : list (Z * bool)) :
  Earlier.insertEntry kv l ≡ₚ kv :: l.
Proof.
  induction l as [|x l IH]; [reflexivity|].
  cbn [Earlier.insertEntry].
  destruct (String.leb (itoa (fst kv)) (itoa (fst x))); [reflexivity|].
  rewrite IH. apply Permutation_swap.
Qed.

Lemma sortedEntries_perm (m : gmap Z bool) :
  Earlier.sortedEntries m ≡ₚ map_to_list m.
Proof.
  unfold Earlier.sortedEntries.
  induction (map_to_list m) as [|kv l IH]; [reflexivity|].
  cbn [foldr]. rewrite insertEntry_perm, IH. reflexivity.
Qed.

Lemma decode_members (l : list (Z * bool)) (m0 : gmap Z bool) :
  (forall kv, In kv l -> (- 2 ^ 63 <= fst kv <= 2 ^ 63 - 1)%Z) ->
  fold_left
    (fun acc kv =>
       match acc, parseInt64 (fst kv), snd kv with
       | Some m, Some k, JBool b => Some (<[k := b]> m)
       | Some m, Some k, JNull => Some (<[k := false]> m)
       | _, _, _ => None
       end)
    (map (fun kv => (itoa (fst kv), JBool (snd kv))) l) (Some m0)
  = Some (fold_left (fun m kv => <[fst kv := snd kv]> m) l m0).
Proof.
  revert m0. induction l as [|[k b] l IH]; intros m0 Hr; [reflexivity|].
  cbn [map fold_left fst snd].
  rewrite parseInt64_itoa by (apply (Hr (k, b)); left; reflexivity).
  apply IH. intros kv Hin. apply Hr. right. exact Hin.
Qed.

Lemma fold_entries (l : list (Z * bool)) (m : gmap Z bool) :
  l ≡ₚ map_to_list m ->
  fold_left (fun m kv => <[fst kv := snd kv]> m) l ∅ = m.
Proof.
  intros Hp.
  rewrite <- (fold_left_rev_right (fun kv m => <[fst kv := snd kv]> m)).
  symmetry. apply (list_to_map_flip m (rev l)).
  rewrite <- Hp. apply Permutation_rev.
Qed.

(** [json.Unmarshal] reads back what [json.MarshalIndent] writes. *)
Lemma decode_encode (m : gmap Z bool) :
  (forall k b, m !! k = Some b -> (- 2 ^ 63 <= k <= 2 ^ 63 - 1)%Z) ->
  Earlier.decodeSentIDs (Earlier.encodeSentIDs m) = Some m.
Proof.
  intros Hr. unfold Earlier.decodeSentIDs, Earlier.encodeSentIDs.
  pose proof (sortedEntries_perm m) as Hp.
  destruct (Earlier.sortedEntries m) as [|kv l] eqn:El.
  - symmetry in Hp. apply Permutation_nil_r in Hp.
    apply map_to_list_empty_iff in Hp. subst m. reflexivity.
  - rewrite parse_entries by discriminate.
    rewrite decode_members.
    + rewrite (fold_entries _ m Hp). reflexivity.
    + intros [k b] Hin. cbn [fst]. apply (Hr k b).
      apply elem_of_map_to_list. rewrite <- Hp. apply list_elem_of_In. exact Hin.
Qed.

Lemma encode_nonempty (m : gmap Z bool) :
  (String.length (Earlier.encodeSentIDs m) =? 0)%nat = false.
Proof.
  unfold Earlier.encodeSentIDs.
  destruct (Earlier.sortedEntries m); reflexivity.
Qed.

End StateFileText.

Section StateFile.
Context `{Platform}.
Variable env : Env Earlier.DiscordWebhookPayload.

(** X13. The state file round trip of the earlier program: the text
    [saveSentIncidents] writes for a sent-state set decodes to that
    set. So a load that finds the text returns the set without a
    warning and without an event, and a run that finds it sends for
    the active incidents the set does not hold as sent, and for no
    other. The keys are Go ints. *)
Theorem earlier_state_file_is_read_back (cfg : Config) (sentIDs : gmap Z bool) w :
  (forall k b, sentIDs !! k = Some b -> (- 2 ^ 63 <= k <= 2 ^ 63 - 1)%Z) ->
  let text := Earlier.encodeSentIDs sentIDs in
  Earlier.decodeSentIDs text = Some sentIDs
  /\ (read_state env (trace w) = Ok (Some text) ->
      Earlier.loadSentIncidents env w = (Ok sentIDs, w)
      /\ (webhookURL cfg <> EmptyString ->
          NoDup (map rowID (store w)) ->
          exists evs,
            trace (snd (Earlier.main env cfg w)) = trace w ++ evs
            /\ sendIDs evs
               = map ID (Earlier.unsentOf sentIDs (Earlier.queryActive (store w))))).
Proof.
  intros Hr text.
  pose proof (decode_encode sentIDs Hr) as Hd. fold text in Hd.
  split; [exact Hd|].
  intros Hfile.
  assert (Hload : Earlier.loadSentIncidents env w = (Ok sentIDs, w)).
  { unfold Earlier.loadSentIncidents. rewrite Hfile.
    unfold text at 1. rewrite encode_nonempty. rewrite Hd. reflexivity. }
  split; [exact Hload|].
  intros Hurl Hnd. apply String.eqb_neq in Hurl.
  destruct (earlier_passes_run env cfg sentIDs w Hnd)
    as (evs1 & evs2 & Ht & Hs1 & Hn & Hc & _ & _ & Hs2 & _).
  exists (evs1 ++ evs2 ++ [ELog "Run complete."]).
  split.
  - unfold Earlier.main, nonempty. rewrite Hurl. cbn [negb].
    unfold bind at 1. rewrite Hload. cbn [fst snd].
    unfold bind, log, emit, ret. cbn [fst snd store trace].
    rewrite Ht. now rewrite <- !app_assoc.
  - rewrite !sendIDs_app, Hs2, Hs1. cbn. now rewrite app_nil_r.
Qed.

End StateFile.

(* ================================================================== *)
(** * The theorems above on the sample world *)

Lemma later_debug_mode_witness :
  let i := sampleIncident 1 "NCDOT" ncdotNewShape None in
  let c := sampleIncident 2 "RWECC" rweccLegacy None in
  let w : @World samplePlatform Later.DiscordWebhookPayload :=
    {| store := [sampleRow i "active" None; sampleRow c "cleared" (Some "msg-9")];
       trace := [] |} in
  notifyDiscord (sampleConfig "0") = "0"
  /\ fst (Later.pass1 (sampleEnv true true) (sampleConfig "0") w) = 0%Z
  /\ exists evs,
       trace (snd (Later.main (sampleEnv true true) (sampleConfig "0") w))
       = trace w ++ evs
       /\ sendIDs evs = [] /\ editIDs evs = [2%Z].
Proof.
  intros i c w.
  assert (Hd : notifyDiscord (sampleConfig "0") = "0") by reflexivity.
  assert (Hurl : webhookURL (sampleConfig "0") <> EmptyString) by discriminate.
  split; [exact Hd|].
  destruct (@later_debug_mode_only_holds_back_alerts samplePlatform
              (sampleEnv true true) (sampleConfig "0") w Hd) as [Hp Hm].
  split; [exact (proj1 Hp)|].
  destruct (Hm Hurl) as (evs & Ht & Hs & _ & He).
  exists evs. split; [exact Ht|]. split; [exact Hs|exact He].
Defined.

Lemma later_failed_edit_witness :
  let c := sampleIncident 2 "RWECC" rweccLegacy None in
  let w : @World samplePlatform Later.DiscordWebhookPayload :=
    {| store := [sampleRow c "cleared" (Some "msg-9")]; trace := [] |} in
  let w1 := snd (Later.pass2 (sampleEnv false true) (sampleConfig "1") w) in
  NoDup (map rowID (store w))
  /\ exists evs, trace w1 = trace w ++ evs /\ editIDs evs = [2%Z].
Proof.
  intros c w w1.
  assert (Hnd : NoDup (map rowID (store w))) by apply NoDup_singleton.
  split; [exact Hnd|].
  destruct (@later_failed_edit_is_retried samplePlatform (sampleEnv false true)
              (sampleConfig "1") w Hnd) as (evs & evs2 & Ht & _ & He & _).
  exists evs. split; [exact Ht|exact He].
Defined.

Lemma earlier_pass2_witness :
  let c := sampleIncident 2 "RWECC" rweccLegacy None in
  let w : @World samplePlatform Earlier.DiscordWebhookPayload :=
    {| store := [sampleRow c "cleared" (Some "msg-9")]; trace := [] |} in
  let w1 := snd (Earlier.pass2 (sampleEnv true true) (sampleConfig "1") w) in
  NoDup (map rowID (store w))
  /\ exists evs, trace w1 = trace w ++ evs /\ editIDs evs = [2%Z].
Proof.
  intros c w w1.
  assert (Hnd : NoDup (map rowID (store w))) by apply NoDup_singleton.
  split; [exact Hnd|].
  destruct (@earlier_pass2_edits_each_cleared_incident_once samplePlatform
              (sampleEnv true true) (sampleConfig "1") w Hnd) as (evs & Ht & He & _).
  exists evs. split; [exact Ht|exact He].
Defined.

Lemma earlier_pass1_witness :
  let a := sampleIncident 1 "NCDOT" (dq "{'reason':'Crash','severity':2}") None in
  let b := sampleIncident 2 "RWECC" rweccLegacy None in
  let st := [sampleRow a "active" None; sampleRow b "active" None] in
  let w : @World samplePlatform Earlier.DiscordWebhookPayload :=
    {| store := st; trace := [] |} in
  let sentIDs : gmap Z bool := <[2%Z := true]> ∅ in
  NoDup (map rowID st)
  /\ exists evs,
       trace (snd (Earlier.pass1 (sampleEnv true false) (sampleConfig "1") sentIDs w))
       = trace w ++ evs
       /\ sendIDs evs = [1%Z].
Proof.
  intros a b st w sentIDs.
  assert (Hnd : NoDup (map rowID st)).
  { apply NoDup_cons. split; [|apply NoDup_singleton].
    intros Hin. apply list_elem_of_singleton in Hin. discriminate. }
  split; [exact Hnd|].
  destruct (@earlier_pass1_sends_once_per_unsent_incident samplePlatform
              (sampleEnv true false) (sampleConfig "1") sentIDs w Hnd)
    as (evs & evs2 & Ht & _ & Hs & _).
  exists evs. split; [exact Ht|exact Hs].
Defined.

Lemma earlier_state_file_witness :
  let a := sampleIncident 1 "NCDOT" (dq "{'reason':'Crash','severity':2}") None in
  let w : @World samplePlatform Earlier.DiscordWebhookPayload :=
    {| store := [sampleRow a "active" None]; trace := [] |} in
  let res := Earlier.run (sampleEnvWith (Some "null") false) (sampleConfig "1") w in
  webhookURL (sampleConfig "1") <> EmptyString
  /\ NoDup (map rowID (store w))
  /\ res = (Fatal "Error querying for new incidents: connection refused", w).
Proof.
  intros a w res.
  assert (Hurl : webhookURL (sampleConfig "1") <> EmptyString) by discriminate.
  assert (Hnd : NoDup (map rowID (store w))) by apply NoDup_singleton.
  split; [exact Hurl|]. split; [exact Hnd|].
  exact (@earlier_run_starts_from_the_state_file samplePlatform
           (sampleEnvWith (Some "null") false) (sampleConfig "1") w Hurl Hnd).
Defined.


Lemma earlier_state_file_text_witness :
  let sentIDs : gmap Z bool := <[9%Z := true]> (<[10%Z := false]> ∅) in
  (forall k b, sentIDs !! k = Some b -> (- 2 ^ 63 <= k <= 2 ^ 63 - 1)%Z)
  /\ Earlier.decodeSentIDs (Earlier.encodeSentIDs sentIDs) = Some sentIDs.
Proof.
  intros sentIDs.
  assert (Hr : forall k b, sentIDs !! k = Some b -> (- 2 ^ 63 <= k <= 2 ^ 63 - 1)%Z).
  { intros k b Hk. unfold sentIDs in Hk.
    apply lookup_insert_Some in Hk. destruct Hk as [[<- _]|[_ Hk]]; [lia|].
    apply lookup_insert_Some in Hk. destruct Hk as [[<- _]|[_ Hk]]; [lia|].
    rewrite lookup_empty in Hk. discriminate. }
  split; [exact Hr|].
  exact (proj1 (@earlier_state_file_is_read_back samplePlatform
                  (sampleEnv true true) (sampleConfig "1") sentIDs
                  {| store := []; trace := [] |} Hr)).
Defined.
